(** * Job orchestration and resilience engine: a shallow embedding

    The development follows the TypeScript sources module by module:
    - [Js]: the string primitives of the host language that the code calls
      ([includes], [toLowerCase], [trim], [parseInt] on digit strings, ...);
    - [Number]: [Math.min] and the literal [0.1] on binary64 numbers;
    - [RetryHandler]: src/lib/scraper/core/retry-handler.ts;
    - [RateLimiter]: src/lib/scraper/utils/rate-limiter.ts;
    - [DataProcessor]: the data processor class;
    - [DatabaseJobQueue]: the database backed job queue;
    - [WebhookManager]: src/lib/webhooks/webhook-manager.ts;
    - [ApiAuthService] and [AuthMiddleware]: the permissions and rate limits
      of API keys, and the middleware that applies them to a request;
    - [SSEManager]: the clients and topics of the server-sent event streams.

    Strings are [string]s whose characters stand for code units below 256.
    Integers (counters, millisecond clocks) are [Z]; the delays of the retry
    handler are binary64 floating-point numbers ([float]), computed with the
    operations of the host language; prices are read as exact fractions.
    Reads of the clock and of the random generator are arguments of the
    functions that perform them, and so are the library functions whose
    results the language leaves to the implementation ([Math.pow]) or that
    come from outside (HMAC, [JSON.stringify], [fetch]). *)

From Stdlib Require Import ZArith QArith Lia String Ascii List Bool.
From stdpp Require Import base gmap strings list pretty.
From Stdlib Require Import PrimFloat.
Import ListNotations.

Local Open Scope string_scope.
Local Open Scope Z_scope.

(* ===================================================================== *)
(** ** Host language string primitives *)
(* ===================================================================== *)

Module Js.

Definition code (c : ascii) : N := N_of_ascii c.

Definition between (lo hi : N) (c : ascii) : bool :=
  (N.leb lo (code c)) && (N.leb (code c) hi).

(** [\d] *)
Definition isDigit (c : ascii) : bool := between 48 57 c.

(** [\w] : letters, digits and the underscore *)
Definition isWord (c : ascii) : bool :=
  between 97 122 c || between 65 90 c || isDigit c || N.eqb (code c) 95.

(** [\s] and the characters removed by [trim] (below 256): tab, line feed,
    vertical tab, form feed, carriage return, space, no-break space *)
Definition isSpace (c : ascii) : bool :=
  between 9 13 c || N.eqb (code c) 32 || N.eqb (code c) 160.

Definition toLowerChar (c : ascii) : ascii :=
  if between 65 90 c || between 192 214 c || between 216 222 c
  then ascii_of_N (code c + 32) else c.

Definition toUpperChar (c : ascii) : ascii :=
  if between 97 122 c || between 224 246 c || between 248 254 c
  then ascii_of_N (code c - 32) else c.

Fixpoint mapChars (f : ascii -> ascii) (s : string) : string :=
  match s with
  | EmptyString => EmptyString
  | String c s' => String (f c) (mapChars f s')
  end.

Fixpoint filterChars (p : ascii -> bool) (s : string) : string :=
  match s with
  | EmptyString => EmptyString
  | String c s' => if p c then String c (filterChars p s') else filterChars p s'
  end.

Definition toLowerCase : string -> string := mapChars toLowerChar.
Definition toUpperCase : string -> string := mapChars toUpperChar.

(** [s.startsWith(p)] *)
Fixpoint startsWith (s p : string) : bool :=
  match p, s with
  | EmptyString, _ => true
  | String _ _, EmptyString => false
  | String a p', String b s' => Ascii.eqb a b && startsWith s' p'
  end.

(** [s.includes(p)] *)
Fixpoint includes (s p : string) : bool :=
  startsWith s p ||
  match s with
  | EmptyString => false
  | String _ s' => includes s' p
  end.

(** truthiness of a string: non-empty *)
Definition truthy (s : string) : bool :=
  match s with EmptyString => false | _ => true end.

Fixpoint dropWhile (p : ascii -> bool) (s : string) : string :=
  match s with
  | EmptyString => EmptyString
  | String c s' => if p c then dropWhile p s' else s
  end.

Fixpoint takeWhile (p : ascii -> bool) (s : string) : string :=
  match s with
  | EmptyString => EmptyString
  | String c s' => if p c then String c (takeWhile p s') else EmptyString
  end.

Fixpoint rev_string (acc s : string) : string :=
  match s with
  | EmptyString => acc
  | String c s' => rev_string (String c acc) s'
  end.

Definition dropWhileEnd (p : ascii -> bool) (s : string) : string :=
  rev_string "" (dropWhile p (rev_string "" s)).

(** [s.trim()] *)
Definition trim (s : string) : string :=
  dropWhileEnd isSpace (dropWhile isSpace s).

(** [s.replace(/\s+/g, r)] for a one character replacement [r]; [inRun]
    tells that the previous character belonged to the run being replaced *)
Fixpoint collapseSpacesFrom (inRun : bool) (r : ascii) (s : string) : string :=
  match s with
  | EmptyString => EmptyString
  | String c s' =>
      if isSpace c
      then (if inRun then collapseSpacesFrom true r s'
            else String r (collapseSpacesFrom true r s'))
      else String c (collapseSpacesFrom false r s')
  end.

Definition collapseSpaces : ascii -> string -> string := collapseSpacesFrom false.

(** [s.substring(0, n)] *)
Fixpoint substring0 (n : nat) (s : string) : string :=
  match n, s with
  | O, _ => EmptyString
  | _, EmptyString => EmptyString
  | S n', String c s' => String c (substring0 n' s')
  end.

Definition digitValue (c : ascii) : Z := Z.of_N (code c) - 48.

Fixpoint digitsValue (acc : Z) (s : string) : Z :=
  match s with
  | EmptyString => acc
  | String c s' => digitsValue (10 * acc + digitValue c) s'
  end.

(** [parseInt(s)] for a string of decimal digits only; [None] is [NaN] *)
Definition parseIntDigits (s : string) : option Z :=
  match s with
  | EmptyString => None
  | _ => Some (digitsValue 0 s)
  end.

End Js.

(* ===================================================================== *)
(** ** Host language numbers *)
(* ===================================================================== *)

Module Number.

(** The literal [0.1]: the binary64 number nearest to one tenth. *)
Definition tenth : float := 0x1.999999999999ap-4.

(** [Math.min(a, b)]: NaN when an argument is NaN; -0 counts as less
    than +0. *)
Definition min (a b : float) : float :=
  if PrimFloat.is_nan a || PrimFloat.is_nan b then PrimFloat.nan
  else if PrimFloat.ltb a b then a
  else if PrimFloat.ltb b a then b
  else match PrimFloat.classify a with
       | FloatClass.NZero => a
       | _ => b
       end.

End Number.

(* ===================================================================== *)
(** ** RetryHandler (retry-handler.ts) *)
(* ===================================================================== *)

Module RetryHandler.
Import Js.

Inductive ErrorType : Type :=
  | NETWORK | TIMEOUT | CAPTCHA | BLOCKED | RATE_LIMITED | PARSING | UNKNOWN.

(** A thrown value after [error instanceof Error ? error : new Error(String(error))];
    only the message is read by the handler. *)
Record JsError : Type := { message : string }.

Record RetryConfig : Type := {
  maxRetries : Z;
  baseDelay : float;
  maxDelay : float;
  backoffMultiplier : float;
  retryableErrors : list string
}.

Definition defaultConfig : RetryConfig := {|
  maxRetries := 3;
  baseDelay := 1000;
  maxDelay := 30000;
  backoffMultiplier := 2;
  retryableErrors :=
    [ "net::ERR_NETWORK_CHANGED"; "net::ERR_CONNECTION_RESET";
      "net::ERR_CONNECTION_REFUSED"; "net::ERR_TIMED_OUT";
      "TimeoutError"; "ProtocolError" ]
|}.

Record RetryResult (T : Type) : Type := {
  success : bool;
  data : option T;
  error : option JsError;
  attempts : Z
}.
Arguments success {T} _.
Arguments data {T} _.
Arguments error {T} _.
Arguments attempts {T} _.

Definition classifyError (error : JsError) : ErrorType :=
  let message := toLowerCase (message error) in
  if includes message "timeout" || includes message "timed out" then TIMEOUT
  else if includes message "network" || includes message "connection"
          || includes message "net::err" then NETWORK
  else if includes message "captcha" || includes message "recaptcha" then CAPTCHA
  else if includes message "blocked" || includes message "access denied"
          || includes message "403" || includes message "rate limit" then BLOCKED
  else if includes message "rate limit" || includes message "too many requests"
          || includes message "429" then RATE_LIMITED
  else if includes message "parse" || includes message "extract"
          || includes message "selector" then PARSING
  else UNKNOWN.

Definition isConfiguredRetryable (error : JsError) (config : RetryConfig) : bool :=
  existsb (fun pattern => includes (message error) pattern) (retryableErrors config).

Definition isRetryableError (error : JsError) (config : RetryConfig)
    (errorType : ErrorType) : bool :=
  if isConfiguredRetryable error config then true
  else match errorType with
       | NETWORK | TIMEOUT | RATE_LIMITED => true
       | CAPTCHA | BLOCKED => false
       | PARSING => false
       | UNKNOWN => true
       end.

Section Delay.
(** [Math.pow(x, n)] for the integer [n] that [attempt] holds; the language
    leaves the value to the implementation. *)
Variable pow : float -> Z -> float.

(** [config.baseDelay * Math.pow(config.backoffMultiplier, attempt)], the
    delay before jitter *)
Definition exponentialDelay (attempt : Z) (config : RetryConfig) : float :=
  PrimFloat.mul (baseDelay config) (pow (backoffMultiplier config) attempt).

(** [Math.random() * 0.1 * exponentialDelay] *)
Definition jitter (attempt : Z) (config : RetryConfig) (random : float) : float :=
  PrimFloat.mul (PrimFloat.mul random Number.tenth) (exponentialDelay attempt config).

(** [random] is the value returned by the call of [Math.random()]. *)
Definition calculateDelay (attempt : Z) (config : RetryConfig) (random : float) : float :=
  let totalDelay :=
    PrimFloat.add (exponentialDelay attempt config) (jitter attempt config random) in
  Number.min totalDelay (maxDelay config).
End Delay.

(** What a run of [executeWithRetry] does besides returning: calls of the
    operation, of the two callbacks, and sleeps. *)
Inductive Effect : Type :=
  | Invoke (thrown : option JsError)   (* a call of the operation; what it threw *)
  | OnFinalFailure (e : JsError) (attempt : Z)
  | OnRetry (attempt : Z) (e : JsError)
  | Sleep (ms : float).

Section ExecuteWithRetry.
(** The operation acts on a world [W]; it returns or throws. *)
Context {W T : Type}.
Variable operation : W -> (JsError + T) * W.
(** [Math.pow], as in [calculateDelay] *)
Variable pow : float -> Z -> float.
(** the [i]-th value drawn from [Math.random()] during the run *)
Variable random : nat -> float.
Variable finalConfig : RetryConfig.

Definition failure (lastError : option JsError) : RetryResult T :=
    {| success := false; data := None; error := lastError;
       attempts := maxRetries finalConfig + 1 |}.

(** The body of [for (attempt = 1; attempt <= maxRetries + 1; attempt++)];
      [remaining] counts the iterations left, so that
      [attempt + remaining = maxRetries + 2] while the loop runs. *)
Fixpoint retryLoop (remaining : nat) (attempt : Z) (lastError : option JsError)
      (w : W) : RetryResult T * list Effect * W :=
    match remaining with
    | O => (failure lastError, [], w)
    | S remaining' =>
        match operation w with
        | (inr d, w') =>
            ({| success := true; data := Some d; error := None;
                attempts := attempt |}, [Invoke None], w')
        | (inl lastError, w') =>
            if attempt >? maxRetries finalConfig
            then (failure (Some lastError),
                  [Invoke (Some lastError); OnFinalFailure lastError attempt], w')
            else
              let errorType := classifyError lastError in
              let isRetryable := isRetryableError lastError finalConfig errorType in
              if negb isRetryable
              then (failure (Some lastError), [Invoke (Some lastError)], w')
              else
                let delay :=
                  calculateDelay pow (attempt - 1) finalConfig
                                 (random (Z.to_nat (attempt - 1))) in
                let '(r, effects, w'') :=
                  retryLoop remaining' (attempt + 1) (Some lastError) w' in
                (r, Invoke (Some lastError) :: OnRetry attempt lastError
                      :: Sleep delay :: effects, w'')
        end
    end.

Definition executeWithRetry (w : W) : RetryResult T * list Effect * W :=
    retryLoop (Z.to_nat (maxRetries finalConfig + 1)) 1 None w.
End ExecuteWithRetry.

Definition invocations (effects : list Effect) : nat :=
  List.length (List.filter (fun e => match e with Invoke _ => true | _ => false end)
                           effects).

(** what the calls of the operation threw, in order *)
Definition thrown (effects : list Effect) : list JsError :=
  flat_map (fun e => match e with Invoke (Some err) => [err] | _ => [] end) effects.

Definition sleeps (effects : list Effect) : list float :=
  flat_map (fun e => match e with Sleep d => [d] | _ => [] end) effects.

(** *** The circuit breaker returned by [createCircuitBreaker] *)

Inductive BreakerState : Type := closed | open | half_open.

(** The three variables captured by the closures. *)
Record Breaker : Type := {
  failures : Z;
  lastFailureTime : Z;
  state : BreakerState
}.

Definition createCircuitBreaker : Breaker :=
  {| failures := 0; lastFailureTime := 0; state := closed |}.

Inductive Outcome (T : Type) : Type :=
  | Rejected                (* 'Circuit breaker is open - too many recent failures' *)
  | Returned (result : T)
  | Threw (e : JsError).
Arguments Rejected {T}.
Arguments Returned {T} _.
Arguments Threw {T} _.

Definition BreakerState_eqb (a b : BreakerState) : bool :=
  match a, b with
  | closed, closed | open, open | half_open, half_open => true
  | _, _ => false
  end.

Section Execute.
Context {W T : Type}.
Variables maxFailures resetTimeout : Z.
Variable operation : W -> (JsError + T) * W.

(** [now] is [Date.now()] read on entry, [failTime] the one read in the
      [catch] block. *)
Definition execute (b : Breaker) (now failTime : Z) (w : W)
      : Breaker * Outcome T * W :=
    let b1 :=
      if BreakerState_eqb (state b) open && (now - lastFailureTime b >? resetTimeout)
      then {| failures := 0; lastFailureTime := lastFailureTime b; state := half_open |}
      else b in
    if BreakerState_eqb (state b1) open then (b1, Rejected, w)
    else
      match operation w with
      | (inr result, w') =>
          let b2 :=
            if BreakerState_eqb (state b1) half_open
            then {| failures := 0; lastFailureTime := lastFailureTime b1;
                    state := closed |}
            else b1 in
          (b2, Returned result, w')
      | (inl error, w') =>
          let failures' := failures b1 + 1 in
          let b2 :=
            {| failures := failures'; lastFailureTime := failTime;
               state := if failures' >=? maxFailures then open else state b1 |} in
          (b2, Threw error, w')
      end.

Definition reset (b : Breaker) : Breaker :=
    {| failures := 0; lastFailureTime := 0; state := closed |}.
End Execute.

(** Calls of [execute] one after the other; each call comes with the two
    clock readings it makes. *)
Fixpoint executeMany {W T : Type} (maxFailures resetTimeout : Z)
    (operation : W -> (JsError + T) * W) (b : Breaker) (clock : list (Z * Z)) (w : W)
    : Breaker * list (Outcome T) * W :=
  match clock with
  | [] => (b, [], w)
  | (now, failTime) :: clock' =>
      let '(b1, o, w1) := execute maxFailures resetTimeout operation b now failTime w in
      let '(b2, os, w2) := executeMany maxFailures resetTimeout operation b1 clock' w1 in
      (b2, o :: os, w2)
  end.

End RetryHandler.

(* ===================================================================== *)
(** ** RateLimiter (rate-limiter.ts) *)
(* ===================================================================== *)

Module RateLimiter.

Record t : Type := {
  requests : list Z;
  maxRequests : Z;
  windowMs : Z
}.

Definition create (maxRequests windowMs : Z) : t :=
  {| requests := []; maxRequests := maxRequests; windowMs := windowMs |}.

(** How [wait] suspends its caller. *)
Inductive Suspension : Type :=
  | NoSuspension
  | Timeout (waitTime : Z)     (* [setTimeout(resolve, waitTime)] *)
  | TimeoutInfinity.           (* the same with [waitTime = Infinity] *)

(** [Math.min(...xs)]; [None] stands for [Infinity], the value on no argument *)
Definition minimum (xs : list Z) : option Z :=
  match xs with
  | [] => None
  | x :: xs' => Some (fold_left Z.min xs' x)
  end.

Definition inWindow (windowMs now timestamp : Z) : bool :=
  now - timestamp <? windowMs.

(** [wait] up to its [await]: the stale timestamps are dropped and the
    suspension is decided.  [now] is the value of [Date.now()] read on entry. *)
Definition enter (l : t) (now : Z) : t * Suspension :=
  let requests1 := List.filter (inWindow (windowMs l) now) (requests l) in
  let suspension :=
    if Z.of_nat (List.length requests1) >=? maxRequests l then
      match minimum requests1 with
      | Some oldestRequest =>
          let waitTime := windowMs l - (now - oldestRequest) in
          if waitTime >? 0 then Timeout waitTime else NoSuspension
      | None => TimeoutInfinity
      end
    else NoSuspension in
  ({| requests := requests1;
      maxRequests := maxRequests l; windowMs := windowMs l |}, suspension).

(** [wait] after its [await]: [this.requests.push(now)], with the [now] of
    the entry. *)
Definition resume (l : t) (now : Z) : t :=
  {| requests := requests l ++ [now];
     maxRequests := maxRequests l; windowMs := windowMs l |}.

(** A call of [wait] that no other call interleaves with. *)
Definition wait (l : t) (now : Z) : t * Suspension :=
  let '(l1, suspension) := enter l now in
  (resume l1 now, suspension).

Definition getRemainingRequests (l : t) (now : Z) : t * Z :=
  let requests1 := List.filter (inWindow (windowMs l) now) (requests l) in
  ({| requests := requests1; maxRequests := maxRequests l; windowMs := windowMs l |},
   Z.max 0 (maxRequests l - Z.of_nat (List.length requests1))).

(** The time at which the promise returned by [wait] resolves, for a timer
    that fires exactly on time (a timer set to [Infinity] fires after 1 ms
    in Node). *)
Definition resumeTime (now : Z) (s : Suspension) : Z :=
  match s with
  | NoSuspension => now
  | Timeout waitTime => now + waitTime
  | TimeoutInfinity => now + 1
  end.

(** A caller that awaits [wait()] at each of the given times, one call
    after the other: a call issued while the previous one is still
    suspended starts when that one has resumed.  The result lists the
    times at which the calls resumed, i.e. at which the requests go out. *)
Fixpoint sequentialWaits (l : t) (clock : Z) (calls : list Z) : t * list Z :=
  match calls with
  | [] => (l, [])
  | c :: calls' =>
      let now := Z.max clock c in
      let '(l1, s) := wait l now in
      let resumed := resumeTime now s in
      let '(l2, out) := sequentialWaits l1 resumed calls' in
      (l2, resumed :: out)
  end.

Definition recordedInWindow (l : t) (at_ : Z) : nat :=
  List.length (List.filter (inWindow (windowMs l) at_) (requests l)).

End RateLimiter.

(* ===================================================================== *)
(** ** DataProcessor *)
(* ===================================================================== *)

Module DataProcessor.
Import Js.

(** [RawListingData] (listing-extractor.ts).  [contactInfo] and [brokerInfo]
    are not read by the processor. *)
Module Raw.
Record t : Type := {
    title : option string;
    askingPrice : option string;
    revenue : option string;
    cashFlow : option string;
    location : option string;
    industry : option string;
    description : option string;
    established : option string;
    employees : option string;
    listingId : option string;
    url : option string
  }.
End Raw.

(** [Partial<BusinessListing>], as filled by [cleanRawData].  The fields
    [state], [city], [listedDate], [sellerFinancing], [features] and
    [imageUrls] are carried through to the result without being read by
    validation, duplicate detection or statistics, and are left out. *)
Module Partial.
Record t : Type := {
    title : option string;
    bizBuySellId : option string;
    askingPrice : option Q;
    revenue : option Q;
    cashFlow : option Q;
    location : option string;
    industry : option string;
    description : option string;
    established : option Z;
    employees : option Z;
    listingUrl : option string
  }.
End Partial.

(** [BusinessListing] *)
Module Listing.
Record t : Type := {
    title : string;
    bizBuySellId : string;
    location : string;
    industry : string;
    description : string;
    askingPrice : option Q;
    revenue : option Q;
    cashFlow : option Q;
    employees : option Z;
    established : option Z;
    listingUrl : option string
  }.
End Listing.

Module Stats.
Record t : Type := {
    totalProcessed : nat;
    successful : nat;
    failed : nat;
    warnings : nat;
    duplicates : nat
  }.
End Stats.

Module Result.
Record t : Type := {
    success : bool;
    data : option Listing.t;
    errors : list string;
    warnings : list string;
    originalData : Raw.t
  }.
End Result.

(** The processor object: the set of seen ids and the running statistics. *)
Record t : Type := {
  seenListingIds : gset string;
  stats : Stats.t
}.

Definition zeroStats : Stats.t :=
  {| Stats.totalProcessed := 0; Stats.successful := 0; Stats.failed := 0;
     Stats.warnings := 0; Stats.duplicates := 0 |}%nat.

Definition create : t := {| seenListingIds := ∅; stats := zeroStats |}.

(** truthiness of an optional string: defined and non-empty *)
Definition present (o : option string) : bool :=
  match o with Some s => truthy s | None => false end.

(** truthiness of an optional number: defined and not zero *)
Definition nonzeroQ (o : option Q) : bool :=
  match o with Some q => negb (Qeq_bool q 0) | None => false end.
Definition nonzeroZ (o : option Z) : bool :=
  match o with Some z => negb (z =? 0) | None => false end.

Definition cleanTitle (title : string) : string :=
  substring0 200
    (dropWhileEnd (fun c => negb (isWord c))
       (dropWhile (fun c => negb (isWord c))
          (collapseSpaces " " (trim title)))).

Definition cleanListingId (id : string) : string :=
  toUpperCase (filterChars (fun c => isWord c || Ascii.eqb c "-") id).

Fixpoint dropN (n : nat) (s : string) : string :=
  match n, s with
  | O, _ => s
  | S _, EmptyString => EmptyString
  | S n', String _ s' => dropN n' s'
  end.

(** Leftmost match of [prefix (\d+) suffix] in [s], for literal [prefix]
    and [suffix] where [suffix] does not start with a digit; returns the
    captured digits. *)
Fixpoint matchDigits (prefix suffix s : string) : option string :=
  let here :=
    if startsWith s prefix then
      let rest := dropN (String.length prefix) s in
      let digits := takeWhile isDigit rest in
      if truthy digits && startsWith (dropN (String.length digits) rest) suffix
      then Some digits else None
    else None in
  match here with
  | Some d => Some d
  | None => match s with
            | EmptyString => None
            | String _ s' => matchDigits prefix suffix s'
            end
  end.

Definition extractIdFromUrl (url : string) : option string :=
  let patterns :=
    [ ("/business/", "-"); ("/listing/", ""); ("/", "/business"); ("id=", "") ] in
  let fix go (ps : list (string * string)) : option string :=
    match ps with
    | [] => None
    | (prefix, suffix) :: ps' =>
        match matchDigits prefix suffix url with
        | Some m => Some (String.append "BBS" m)
        | None => go ps'
        end
    end in
  go patterns.

Fixpoint pow10 (n : nat) : positive :=
  match n with
  | O => 1%positive
  | S n' => (10 * pow10 n')%positive
  end.

(** [parseFloat] on a string made of digits and dots: the longest prefix
    [digits [. digits]] with at least one digit; [None] is [NaN]. *)
Definition parseFloatDigitsDots (s : string) : option Q :=
  let intPart := takeWhile isDigit s in
  let rest := dropN (String.length intPart) s in
  let fracPart :=
    match rest with
    | String "." rest' => takeWhile isDigit rest'
    | _ => EmptyString
    end in
  if truthy intPart || truthy fracPart
  then Some (Qmake (digitsValue 0 (String.append intPart fracPart))
                   (pow10 (String.length fracPart)))
  else None.

Definition parsePrice (priceStr : string) : option Q :=
  parseFloatDigitsDots (filterChars (fun c => isDigit c || Ascii.eqb c ".") priceStr).

Definition parseYear (currentYear : Z) (yearStr : string) : option Z :=
  match parseIntDigits (filterChars isDigit yearStr) with
  | Some year => if (year >=? 1800) && (year <=? currentYear) then Some year else None
  | None => None
  end.

Definition parseNumber (numStr : string) : option Z :=
  parseIntDigits (filterChars isDigit numStr).

Definition industryMap : list (string * string) :=
  [ ("restaurant", "restaurants"); ("restaurants", "restaurants");
    ("food-service", "restaurants"); ("automotive", "automotive");
    ("auto", "automotive"); ("retail", "retail");
    ("healthcare", "healthcare-medical"); ("medical", "healthcare-medical");
    ("technology", "internet-technology"); ("tech", "internet-technology");
    ("it", "internet-technology"); ("construction", "construction");
    ("manufacturing", "manufacturing"); ("real-estate", "real-estate");
    ("realty", "real-estate"); ("business-services", "business-services");
    ("services", "business-services") ].

Fixpoint assoc (k : string) (m : list (string * string)) : option string :=
  match m with
  | [] => None
  | (k', v) :: m' => if String.eqb k k' then Some v else assoc k m'
  end.

Definition cleanIndustry (industry : string) : string :=
  let cleaned :=
    collapseSpaces "-"
      (filterChars (fun c => isWord c || isSpace c || Ascii.eqb c "-")
         (toLowerCase (trim industry))) in
  match assoc cleaned industryMap with
  | Some v => v
  | None => cleaned
  end.

Definition cleanDescription (description : string) : string :=
  substring0 2000 (collapseSpaces " " (trim description)).

(** [raw.f?.trim()] is truthy *)
Definition trimPresent (o : option string) : bool :=
  match o with Some s => truthy (trim s) | None => false end.

Definition whenPresent {A B : Type} (o : option A) (p : A -> bool) (f : A -> option B)
    : option B :=
  match o with Some a => if p a then f a else None | None => None end.

Definition cleanRawData (currentYear : Z) (raw : Raw.t) : Partial.t :=
  {| Partial.title :=
       whenPresent (Raw.title raw) (fun s => truthy (trim s)) (fun s => Some (cleanTitle s));
     Partial.bizBuySellId :=
       if present (Raw.listingId raw)
       then option_map cleanListingId (Raw.listingId raw)
       else whenPresent (Raw.url raw) truthy extractIdFromUrl;
     Partial.askingPrice := whenPresent (Raw.askingPrice raw) truthy parsePrice;
     Partial.revenue := whenPresent (Raw.revenue raw) truthy parsePrice;
     Partial.cashFlow := whenPresent (Raw.cashFlow raw) truthy parsePrice;
     Partial.location :=
       whenPresent (Raw.location raw) (fun s => truthy (trim s)) (fun s => Some (trim s));
     Partial.industry :=
       whenPresent (Raw.industry raw) (fun s => truthy (trim s))
                   (fun s => Some (cleanIndustry s));
     Partial.description :=
       whenPresent (Raw.description raw) (fun s => truthy (trim s))
                   (fun s => Some (cleanDescription s));
     Partial.established := whenPresent (Raw.established raw) truthy (parseYear currentYear);
     Partial.employees := whenPresent (Raw.employees raw) truthy parseNumber;
     Partial.listingUrl := whenPresent (Raw.url raw) truthy Some |}.

Record Validation : Type := {
  isValid : bool;
  validData : option Listing.t;
  validationErrors : list string;
  validationWarnings : list string
}.

Definition pushIf (c : bool) (x : string) (l : list string) : list string :=
  if c then l ++ [x] else l.

Definition orElse (o : option string) (d : string) : string :=
  match o with
  | Some s => if truthy s then s else d
  | None => d
  end.

Definition Qgtb (a b : Q) : bool := negb (Qle_bool a b).
Definition Qltb (a b : Q) : bool := negb (Qle_bool b a).

(** [a && b && a > b * k] on optional numbers *)
Definition bothAndGreater (a b : option Q) (k : Q) : bool :=
  match a, b with
  | Some x, Some y => nonzeroQ a && nonzeroQ b && Qgtb x (Qmult y k)
  | _, _ => false
  end.

(** [currentYear] is [new Date().getFullYear()]. *)
Definition validateData (currentYear : Z) (data : Partial.t) : Validation :=
  let errors0 : list string := [] in
  let warnings0 : list string := [] in
  let errors1 := pushIf (negb (present (Partial.title data))) "Title is required" errors0 in
  let errors2 :=
    pushIf (negb (present (Partial.bizBuySellId data))) "Listing ID is required" errors1 in
  let errors3 :=
    pushIf (negb (present (Partial.location data))) "Location is required" errors2 in
  let warnings1 :=
    pushIf (negb (present (Partial.industry data))) "Industry not specified" warnings0 in
  let warnings2 :=
    pushIf (negb (present (Partial.description data))) "Description not available"
           warnings1 in
  let errors4 :=
    pushIf (match Partial.askingPrice data with
            | Some p => nonzeroQ (Some p) && Qltb p 0
            | None => false
            end) "Asking price cannot be negative" errors3 in
  let warnings3 :=
    pushIf (match Partial.revenue data with
            | Some r => nonzeroQ (Some r) && Qltb r 0
            | None => false
            end) "Revenue is negative" warnings2 in
  let warnings4 :=
    pushIf (bothAndGreater (Partial.askingPrice data) (Partial.revenue data) (20 # 1))
           "Asking price seems unusually high compared to revenue" warnings3 in
  let warnings5 :=
    pushIf (bothAndGreater (Partial.cashFlow data) (Partial.revenue data) (1 # 1))
           "Cash flow higher than revenue (unusual)" warnings4 in
  let warnings6 :=
    match Partial.established data with
    | Some y =>
        pushIf (negb (y =? 0) && ((y <? 1800) || (y >? currentYear)))
               (String.append "Established year "
                  (String.append (pretty y) " seems unrealistic")) warnings5
    | None => warnings5
    end in
  let warnings7 :=
    match Partial.employees data with
    | Some n =>
        pushIf (negb (n =? 0) && (n >? 10000))
               (String.append "Employee count "
                  (String.append (pretty n) " seems unusually high")) warnings6
    | None => warnings6
    end in
  match errors4 with
  | [] =>
      let businessListing :=
        {| Listing.title := orElse (Partial.title data) "";
           Listing.bizBuySellId := orElse (Partial.bizBuySellId data) "";
           Listing.location := orElse (Partial.location data) "";
           Listing.industry := orElse (Partial.industry data) "other";
           Listing.description := orElse (Partial.description data) "";
           Listing.askingPrice := Partial.askingPrice data;
           Listing.revenue := Partial.revenue data;
           Listing.cashFlow := Partial.cashFlow data;
           Listing.employees := Partial.employees data;
           Listing.established := Partial.established data;
           Listing.listingUrl := Partial.listingUrl data |} in
      {| isValid := true; validData := Some businessListing;
         validationErrors := []; validationWarnings := warnings7 |}
  | _ :: _ =>
      {| isValid := false; validData := None;
         validationErrors := errors4; validationWarnings := warnings7 |}
  end.

Definition bump (f : Stats.t -> Stats.t) (p : t) : t :=
  {| seenListingIds := seenListingIds p; stats := f (stats p) |}.

Definition incTotalProcessed (s : Stats.t) : Stats.t :=
  {| Stats.totalProcessed := S (Stats.totalProcessed s);
     Stats.successful := Stats.successful s; Stats.failed := Stats.failed s;
     Stats.warnings := Stats.warnings s; Stats.duplicates := Stats.duplicates s |}.
Definition incSuccessful (s : Stats.t) : Stats.t :=
  {| Stats.totalProcessed := Stats.totalProcessed s;
     Stats.successful := S (Stats.successful s); Stats.failed := Stats.failed s;
     Stats.warnings := Stats.warnings s; Stats.duplicates := Stats.duplicates s |}.
Definition incFailed (s : Stats.t) : Stats.t :=
  {| Stats.totalProcessed := Stats.totalProcessed s;
     Stats.successful := Stats.successful s; Stats.failed := S (Stats.failed s);
     Stats.warnings := Stats.warnings s; Stats.duplicates := Stats.duplicates s |}.
Definition incWarnings (s : Stats.t) : Stats.t :=
  {| Stats.totalProcessed := Stats.totalProcessed s;
     Stats.successful := Stats.successful s; Stats.failed := Stats.failed s;
     Stats.warnings := S (Stats.warnings s); Stats.duplicates := Stats.duplicates s |}.
Definition incDuplicates (s : Stats.t) : Stats.t :=
  {| Stats.totalProcessed := Stats.totalProcessed s;
     Stats.successful := Stats.successful s; Stats.failed := Stats.failed s;
     Stats.warnings := Stats.warnings s; Stats.duplicates := S (Stats.duplicates s) |}.

(** [this.seenListingIds.has(id)] *)
Definition has (p : t) (id : string) : bool := bool_decide (id ∈ seenListingIds p).

(** [this.seenListingIds.add(id)] *)
Definition add (id : string) (p : t) : t :=
  {| seenListingIds := {[ id ]} ∪ seenListingIds p; stats := stats p |}.

Definition processListing (currentYear : Z) (p : t) (rawData : Raw.t) : t * Result.t :=
  let p := bump incTotalProcessed p in
  let isDuplicate :=
    match Raw.listingId rawData with
    | Some id => truthy id && has p id
    | None => false
    end in
  if isDuplicate then
    (bump incDuplicates p,
     {| Result.success := false; Result.data := None;
        Result.errors := ["Duplicate listing ID detected"];
        Result.warnings := []; Result.originalData := rawData |})
  else
    let cleanedData := cleanRawData currentYear rawData in
    let validationResult := validateData currentYear cleanedData in
    let '(p, success, data, errors) :=
      match validData validationResult with
      | Some d =>
          let p := bump incSuccessful p in
          let p := if truthy (Listing.bizBuySellId d)
                   then add (Listing.bizBuySellId d) p else p in
          (p, true, Some d, [])
      | None =>
          (bump incFailed p, false, None, validationErrors validationResult)
      end in
    let warnings := validationWarnings validationResult in
    let p := match warnings with [] => p | _ :: _ => bump incWarnings p end in
    (p, {| Result.success := success; Result.data := data; Result.errors := errors;
           Result.warnings := warnings; Result.originalData := rawData |}).

Definition getStats (p : t) : Stats.t := stats p.

Definition resetStats (p : t) : t := create.

Record Batch : Type := {
  successfulListings : list Listing.t;
  failedResults : list Result.t;
  batchStats : Stats.t
}.

Fixpoint processBatchFrom (currentYear : Z) (p : t) (rawListings : list Raw.t)
    (successful : list Listing.t) (failed : list Result.t)
    : t * list Listing.t * list Result.t :=
  match rawListings with
  | [] => (p, successful, failed)
  | rawListing :: rest =>
      let '(p', result) := processListing currentYear p rawListing in
      match Result.success result, Result.data result with
      | true, Some d => processBatchFrom currentYear p' rest (successful ++ [d]) failed
      | _, _ => processBatchFrom currentYear p' rest successful (failed ++ [result])
      end
  end.

Definition processBatch (currentYear : Z) (p : t) (rawListings : list Raw.t)
    : t * Batch :=
  let '(p', successful, failed) := processBatchFrom currentYear p rawListings [] [] in
  (p', {| successfulListings := successful; failedResults := failed;
          batchStats := getStats p' |}).

End DataProcessor.

(* ===================================================================== *)
(** ** DatabaseJobQueue *)
(* ===================================================================== *)

Module DatabaseJobQueue.

Inductive Priority : Type := LOW | NORMAL | HIGH.
Inductive Status : Type := PENDING | PROCESSING | COMPLETED | FAILED | CANCELLED.

(** A row of the [scrapeJob] table; [filters] is passed through and left out. *)
Record ScrapeJob : Type := {
  id : string;
  priority : Priority;
  maxListings : Z;
  enableWebhooks : bool;
  status : Status;
  progress : Z;
  listingsFound : option Z;
  duration : option Z;
  error : option string;
  createdAt : Z;
  startedAt : option Z;
  completedAt : option Z;
  updatedAt : Z
}.

Record JobResult : Type := {
  success : bool;
  resultListingsFound : Z;
  resultDuration : Z;
  resultError : option string
}.

(** Events emitted on the queue's [EventEmitter].  The server-sent updates
    and the webhook events, which do not feed back into the queue, are not
    recorded. *)
Inductive Emitted : Type :=
  | processJob (job : string)
  | jobCompleted (job : string)
  | jobCancelled (job : string).

(** The queue object together with the table it works on. *)
Record t : Type := {
  table : list ScrapeJob;
  processing : bool;
  maxConcurrentJobs : Z;
  currentJobs : gset string;
  emitted : list Emitted
}.

Definition create (maxConcurrentJobs : Z) : t :=
  {| table := []; processing := false; maxConcurrentJobs := maxConcurrentJobs;
     currentJobs := ∅; emitted := [] |}.

(** Modelled from the spec: the order of the [priority] column, which the
    database takes from the declaration of the priority enum in the Prisma
    schema; the schema is not among the sources.  The spec (and the comment
    at the [orderBy]) give HIGH > NORMAL > LOW. *)
Definition priorityRank (p : Priority) : Z :=
  match p with LOW => 0 | NORMAL => 1 | HIGH => 2 end.

Definition Status_eqb (a b : Status) : bool :=
  match a, b with
  | PENDING, PENDING | PROCESSING, PROCESSING | COMPLETED, COMPLETED
  | FAILED, FAILED | CANCELLED, CANCELLED => true
  | _, _ => false
  end.

(** [a] sorts strictly before [b] under
    [orderBy: [{ priority: 'desc' }, { createdAt: 'asc' }]] *)
Definition sortsBefore (a b : ScrapeJob) : bool :=
  (priorityRank (priority b) <? priorityRank (priority a))
  || ((priorityRank (priority a) =? priorityRank (priority b))
      && (createdAt a <? createdAt b)).

(** [findFirst({ where: { status: 'PENDING' }, orderBy: ... })]; among rows
    that the ordering does not separate, the one inserted first is taken. *)
Fixpoint findFirstPending (rows : list ScrapeJob) : option ScrapeJob :=
  match rows with
  | [] => None
  | r :: rest =>
      match findFirstPending rest with
      | None => if Status_eqb (status r) PENDING then Some r else None
      | Some best =>
          if Status_eqb (status r) PENDING && negb (sortsBefore best r)
          then Some r else Some best
      end
  end.

(** [update({ where: { id }, data })] *)
Definition update (i : string) (f : ScrapeJob -> ScrapeJob) (rows : list ScrapeJob)
    : list ScrapeJob :=
  List.map (fun r => if String.eqb (id r) i then f r else r) rows.

Definition findUnique (i : string) (rows : list ScrapeJob) : option ScrapeJob :=
  List.find (fun r => String.eqb (id r) i) rows.

Definition markProcessing (now : Z) (r : ScrapeJob) : ScrapeJob :=
  {| id := id r; priority := priority r; maxListings := maxListings r;
     enableWebhooks := enableWebhooks r; status := PROCESSING;
     progress := progress r; listingsFound := listingsFound r;
     duration := duration r; error := error r; createdAt := createdAt r;
     startedAt := Some now; completedAt := completedAt r; updatedAt := now |}.

(** One run of [processQueue]; [now] is the clock at the update. *)
Definition processQueue (q : t) (now : Z) : t :=
  if processing q || (Z.of_nat (size (currentJobs q)) >=? maxConcurrentJobs q)
  then q
  else
    match findFirstPending (table q) with
    | None => q
    | Some nextJob =>
        {| table := update (id nextJob) (markProcessing now) (table q);
           processing := false;
           maxConcurrentJobs := maxConcurrentJobs q;
           currentJobs := {[ id nextJob ]} ∪ currentJobs q;
           emitted := emitted q ++ [processJob (id nextJob)] |}
    end.

(** [addJob]: [newId] is the identifier given by the database to the row. *)
Definition addJob (q : t) (newId : string) (now : Z) (priority : option Priority)
    (maxListings : option Z) (enableWebhooks : option bool) : t * string :=
  let job :=
    {| id := newId;
       priority := match priority with Some p => p | None => NORMAL end;
       maxListings := match maxListings with
                      | Some m => if m =? 0 then 1000 else m
                      | None => 1000
                      end;
       enableWebhooks := match enableWebhooks with Some b => b | None => false end;
       status := PENDING; progress := 0; listingsFound := None; duration := None;
       error := None; createdAt := now; startedAt := None; completedAt := None;
       updatedAt := now |} in
  let q1 :=
    {| table := table q ++ [job]; processing := processing q;
       maxConcurrentJobs := maxConcurrentJobs q; currentJobs := currentJobs q;
       emitted := emitted q |} in
  (processQueue q1 now, newId).

Definition updateJobProgress (q : t) (i : string) (p : Z) (now : Z) : t :=
  {| table :=
       update i (fun r =>
         {| id := id r; priority := priority r; maxListings := maxListings r;
            enableWebhooks := enableWebhooks r; status := status r;
            progress := p; listingsFound := listingsFound r;
            duration := duration r; error := error r; createdAt := createdAt r;
            startedAt := startedAt r; completedAt := completedAt r;
            updatedAt := now |}) (table q);
     processing := processing q; maxConcurrentJobs := maxConcurrentJobs q;
     currentJobs := currentJobs q; emitted := emitted q |}.

Definition completeJob (q : t) (i : string) (result : JobResult) (now : Z) : t :=
  match findUnique i (table q) with
  | None => q   (* the update throws; the error is logged *)
  | Some _ =>
      let q1 :=
        {| table :=
             update i (fun r =>
               {| id := id r; priority := priority r; maxListings := maxListings r;
                  enableWebhooks := enableWebhooks r;
                  status := if success result then COMPLETED else FAILED;
                  progress := if success result then 100 else 0;
                  listingsFound := Some (resultListingsFound result);
                  duration := Some (resultDuration result);
                  error := resultError result; createdAt := createdAt r;
                  startedAt := startedAt r; completedAt := Some now;
                  updatedAt := now |}) (table q);
           processing := processing q; maxConcurrentJobs := maxConcurrentJobs q;
           currentJobs := currentJobs q ∖ {[ i ]};
           emitted := emitted q ++ [jobCompleted i] |} in
      processQueue q1 now
  end.

Definition cancelJob (q : t) (i : string) (now : Z) : t * bool :=
  match findUnique i (table q) with
  | None => (q, false)
  | Some job =>
      if Status_eqb (status job) COMPLETED || Status_eqb (status job) FAILED
      then (q, false)
      else
        ({| table :=
              update i (fun r =>
                {| id := id r; priority := priority r; maxListings := maxListings r;
                   enableWebhooks := enableWebhooks r; status := CANCELLED;
                   progress := progress r; listingsFound := listingsFound r;
                   duration := duration r; error := error r;
                   createdAt := createdAt r; startedAt := startedAt r;
                   completedAt := completedAt r; updatedAt := now |}) (table q);
            processing := processing q; maxConcurrentJobs := maxConcurrentJobs q;
            currentJobs := currentJobs q ∖ {[ i ]};
            emitted := emitted q ++ [jobCancelled i] |}, true)
  end.

Definition stallTimeout : Z := 10 * 60 * 1000.

Definition stalledError : string := "Job timed out (stalled for more than 10 minutes)".

Definition isStalled (stalledThreshold : Z) (r : ScrapeJob) : bool :=
  Status_eqb (status r) PROCESSING
  && match startedAt r with
     | Some s => s <? stalledThreshold
     | None => false
     end.

(** [cleanup]: the [updateMany] over the stalled rows. *)
Definition cleanup (q : t) (now : Z) : t :=
  let stalledThreshold := now - stallTimeout in
  {| table :=
       List.map (fun r =>
         if isStalled stalledThreshold r
         then {| id := id r; priority := priority r; maxListings := maxListings r;
                 enableWebhooks := enableWebhooks r; status := FAILED;
                 progress := progress r; listingsFound := listingsFound r;
                 duration := duration r; error := Some stalledError;
                 createdAt := createdAt r; startedAt := startedAt r;
                 completedAt := completedAt r; updatedAt := now |}
         else r) (table q);
     processing := processing q; maxConcurrentJobs := maxConcurrentJobs q;
     currentJobs := currentJobs q; emitted := emitted q |}.

(** The jobs handed to the processor, in the order of their dispatch. *)
Definition dispatched (q : t) : list string :=
  flat_map (fun e => match e with processJob j => [j] | _ => [] end) (emitted q).

Definition countStatus (s : Status) (q : t) : nat :=
  List.length (List.filter (fun r => Status_eqb (status r) s) (table q)).

(** Every job in PROCESSING is in the set of current jobs. *)
Definition tracked (q : t) : Prop :=
  forall r, In r (table q) -> status r = PROCESSING -> id r ∈ currentJobs q.

(** The states of a queue that starts on an empty table and is driven
    through its methods; the database gives each new row a fresh id. *)
Inductive reachable : t -> Prop :=
  | reach_create (maxConcurrentJobs : Z) : reachable (create maxConcurrentJobs)
  | reach_addJob q newId now p m w :
      reachable q -> ~ In newId (List.map id (table q)) ->
      reachable (fst (addJob q newId now p m w))
  | reach_processQueue q now : reachable q -> reachable (processQueue q now)
  | reach_updateJobProgress q i p now :
      reachable q -> reachable (updateJobProgress q i p now)
  | reach_completeJob q i result now :
      reachable q -> reachable (completeJob q i result now)
  | reach_cancelJob q i now : reachable q -> reachable (fst (cancelJob q i now))
  | reach_cleanup q now : reachable q -> reachable (cleanup q now).

End DatabaseJobQueue.

(* ===================================================================== *)
(** ** WebhookManager (webhook-manager.ts) *)
(* ===================================================================== *)

Module WebhookManager.

Record WebhookEndpoint : Type := {
  id : string;
  url : string;
  events : list string;
  secret : string;
  enabled : bool;
  lastDelivery : option Z;
  lastStatus : option Z;
  failureCount : Z
}.

(** The object built by [createDelivery] and serialised into the body;
    [data] is the event's data, already in serialised form. *)
Record Payload : Type := {
  payloadId : string;
  type : string;
  data : string;
  timestamp : Z;
  source : string
}.

Inductive DeliveryStatus : Type := pending | delivered | failed | retry.

Record WebhookDelivery : Type := {
  deliveryId : string;
  endpointId : string;
  event : string;
  payload : Payload;
  signature : string;
  status : DeliveryStatus;
  attempts : Z;
  lastAttempt : option Z;
  nextRetry : option Z;
  responseStatus : option Z;
  error : option string;
  createdAt : Z
}.

Record WebhookEvent : Type := {
  eventType : string;
  eventData : string;
  eventTimestamp : Z;
  eventSource : string;
  eventId : option string
}.

(** The request handed to [fetch]. *)
Record Request : Type := {
  requestUrl : string;
  method : string;
  headers : list (string * string);
  body : string
}.

(** What [fetch] does: it resolves with a response or rejects. *)
Inductive Fetched : Type :=
  | Response (httpStatus : Z) (statusText : string)
  | Rejects (message : string).

Record t : Type := {
  endpoints : gmap string WebhookEndpoint;
  deliveryQueue : list WebhookDelivery;
  retryQueue : list WebhookDelivery
}.

Definition MAX_RETRY_ATTEMPTS : Z := 5.
Definition RETRY_DELAYS : list Z := [5000; 30000; 120000; 600000; 3600000].
Definition DELIVERY_TIMEOUT : Z := 30000.

Definition header (name : string) (r : Request) : option string :=
  option_map snd (List.find (fun h => String.eqb (fst h) name) (headers r)).

Section Crypto.
(** [createHmac('sha256', secret).update(payload).digest('hex')] of the
      runtime's crypto module, and [JSON.stringify] on payload objects. *)
Variable hmacSha256Hex : string -> string -> string.
Variable stringify : Payload -> string.
(** the network, as seen through [fetch] *)
Variable fetch : Request -> Fetched.

Definition generateSignature (payload secret : string) : string :=
    String.append "sha256=" (hmacSha256Hex secret payload).

Definition validateSignature (payload signature secret : string) : bool :=
    let expectedSignature := generateSignature payload secret in
    String.eqb signature expectedSignature.

Definition webhookRequest (endpoint : WebhookEndpoint) (delivery : WebhookDelivery)
      : Request :=
    let payload := stringify (payload delivery) in
    let signature := generateSignature payload (secret endpoint) in
    {| requestUrl := url endpoint;
       method := "POST";
       headers :=
         [ ("Content-Type", "application/json");
           ("User-Agent", "BizBuySell-Scraper-Webhook/1.0");
           ("X-Webhook-Signature-256", signature);
           ("X-Webhook-Delivery", deliveryId delivery);
           ("X-Webhook-Event", event delivery);
           ("X-Webhook-Timestamp", pretty (createdAt delivery)) ];
       body := payload |}.

Definition sendWebhook (endpoint : WebhookEndpoint) (delivery : WebhookDelivery)
      : Fetched :=
    fetch (webhookRequest endpoint delivery).

Definition createDelivery (newId : string) (now : Z) (endpoint : WebhookEndpoint)
      (event : WebhookEvent) (eventId : string) (timestamp : Z) : WebhookDelivery :=
    let payload :=
      {| payloadId := eventId; type := eventType event; data := eventData event;
         timestamp := timestamp; source := eventSource event |} in
    {| deliveryId := newId;
       endpointId := id endpoint;
       event := eventType event;
       payload := payload;
       signature := generateSignature (stringify payload) (secret endpoint);
       status := pending;
       attempts := 0;
       lastAttempt := None; nextRetry := None; responseStatus := None;
       error := None;
       createdAt := now |}.

Definition ok (httpStatus : Z) : bool := (200 <=? httpStatus) && (httpStatus <=? 299).

(** The endpoint objects are mutated in place: the changed object is the
      one stored under the key it was looked up with. *)
Definition setEndpoint (key : string) (e : WebhookEndpoint) (m : t) : t :=
    {| endpoints := <[ key := e ]> (endpoints m);
       deliveryQueue := deliveryQueue m; retryQueue := retryQueue m |}.

(** The [catch] block of [attemptDelivery]; [message] is the message of
      the error caught. *)
Definition deliveryFailed (m : t) (endpoint : WebhookEndpoint)
      (delivery : WebhookDelivery) (message : string) (now : Z)
      : t * WebhookDelivery :=
    let attempts' := attempts delivery + 1 in
    let failureCount' := failureCount endpoint + 1 in
    if attempts' <? MAX_RETRY_ATTEMPTS then
      let delivery' :=
        {| deliveryId := deliveryId delivery; endpointId := endpointId delivery;
           event := event delivery; payload := payload delivery;
           signature := signature delivery; status := retry;
           attempts := attempts'; lastAttempt := Some now;
           nextRetry :=
             (if 0 <=? attempts' - 1
              then option_map (Z.add now) (RETRY_DELAYS !! Z.to_nat (attempts' - 1))
              else None);
           responseStatus := None; error := Some message;
           createdAt := createdAt delivery |} in
      let endpoint' :=
        {| id := id endpoint; url := url endpoint; events := events endpoint;
           secret := secret endpoint; enabled := enabled endpoint;
           lastDelivery := lastDelivery endpoint; lastStatus := lastStatus endpoint;
           failureCount := failureCount' |} in
      ({| endpoints := <[ endpointId delivery := endpoint' ]> (endpoints m);
          deliveryQueue := deliveryQueue m;
          retryQueue := retryQueue m ++ [delivery'] |}, delivery')
    else
      let delivery' :=
        {| deliveryId := deliveryId delivery; endpointId := endpointId delivery;
           event := event delivery; payload := payload delivery;
           signature := signature delivery; status := failed;
           attempts := attempts'; lastAttempt := Some now;
           nextRetry := nextRetry delivery;
           responseStatus := None; error := Some message;
           createdAt := createdAt delivery |} in
      let endpoint' :=
        {| id := id endpoint; url := url endpoint; events := events endpoint;
           secret := secret endpoint;
           enabled := if failureCount' >? 10 then false else enabled endpoint;
           lastDelivery := lastDelivery endpoint; lastStatus := lastStatus endpoint;
           failureCount := failureCount' |} in
      (setEndpoint (endpointId delivery) endpoint' m, delivery').

Definition attemptDelivery (m : t) (delivery : WebhookDelivery) (now : Z)
      : t * WebhookDelivery :=
    match endpoints m !! endpointId delivery with
    | None => (m, delivery)
    | Some endpoint =>
        if negb (enabled endpoint) then (m, delivery)
        else
          match sendWebhook endpoint delivery with
          | Response httpStatus statusText =>
              if ok httpStatus then
                let delivery' :=
                  {| deliveryId := deliveryId delivery;
                     endpointId := endpointId delivery;
                     event := event delivery; payload := payload delivery;
                     signature := signature delivery; status := delivered;
                     attempts := attempts delivery; lastAttempt := Some now;
                     nextRetry := nextRetry delivery;
                     responseStatus := Some httpStatus; error := error delivery;
                     createdAt := createdAt delivery |} in
                let endpoint' :=
                  {| id := id endpoint; url := url endpoint;
                     events := events endpoint; secret := secret endpoint;
                     enabled := enabled endpoint; lastDelivery := Some now;
                     lastStatus := Some httpStatus; failureCount := 0 |} in
                (setEndpoint (endpointId delivery) endpoint' m, delivery')
              else
                deliveryFailed m endpoint delivery
                  (String.append "HTTP "
                     (String.append (pretty httpStatus)
                        (String.append ": " statusText))) now
          | Rejects message => deliveryFailed m endpoint delivery message now
          end
    end.

(** The [while] loop of [processDeliveryQueue]. *)
Fixpoint drain (m : t) (queue : list WebhookDelivery) (now : Z) : t :=
    match queue with
    | [] => m
    | delivery :: rest => drain (fst (attemptDelivery m delivery now)) rest now
    end.

Definition processDeliveryQueue (m : t) (now : Z) : t :=
    let queue := deliveryQueue m in
    drain {| endpoints := endpoints m; deliveryQueue := [];
             retryQueue := retryQueue m |} queue now.
End Crypto.

End WebhookManager.

(* ===================================================================== *)
(** ** API keys: permissions and rate limits (src/lib/auth) *)
(* ===================================================================== *)

Module ApiAuthService.

Record RateLimitConfig : Type := {
  windowMs : Z;
  maxRequests : Z
}.

(** The table of limits by tier, with its own keys only. *)
Definition RATE_LIMITS : list (string * RateLimitConfig) :=
  [ ("basic", {| windowMs := 60 * 1000; maxRequests := 100 |});
    ("premium", {| windowMs := 60 * 1000; maxRequests := 1000 |});
    ("enterprise", {| windowMs := 60 * 1000; maxRequests := 10000 |}) ].

(** [RATE_LIMITS[tier]] *)
Definition rateLimitsAt (tier : string) : option RateLimitConfig :=
  option_map snd (List.find (fun entry => String.eqb (fst entry) tier) RATE_LIMITS).

(** The fields of the context that the service reads. *)
Record AuthContext : Type := {
  permissions : gset string;
  rateLimitTier : string;
  clientId : string
}.

Record Window : Type := {
  count : Z;
  resetTime : Z
}.

(** [rateLimitStore] *)
Definition t : Type := gmap string Window.

Definition create : t := ∅.

(** The template string [clientId:endpoint]. *)
Definition storeKey (authContext : AuthContext) (endpoint : string) : string :=
  String.append (clientId authContext) (String.append ":" endpoint).

Definition checkRateLimit (store : t) (authContext : AuthContext) (endpoint : string)
    (now : Z) : bool * t :=
  match rateLimitsAt (rateLimitTier authContext) with
  | None => (false, store)
  | Some config =>
      let key := storeKey authContext endpoint in
      let windowStart := now - windowMs config in
      let newWindow :=
        (true, <[ key := {| count := 1; resetTime := now + windowMs config |} ]> store) in
      match store !! key with
      | None => newWindow
      | Some existing =>
          if resetTime existing <=? windowStart then newWindow
          else if count existing >=? maxRequests config then (false, store)
          else (true, <[ key := {| count := count existing + 1;
                                   resetTime := resetTime existing |} ]> store)
      end
  end.

Record RateLimitInfo : Type := {
  limit : Z;
  remaining : Z;
  infoResetTime : Z;
  retryAfter : option Z
}.

(** [Math.ceil(x / 1000)] on an integer [x] *)
Definition ceilDiv1000 (x : Z) : Z := - ((- x) / 1000).

(** The result is [inl] where the source throws: reading [maxRequests] of
    the undefined configuration of an unknown tier. *)
Definition getRateLimitInfo (store : t) (authContext : AuthContext) (endpoint : string)
    (now : Z) : RetryHandler.JsError + RateLimitInfo :=
  match rateLimitsAt (rateLimitTier authContext) with
  | None =>
      inl {| RetryHandler.message :=
               "Cannot read properties of undefined (reading 'maxRequests')" |}
  | Some config =>
      let key := storeKey authContext endpoint in
      let existing := store !! key in
      inr {| limit := maxRequests config;
             remaining :=
               match existing with
               | Some existing => Z.max 0 (maxRequests config - count existing)
               | None => maxRequests config
               end;
             infoResetTime :=
               match existing with
               | Some existing =>
                   if resetTime existing =? 0 then now + windowMs config
                   else resetTime existing
               | None => now + windowMs config
               end;
             retryAfter :=
               match existing with
               | Some existing =>
                   if count existing >=? maxRequests config
                   then Some (ceilDiv1000 (resetTime existing - now))
                   else None
               | None => None
               end |}
  end.

Definition hasPermission (authContext : AuthContext) (permission : string) : bool :=
  bool_decide (permission ∈ permissions authContext).

Definition requirePermission (authContext : AuthContext) (permission : string)
    : RetryHandler.JsError + unit :=
  if negb (hasPermission authContext permission) then
    inl {| RetryHandler.message :=
             String.append "Insufficient permissions: "
               (String.append permission " required") |}
  else inr tt.

(** Entries whose reset time has come are deleted. *)
Definition cleanup (store : t) (now : Z) : t :=
  filter (fun entry => ~ (resetTime (snd entry) <= now)) store.

End ApiAuthService.

Module AuthMiddleware.

Record AuthMiddlewareOptions : Type := {
  required : bool;
  permissions : list string;
  rateLimited : bool;
  skipPaths : list string
}.

Definition defaultOptions : AuthMiddlewareOptions :=
  {| required := true; permissions := []; rateLimited := true; skipPaths := [] |}.

(** A JSON response: its status, the [error] and [message] fields of its
    body, and the headers set on it.  The further fields of the bodies
    ([required] and [granted] of the 403 response, [retryAfter] of the 429
    response) are not represented. *)
Record NextResponse : Type := {
  status : Z;
  error : string;
  message : string;
  headers : list (string * string)
}.

Record Authenticated : Type := {
  authContext : option ApiAuthService.AuthContext;
  response : option NextResponse;
  (** the value left in the request's [X-Internal-RateLimit-Info] header *)
  internalRateLimitInfo : option ApiAuthService.RateLimitInfo
}.

Definition rateLimitHeaders (info : ApiAuthService.RateLimitInfo)
    : list (string * string) :=
  ([ ("X-RateLimit-Limit", pretty (ApiAuthService.limit info));
     ("X-RateLimit-Remaining", pretty (ApiAuthService.remaining info));
     ("X-RateLimit-Reset", pretty (ApiAuthService.infoResetTime info)) ]
   ++ match ApiAuthService.retryAfter info with
      | Some seconds =>
          if seconds =? 0 then [] else [("Retry-After", pretty seconds)]
      | None => []
      end)%list.

(** [authenticated] is what [apiAuthService.authenticate(request)] resolves
    to; [now] and [now'] are the clock readings of [checkRateLimit] and of
    [getRateLimitInfo].  The result is [inl] where the call rejects. *)
Definition authenticate (store : ApiAuthService.t) (pathname : string)
    (authenticated : option ApiAuthService.AuthContext)
    (options : AuthMiddlewareOptions) (now now' : Z)
    : RetryHandler.JsError + (Authenticated * ApiAuthService.t) :=
  if existsb (fun path => Js.startsWith pathname path) (skipPaths options) then
    inr ({| authContext := None; response := None; internalRateLimitInfo := None |},
         store)
  else
    match authenticated with
    | None =>
        if required options then
          inr ({| authContext := None;
                  response :=
                    Some {| status := 401;
                            error := "Authentication required";
                            message := "Valid API key required. Include X-API-Key header.";
                            headers := [] |};
                  internalRateLimitInfo := None |}, store)
        else
          inr ({| authContext := None; response := None;
                  internalRateLimitInfo := None |}, store)
    | Some context =>
        match List.find (fun permission =>
                           negb (ApiAuthService.hasPermission context permission))
                        (permissions options) with
        | Some permission =>
            inr ({| authContext := Some context;
                    response :=
                      Some {| status := 403;
                              error := "Insufficient permissions";
                              message := String.append "Permission required: " permission;
                              headers := [] |};
                    internalRateLimitInfo := None |}, store)
        | None =>
            if rateLimited options then
              let '(allowed, store') :=
                ApiAuthService.checkRateLimit store context pathname now in
              match ApiAuthService.getRateLimitInfo store' context pathname now' with
              | inl thrown => inl thrown
              | inr rateLimitInfo =>
                  if negb allowed then
                    inr ({| authContext := Some context;
                            response :=
                              Some {| status := 429;
                                      error := "Rate limit exceeded";
                                      message :=
                                        String.append "Too many requests. Limit: "
                                          (String.append
                                             (pretty (ApiAuthService.limit rateLimitInfo))
                                             " per minute.");
                                      headers := rateLimitHeaders rateLimitInfo |};
                            internalRateLimitInfo := None |}, store')
                  else
                    inr ({| authContext := Some context; response := None;
                            internalRateLimitInfo := Some rateLimitInfo |}, store')
              end
            else
              inr ({| authContext := Some context; response := None;
                      internalRateLimitInfo := None |}, store)
        end
    end.

(** [checkPermissions] of the route helpers *)
Definition checkPermissions (authContext : option ApiAuthService.AuthContext)
    (permissions : list string) : bool :=
  match authContext with
  | None => false
  | Some context => forallb (ApiAuthService.hasPermission context) permissions
  end.

(** The [forEach] of [requirePermissions]: the first permission that is
    missing throws. *)
Fixpoint requireEach (context : ApiAuthService.AuthContext) (permissions : list string)
    : RetryHandler.JsError + unit :=
  match permissions with
  | [] => inr tt
  | permission :: rest =>
      match ApiAuthService.requirePermission context permission with
      | inl thrown => inl thrown
      | inr _ => requireEach context rest
      end
  end.

Definition requirePermissions (authContext : option ApiAuthService.AuthContext)
    (permissions : list string) : RetryHandler.JsError + unit :=
  match authContext with
  | None => inl {| RetryHandler.message := "Authentication required" |}
  | Some context => requireEach context permissions
  end.

End AuthMiddleware.

(* ===================================================================== *)
(** ** Server-sent events: clients and topics *)
(* ===================================================================== *)

Module SSEManager.

(** The values that the manager puts into the [data] of its own messages. *)
Inductive Json : Type :=
  | JString (s : string)
  | JNumber (n : Z)
  | JObject (fields : list (string * Json)).

Record SSEMessage : Type := {
  messageId : option string;
  event : option string;
  data : string + Json;
  retry : option Z
}.

Module Client.
(** The fields of a client that the functions below use; [enqueued] is what
    the controller of the client's stream has been given, oldest first. *)
Record t : Type := {
  id : string;
  subscriptions : gset string;
  enqueued : list string
}.
End Client.

Record t : Type := {
  clients : gmap string Client.t;
  (** topic -> client ids *)
  subscriptions : gmap string (gset string)
}.

Definition create : t := {| clients := ∅; subscriptions := ∅ |}.

(** [s.split('\n')] *)
Fixpoint splitLines (s : string) : list string :=
  match s with
  | EmptyString => [EmptyString]
  | String c rest =>
      if Ascii.eqb c "010"%char then EmptyString :: splitLines rest
      else match splitLines rest with
           | line :: lines => String c line :: lines
           | [] => [String c EmptyString]
           end
  end.

Section Streams.
(** [JSON.stringify] *)
Variable stringify : Json -> string.
(** whether [controller.enqueue] of the client's stream throws at the time
      of the call; within one call of a method of the manager no stream is
      given more than one text *)
Variable enqueueThrows : string -> bool.

Definition newline : string := String "010"%char EmptyString.

Definition formatSSEMessage (message : SSEMessage) : string :=
    let sseString := "" in
    let sseString :=
      match messageId message with
      | Some i =>
          if Js.truthy i
          then String.append sseString (String.append "id: " (String.append i newline))
          else sseString
      | None => sseString
      end in
    let sseString :=
      match event message with
      | Some e =>
          if Js.truthy e
          then String.append sseString (String.append "event: " (String.append e newline))
          else sseString
      | None => sseString
      end in
    let sseString :=
      match retry message with
      | Some r =>
          if r =? 0 then sseString
          else String.append sseString
                 (String.append "retry: " (String.append (pretty r) newline))
      | None => sseString
      end in
    let dataString :=
      match data message with
      | inl text => text
      | inr value => stringify value
      end in
    let sseString :=
      fold_left (fun sseString line =>
                   String.append sseString
                     (String.append "data: " (String.append line newline)))
                (splitLines dataString) sseString in
    String.append sseString newline.

(** One round of the loop of [handleClientDisconnect] and the body of
    [unsubscribe] on the index: the client leaves the set of the topic, and
    the topic leaves the index when its set has become empty. *)
Definition removeSubscriber (clientId topic : string)
      (index : gmap string (gset string)) : gmap string (gset string) :=
    match index !! topic with
    | None => index
    | Some topicSubscribers =>
        let topicSubscribers := topicSubscribers ∖ {[ clientId ]} in
        if bool_decide (size topicSubscribers = 0%nat) then delete topic index
        else <[ topic := topicSubscribers ]> index
    end.

Definition handleClientDisconnect (m : t) (clientId : string) : t :=
    match clients m !! clientId with
    | None => m
    | Some client =>
        {| clients := delete clientId (clients m);
           subscriptions :=
             set_fold (removeSubscriber clientId) (subscriptions m)
               (Client.subscriptions client) |}
    end.

Definition sendToClient (m : t) (clientId : string) (message : SSEMessage) : t :=
    match clients m !! clientId with
    | None => m
    | Some client =>
        if enqueueThrows clientId then handleClientDisconnect m clientId
        else
          {| clients :=
               <[ clientId :=
                    {| Client.id := Client.id client;
                       Client.subscriptions := Client.subscriptions client;
                       Client.enqueued :=
                         (Client.enqueued client ++ [formatSSEMessage message])%list |} ]>
                 (clients m);
             subscriptions := subscriptions m |}
    end.

(** The [start] callback of the stream made by [createConnection];
    [clientId] is the generated identifier. *)
Definition createConnection (m : t) (clientId : string) (now : Z) : t :=
    let client :=
      {| Client.id := clientId; Client.subscriptions := ∅; Client.enqueued := [] |} in
    sendToClient
      {| clients := <[ clientId := client ]> (clients m);
         subscriptions := subscriptions m |}
      clientId
      {| messageId := None; event := Some "connected";
         data := inr (JObject [ ("clientId", JString clientId);
                                ("timestamp", JNumber now);
                                ("message", JString "Connected to real-time updates") ]);
         retry := None |}.

Definition subscribe (m : t) (clientId topic : string) : t * bool :=
    match clients m !! clientId with
    | None => (m, false)
    | Some client =>
        let client :=
          {| Client.id := Client.id client;
             Client.subscriptions := {[ topic ]} ∪ Client.subscriptions client;
             Client.enqueued := Client.enqueued client |} in
        let index :=
          match subscriptions m !! topic with
          | None => <[ topic := ∅ ]> (subscriptions m)
          | Some _ => subscriptions m
          end in
        let index :=
          match index !! topic with
          | Some topicSubscribers => <[ topic := {[ clientId ]} ∪ topicSubscribers ]> index
          | None => index
          end in
        (sendToClient
           {| clients := <[ clientId := client ]> (clients m); subscriptions := index |}
           clientId
           {| messageId := None; event := Some "subscribed";
              data := inr (JObject [ ("topic", JString topic);
                                     ("message",
                                      JString (String.append "Subscribed to " topic)) ]);
              retry := None |}, true)
    end.

Definition unsubscribe (m : t) (clientId topic : string) : t * bool :=
    match clients m !! clientId with
    | None => (m, false)
    | Some client =>
        let client :=
          {| Client.id := Client.id client;
             Client.subscriptions := Client.subscriptions client ∖ {[ topic ]};
             Client.enqueued := Client.enqueued client |} in
        (sendToClient
           {| clients := <[ clientId := client ]> (clients m);
              subscriptions := removeSubscriber clientId topic (subscriptions m) |}
           clientId
           {| messageId := None; event := Some "unsubscribed";
              data := inr (JObject [ ("topic", JString topic);
                                     ("message",
                                      JString (String.append "Unsubscribed from " topic)) ]);
              retry := None |}, true)
    end.

(** [forEach] over a set of client identifiers, sending to each. *)
Definition sendToEach (m : t) (clientIds : gset string) (message : SSEMessage) : t :=
    set_fold (fun clientId m => sendToClient m clientId message) m clientIds.

Definition broadcast (m : t) (message : SSEMessage) : t :=
    sendToEach m (dom (clients m)) message.

Definition broadcastToTopic (m : t) (topic : string) (message : SSEMessage) : t :=
    match subscriptions m !! topic with
    | None => m
    | Some subscribers => sendToEach m subscribers message
    end.

End Streams.

(** The states that the manager gets into, client identifiers being
    generated afresh.  Whether a stream takes what it is given is a matter
    of the moment: each step has its own [enqueueThrows], so a client that
    was sent to before may throw at a later step. *)
Inductive reachable (stringify : Json -> string) : t -> Prop :=
  | reach_create : reachable stringify create
  | reach_createConnection m enqueueThrows clientId now :
      reachable stringify m -> clients m !! clientId = None ->
      reachable stringify (createConnection stringify enqueueThrows m clientId now)
  | reach_handleClientDisconnect m clientId :
      reachable stringify m -> reachable stringify (handleClientDisconnect m clientId)
  | reach_subscribe m enqueueThrows clientId topic :
      reachable stringify m ->
      reachable stringify (fst (subscribe stringify enqueueThrows m clientId topic))
  | reach_unsubscribe m enqueueThrows clientId topic :
      reachable stringify m ->
      reachable stringify (fst (unsubscribe stringify enqueueThrows m clientId topic))
  | reach_broadcast m enqueueThrows message :
      reachable stringify m ->
      reachable stringify (broadcast stringify enqueueThrows m message)
  | reach_broadcastToTopic m enqueueThrows topic message :
      reachable stringify m ->
      reachable stringify (broadcastToTopic stringify enqueueThrows m topic message).

End SSEManager.

(* ===================================================================== *)
(** ** Operations and scenarios used in the examples *)
(* ===================================================================== *)

(** An operation that throws the same error at each call; the world counts
    the calls. *)
Definition alwaysThrows (msg : string)
    : nat -> (RetryHandler.JsError + unit) * nat :=
  fun calls => (inl {| RetryHandler.message := msg |}, S calls).

(** An operation that throws the given errors in turn and then returns;
    the world is the list of errors still to be thrown. *)
Definition throwsThenReturns
    : list string -> (RetryHandler.JsError + unit) * list string :=
  fun pending =>
    match pending with
    | [] => (inr tt, [])
    | msg :: rest => (inl {| RetryHandler.message := msg |}, rest)
    end.

Definition noJitter : nat -> float := fun _ => 0%float.

(** [Math.pow(x, n)] by repeated multiplication.  The products are exact,
    and so are what [Math.pow] returns, for the powers of 1 and of 2 that
    the examples below use. *)
Definition repeatedProduct (x : float) (n : Z) : float :=
  Nat.iter (Z.to_nat n) (PrimFloat.mul x) 1%float.



(** A breaker with the default threshold 5 and reset timeout 60000 that
    sees five failures at times 0..4. *)
Definition trippedBreaker : RetryHandler.Breaker * list (RetryHandler.Outcome unit) * nat :=
  RetryHandler.executeMany 5 60000 (alwaysThrows "connection refused")
    RetryHandler.createCircuitBreaker
    [(0, 0); (1, 1); (2, 2); (3, 3); (4, 4)] 0%nat.

(** A limiter of one request per 100 ms. *)
Definition onePer100 : RateLimiter.t := RateLimiter.create 1 100.

(** A valid raw record with the given listing id and url. *)
Definition bakery (listingId url : option string) : DataProcessor.Raw.t :=
  {| DataProcessor.Raw.title := Some "Corner Bakery";
     DataProcessor.Raw.askingPrice := Some "$250,000";
     DataProcessor.Raw.revenue := Some "$400,000";
     DataProcessor.Raw.cashFlow := Some "$90,000";
     DataProcessor.Raw.location := Some "Austin, TX";
     DataProcessor.Raw.industry := Some "Restaurant";
     DataProcessor.Raw.description := Some "Neighbourhood bakery with a loyal clientele.";
     DataProcessor.Raw.established := Some "Established 1998";
     DataProcessor.Raw.employees := Some "12";
     DataProcessor.Raw.listingId := listingId;
     DataProcessor.Raw.url := url |}.

Definition keysOf (b : DataProcessor.Batch) : list string :=
  List.map DataProcessor.Listing.bizBuySellId (DataProcessor.successfulListings b).

Definition succeeded : DatabaseJobQueue.JobResult :=
  {| DatabaseJobQueue.success := true; DatabaseJobQueue.resultListingsFound := 10;
     DatabaseJobQueue.resultDuration := 1000; DatabaseJobQueue.resultError := None |}.

Definition submit (q : DatabaseJobQueue.t) (newId : string) (now : Z)
    (p : DatabaseJobQueue.Priority) : DatabaseJobQueue.t :=
  fst (DatabaseJobQueue.addJob q newId now (Some p) None None).

(** Three jobs submitted to an idle queue of cap 1, each job completing
    before the next one is looked at. *)
Definition submittedToIdleQueue : DatabaseJobQueue.t :=
  let q := DatabaseJobQueue.create 1 in
  let q := submit q "job-low" 1 DatabaseJobQueue.LOW in
  let q := submit q "job-high" 2 DatabaseJobQueue.HIGH in
  let q := submit q "job-normal" 3 DatabaseJobQueue.NORMAL in
  let q := DatabaseJobQueue.completeJob q "job-low" succeeded 10 in
  let q := DatabaseJobQueue.completeJob q "job-high" succeeded 20 in
  DatabaseJobQueue.completeJob q "job-normal" succeeded 30.

(** The same three jobs submitted while the only slot is taken by an
    earlier job, so that all three are pending at the next poll. *)
Definition submittedToBusyQueue : DatabaseJobQueue.t :=
  let q := DatabaseJobQueue.create 1 in
  let q := submit q "job-0" 0 DatabaseJobQueue.NORMAL in
  let q := submit q "job-low" 1 DatabaseJobQueue.LOW in
  let q := submit q "job-high" 2 DatabaseJobQueue.HIGH in
  let q := submit q "job-normal" 3 DatabaseJobQueue.NORMAL in
  let q := DatabaseJobQueue.completeJob q "job-0" succeeded 10 in
  let q := DatabaseJobQueue.completeJob q "job-high" succeeded 20 in
  DatabaseJobQueue.completeJob q "job-normal" succeeded 30.

(** A queue of cap 1 whose running job was started at time 0 and has not
    been heard of since, with a second job waiting; the reaper runs just
    after the stall timeout. *)
Definition stalledQueue : DatabaseJobQueue.t :=
  let q := DatabaseJobQueue.create 1 in
  let q := submit q "job-1" 0 DatabaseJobQueue.NORMAL in
  submit q "job-2" 1000 DatabaseJobQueue.NORMAL.

Definition reapedQueue : DatabaseJobQueue.t :=
  DatabaseJobQueue.cleanup stalledQueue 600001.

Definition statusOf (q : DatabaseJobQueue.t) (i : string)
    : option DatabaseJobQueue.Status :=
  option_map DatabaseJobQueue.status
    (DatabaseJobQueue.findUnique i (DatabaseJobQueue.table q)).

Definition errorOf (q : DatabaseJobQueue.t) (i : string) : option string :=
  match DatabaseJobQueue.findUnique i (DatabaseJobQueue.table q) with
  | Some r => DatabaseJobQueue.error r
  | None => None
  end.

(** Three pending jobs and a free slot: the three jobs are submitted while
    an earlier job holds the slot, and that job is then cancelled. *)
Definition threePending : DatabaseJobQueue.t :=
  let q := DatabaseJobQueue.create 1 in
  let q := submit q "job-0" 0 DatabaseJobQueue.NORMAL in
  let q := submit q "job-low" 1 DatabaseJobQueue.LOW in
  let q := submit q "job-high" 2 DatabaseJobQueue.HIGH in
  let q := submit q "job-normal" 3 DatabaseJobQueue.NORMAL in
  fst (DatabaseJobQueue.cancelJob q "job-0" 4).

(** The row of the HIGH job while it waits. *)
Definition highJob : DatabaseJobQueue.ScrapeJob :=
  {| DatabaseJobQueue.id := "job-high";
     DatabaseJobQueue.priority := DatabaseJobQueue.HIGH;
     DatabaseJobQueue.maxListings := 1000;
     DatabaseJobQueue.enableWebhooks := false;
     DatabaseJobQueue.status := DatabaseJobQueue.PENDING;
     DatabaseJobQueue.progress := 0;
     DatabaseJobQueue.listingsFound := None;
     DatabaseJobQueue.duration := None;
     DatabaseJobQueue.error := None;
     DatabaseJobQueue.createdAt := 2;
     DatabaseJobQueue.startedAt := None;
     DatabaseJobQueue.completedAt := None;
     DatabaseJobQueue.updatedAt := 2 |}.

(** Stand-ins for the runtime's HMAC and JSON serialisation in examples. *)
Definition toyHmac (secret payload : string) : string :=
  String.append secret (String.append "/" payload).
Definition toyStringify (p : WebhookManager.Payload) : string :=
  String.append (WebhookManager.payloadId p)
    (String.append ":" (String.append (WebhookManager.type p)
       (String.append ":" (WebhookManager.data p)))).

(** A receiver that answers every request with HTTP 500. *)
Definition alwaysFails : WebhookManager.Request -> WebhookManager.Fetched :=
  fun _ => WebhookManager.Response 500 "Internal Server Error".

(** An enabled endpoint with ten failures counted. *)
Definition shakyEndpoint : WebhookManager.WebhookEndpoint :=
  {| WebhookManager.id := "ep_1";
     WebhookManager.url := "https://hooks.example.com/in";
     WebhookManager.events := ["job.completed"];
     WebhookManager.secret := "s3cret";
     WebhookManager.enabled := true;
     WebhookManager.lastDelivery := None;
     WebhookManager.lastStatus := None;
     WebhookManager.failureCount := 10 |}.

Definition jobCompletedEvent : WebhookManager.WebhookEvent :=
  {| WebhookManager.eventType := "job.completed";
     WebhookManager.eventData := "{}";
     WebhookManager.eventTimestamp := 1000;
     WebhookManager.eventSource := "job-manager";
     WebhookManager.eventId := None |}.

(** A first delivery to that endpoint. *)
Definition freshDelivery : WebhookManager.WebhookDelivery :=
  WebhookManager.createDelivery toyHmac toyStringify "del_1" 1000 shakyEndpoint
    jobCompletedEvent "evt_1" 1000.

Definition shakyManager : WebhookManager.t :=
  {| WebhookManager.endpoints := {[ "ep_1" := shakyEndpoint ]};
     WebhookManager.deliveryQueue := [];
     WebhookManager.retryQueue := [] |}.

(** Two callers of [wait] on the limiter of one request per 100 ms, after a
    request at time 0: both enter at time 50, both are suspended until time
    100, and both resume there. *)
Definition twoConcurrentWaits : RateLimiter.t :=
  let l := fst (RateLimiter.wait onePer100 0) in
  let '(l, _) := RateLimiter.enter l 50 in
  let '(l, _) := RateLimiter.enter l 50 in
  let l := RateLimiter.resume l 50 in
  RateLimiter.resume l 50.

(* ===================================================================== *)
(** ** Observations on runs, used in the statements below *)
(* ===================================================================== *)

(** the calls of [onRetry] in a run of [executeWithRetry], in order *)
Definition onRetryCalls (effects : list RetryHandler.Effect)
    : list (Z * RetryHandler.JsError) :=
  flat_map (fun e => match e with
                     | RetryHandler.OnRetry attempt err => [(attempt, err)]
                     | _ => []
                     end) effects.

(** the calls of [onFinalFailure] in a run *)
Definition onFinalFailureCalls (effects : list RetryHandler.Effect)
    : list (RetryHandler.JsError * Z) :=
  flat_map (fun e => match e with
                     | RetryHandler.OnFinalFailure err attempt => [(err, attempt)]
                     | _ => []
                     end) effects.

(** the outcomes of [executeMany] that threw: the failures of the operation *)
Definition threwCount {T : Type} (outcomes : list (RetryHandler.Outcome T)) : nat :=
  List.length (List.filter (fun o => match o with
                                     | RetryHandler.Threw _ => true
                                     | _ => false
                                     end) outcomes).

(** An operation that follows a script: at each call it consumes one entry,
    returning on [true] and throwing on [false] (and returning once the
    script is used up). *)
Definition scripted : list bool -> (RetryHandler.JsError + unit) * list bool :=
  fun script =>
    match script with
    | [] => (inr tt, [])
    | true :: rest => (inr tt, rest)
    | false :: rest => (inl {| RetryHandler.message := "connection refused" |}, rest)
    end.

(** the characters a cleaned listing id is made of: capitals, digits,
    underscore and hyphen *)
Definition isKeyChar (c : ascii) : bool :=
  Js.between 65 90 c || Js.isDigit c || N.eqb (Js.code c) 95 || N.eqb (Js.code c) 45.

Fixpoint allChars (p : ascii -> bool) (s : string) : bool :=
  match s with
  | EmptyString => true
  | String c s' => p c && allChars p s'
  end.

Definition firstChar (s : string) : option ascii :=
  match s with
  | EmptyString => None
  | String c _ => Some c
  end.

(** A job that was dispatched has a row, and none of its rows is PENDING. *)
Definition settled (q : DatabaseJobQueue.t) : Prop :=
  forall i, In i (DatabaseJobQueue.dispatched q) ->
    In i (List.map DatabaseJobQueue.id (DatabaseJobQueue.table q))
    /\ forall r, In r (DatabaseJobQueue.table q) -> DatabaseJobQueue.id r = i ->
                 DatabaseJobQueue.status r <> DatabaseJobQueue.PENDING.

(** [rows'] has the ids of [rows], and each of its rows comes from a row of
    the same id whose status it keeps, unless it has left PENDING. *)
Definition advances (rows rows' : list DatabaseJobQueue.ScrapeJob) : Prop :=
  List.map DatabaseJobQueue.id rows' = List.map DatabaseJobQueue.id rows
  /\ forall r', In r' rows' ->
       exists r, In r rows /\ DatabaseJobQueue.id r = DatabaseJobQueue.id r'
                 /\ (DatabaseJobQueue.status r' = DatabaseJobQueue.status r
                     \/ DatabaseJobQueue.status r' <> DatabaseJobQueue.PENDING).

(** A receiver that answers every request with HTTP 200. *)
Definition alwaysAccepts : WebhookManager.Request -> WebhookManager.Fetched :=
  fun _ => WebhookManager.Response 200 "OK".

(** The row of the running job of [stalledQueue]. *)
Definition stalledRow : DatabaseJobQueue.ScrapeJob :=
  nth 0 (DatabaseJobQueue.table stalledQueue) highJob.

(** Calls of [checkRateLimit] one after the other, at the given clock
    readings. *)
Fixpoint checkRateLimits (store : ApiAuthService.t)
    (authContext : ApiAuthService.AuthContext) (endpoint : string) (times : list Z)
    : list bool * ApiAuthService.t :=
  match times with
  | [] => ([], store)
  | now :: rest =>
      let '(allowed, store) :=
        ApiAuthService.checkRateLimit store authContext endpoint now in
      let '(alloweds, store) := checkRateLimits store authContext endpoint rest in
      (allowed :: alloweds, store)
  end.

(** A client of the basic tier that may read jobs. *)
Definition basicClient : ApiAuthService.AuthContext :=
  {| ApiAuthService.permissions := {[ "jobs:read" ]};
     ApiAuthService.rateLimitTier := "basic";
     ApiAuthService.clientId := "client-1" |}.

(** The store after that client has used its hundred requests on one path
    in the window opened at time 0. *)
Definition exhaustedStore : ApiAuthService.t :=
  {[ "client-1:/api/jobs" := {| ApiAuthService.count := 100;
                                ApiAuthService.resetTime := 60000 |} ]}.

Definition jobsWriteOptions : AuthMiddleware.AuthMiddlewareOptions :=
  {| AuthMiddleware.required := true;
     AuthMiddleware.permissions := ["jobs:read"; "jobs:create"];
     AuthMiddleware.rateLimited := true;
     AuthMiddleware.skipPaths := ["/api/docs"] |}.

(** What a round of [removeSubscriber] leaves of the entry of its topic. *)
Definition removeEntry (clientId : string) (entry : option (gset string))
    : option (gset string) :=
  match entry with
  | None => None
  | Some topicSubscribers =>
      if bool_decide (size (topicSubscribers ∖ {[ clientId ]}) = 0%nat) then None
      else Some (topicSubscribers ∖ {[ clientId ]})
  end.

(** The client has the topic among its own subscriptions. *)
Definition clientHas (m : SSEManager.t) (clientId topic : string) : Prop :=
  exists client, SSEManager.clients m !! clientId = Some client
                 /\ topic ∈ SSEManager.Client.subscriptions client.

(** The index lists the client under the topic. *)
Definition indexHas (m : SSEManager.t) (topic clientId : string) : Prop :=
  exists subscribers, SSEManager.subscriptions m !! topic = Some subscribers
                      /\ clientId ∈ subscribers.

(** The two views of the subscriptions agree, and the index has no topic
    without a subscriber. *)
Definition consistent (m : SSEManager.t) : Prop :=
  (forall clientId topic, clientHas m clientId topic <-> indexHas m topic clientId)
  /\ (forall topic subscribers,
        SSEManager.subscriptions m !! topic = Some subscribers -> subscribers <> ∅).

(** The client after its stream has taken one more text. *)
Definition delivered (text : string) (client : SSEManager.Client.t)
    : SSEManager.Client.t :=
  {| SSEManager.Client.id := SSEManager.Client.id client;
     SSEManager.Client.subscriptions := SSEManager.Client.subscriptions client;
     SSEManager.Client.enqueued := (SSEManager.Client.enqueued client ++ [text])%list |}.

(** A serialiser that writes every value as an empty object, and streams
    that take whatever they are given. *)
Definition toyJson : SSEManager.Json -> string := fun _ => "{}".
Definition steadyStreams : string -> bool := fun _ => false.

(** Two connected clients, the first of them subscribed to [jobs]. *)
Definition twoClients : SSEManager.t :=
  let m := SSEManager.create in
  let m := SSEManager.createConnection toyJson steadyStreams m "sse_1" 1000 in
  let m := SSEManager.createConnection toyJson steadyStreams m "sse_2" 2000 in
  fst (SSEManager.subscribe toyJson steadyStreams m "sse_1" "jobs").



(** What a failed call that is retried leaves in a run: the call, the call
    of [onRetry], and the sleep before the next call.  [attempt] is the
    number of the call, counted from 1; the sleep is the delay computed for
    [attempt - 1] with the value drawn from the random generator then. *)
Definition retryRound (pow : float -> Z -> float) (random : nat -> float)
    (config : RetryHandler.RetryConfig) (attempt : Z) (e : RetryHandler.JsError)
    : list RetryHandler.Effect :=
  [ RetryHandler.Invoke (Some e);
    RetryHandler.OnRetry attempt e;
    RetryHandler.Sleep
      (RetryHandler.calculateDelay pow (attempt - 1) config
         (random (Z.to_nat (attempt - 1)))) ].

(** One round after the other, for the errors thrown by the calls numbered
    [attempt], [attempt + 1], ... *)
Fixpoint retryRounds (pow : float -> Z -> float) (random : nat -> float)
    (config : RetryHandler.RetryConfig) (attempt : Z)
    (errors : list RetryHandler.JsError) : list RetryHandler.Effect :=
  match errors with
  | [] => []
  | e :: rest =>
      (retryRound pow random config attempt e
       ++ retryRounds pow random config (attempt + 1) rest)%list
  end.

(** The end of a run whose last call has the number [calls]: the call
    returns; or it throws an error that is not retryable while retries are
    left; or it throws when no retry is left, and [onFinalFailure] is
    called. *)
Definition lastCall {T : Type} (config : RetryHandler.RetryConfig)
    (r : RetryHandler.RetryResult T) (calls : Z) (last : list RetryHandler.Effect)
    : Prop :=
  (last = [RetryHandler.Invoke None]
   /\ RetryHandler.success r = true /\ RetryHandler.attempts r = calls)
  \/ (exists e,
        last = [RetryHandler.Invoke (Some e)]
        /\ RetryHandler.isRetryableError e config (RetryHandler.classifyError e) = false
        /\ calls <= RetryHandler.maxRetries config
        /\ RetryHandler.success r = false /\ RetryHandler.error r = Some e)
  \/ (exists e,
        last = [RetryHandler.Invoke (Some e);
                RetryHandler.OnFinalFailure e (RetryHandler.maxRetries config + 1)]
        /\ calls = RetryHandler.maxRetries config + 1
        /\ RetryHandler.success r = false /\ RetryHandler.error r = Some e).


(** The set of current jobs holds exactly the jobs in PROCESSING. *)
Definition synced (q : DatabaseJobQueue.t) : Prop :=
  DatabaseJobQueue.currentJobs q
  = list_to_set
      (List.map DatabaseJobQueue.id
         (List.filter
            (fun r => DatabaseJobQueue.Status_eqb (DatabaseJobQueue.status r)
                        DatabaseJobQueue.PROCESSING)
            (DatabaseJobQueue.table q))).

(** The queue object of a new process, of cap 1, over the table that
    [stalledQueue] has written: job-1 is in PROCESSING there and job-2 is
    PENDING, and the set of current jobs of the new object is empty. *)
Definition restartedQueue : DatabaseJobQueue.t :=
  {| DatabaseJobQueue.table := DatabaseJobQueue.table stalledQueue;
     DatabaseJobQueue.processing := false;
     DatabaseJobQueue.maxConcurrentJobs := 1;
     DatabaseJobQueue.currentJobs := ∅;
     DatabaseJobQueue.emitted := [] |}.

(* ===================================================================== *)
(** * Properties *)
(* ===================================================================== *)

(** ** Retry handler: classification and retry policy *)

Section RetryPolicy.
Import Js RetryHandler.

(** Each error gets one class, and the seven classes are all there are. *)
Lemma classifyError_total (e : JsError) :
  In (classifyError e) [NETWORK; TIMEOUT; RATE_LIMITED; CAPTCHA; BLOCKED; PARSING; UNKNOWN].
Proof. destruct (classifyError e); simpl; tauto. Qed.

(** Absent a configured pattern, the class decides. *)
Lemma isRetryableError_by_class (e : JsError) (config : RetryConfig) (ty : ErrorType) :
    isConfiguredRetryable e config = false ->
    isRetryableError e config ty =
      match ty with
      | NETWORK | TIMEOUT | RATE_LIMITED | UNKNOWN => true
      | CAPTCHA | BLOCKED | PARSING => false
      end.
Proof. intros H. unfold isRetryableError. rewrite H. destruct ty; reflexivity. Qed.

Lemma isRetryableError_configured (e : JsError) (config : RetryConfig) (ty : ErrorType) :
    isConfiguredRetryable e config = true -> isRetryableError e config ty = true.
Proof. intros H. unfold isRetryableError. rewrite H. reflexivity. Qed.

(** The test for 'rate limit' in the RATE_LIMITED branch is never reached
      with a message that has it: the BLOCKED branch tests it first. *)
Lemma classifyError_rate_limit_shadowed (e : JsError) :
    includes (toLowerCase (message e)) "rate limit" = true ->
    classifyError e <> RATE_LIMITED.
Proof.
    intros H. unfold classifyError. rewrite H, !orb_true_r.
    repeat match goal with
           | |- context [if ?c then _ else _] => destruct c; try discriminate
           end.
Qed.
End RetryPolicy.




(** C2.  An error whose message says 'rate limit' is classified BLOCKED,
    not RATE_LIMITED, is not retryable under the default configuration, and
    [executeWithRetry] gives up after the first call of the operation. *)
Theorem rate_limit_error_is_blocked_and_not_retried :
  let e := {| RetryHandler.message := "Rate limit exceeded" |} in
  RetryHandler.classifyError e = RetryHandler.BLOCKED
  /\ RetryHandler.isRetryableError e RetryHandler.defaultConfig
       (RetryHandler.classifyError e) = false
  /\ (let '(r, effects, calls) :=
        RetryHandler.executeWithRetry (alwaysThrows "Rate limit exceeded")
          repeatedProduct noJitter RetryHandler.defaultConfig 0%nat in
      RetryHandler.success r = false
      /\ RetryHandler.invocations effects = 1%nat
      /\ RetryHandler.sleeps effects = []
      /\ calls = 1%nat).
Proof. vm_compute. repeat split; reflexivity. Qed.

(** The page check of the same file raises its rate limiting error with a
    message that is classified BLOCKED as well. *)
Lemma page_rate_limiting_error_is_blocked :
  RetryHandler.classifyError
    {| RetryHandler.message := "Rate limiting detected: please slow down..." |}
  = RetryHandler.BLOCKED.
Proof. reflexivity. Qed.

(** An error that only says 'too many requests' or '429' does reach the
    RATE_LIMITED class and is retried. *)
Lemma too_many_requests_is_rate_limited :
  RetryHandler.classifyError {| RetryHandler.message := "HTTP 429 Too Many Requests" |}
  = RetryHandler.RATE_LIMITED.
Proof. reflexivity. Qed.

(** ** Retry handler: the retry loop *)

Section RetryLoop.
Import RetryHandler.
Context {W T : Type}.
Variable operation : W -> (JsError + T) * W.
Variable pow : float -> Z -> float.
Variable random : nat -> float.
Variable config : RetryConfig.

Lemma retryLoop_failure_attempts remaining attempt lastError w r effects w' :
  retryLoop operation pow random config remaining attempt lastError w = (r, effects, w') ->
  success r = false ->
  attempts r = maxRetries config + 1.
Proof.
  revert attempt lastError w r effects w'.
  induction remaining as [|remaining IH]; intros attempt lastError w r effects w' E Hf.
  - simpl in E. injection E as <- _ _. reflexivity.
  - simpl in E. destruct (operation w) as [[err|d] w1].
    + destruct (attempt >? maxRetries config).
      { injection E as <- _ _. reflexivity. }
      destruct (negb _).
      { injection E as <- _ _. reflexivity. }
      destruct (retryLoop _ _ _ _ remaining _ _ w1) as [[r1 eff1] w2] eqn:E1.
      injection E as <- _ _. eapply IH; eauto.
    + injection E as <- _ _. discriminate Hf.
Qed.

Lemma last_nonempty_default {A : Type} (x : A) (l : list A) (d d' : A) :
  List.last (x :: l) d = List.last (x :: l) d'.
Proof.
  revert x. induction l as [|y l IH]; intros x; [reflexivity|].
  change (List.last (y :: l) d = List.last (y :: l) d'). apply IH.
Qed.


(** Calls of the operation and sleeps, counted against the loop bound. *)
Lemma retryLoop_bounds remaining attempt lastError w r effects w' :
  retryLoop operation pow random config remaining attempt lastError w = (r, effects, w') ->
  attempt + Z.of_nat remaining = maxRetries config + 2 ->
  (invocations effects <= remaining)%nat
  /\ (List.length (sleeps effects) <= Nat.pred remaining)%nat.
Proof.
  revert attempt lastError w r effects w'.
  induction remaining as [|remaining IH]; intros attempt lastError w r effects w' E Hinv.
  - simpl in E. injection E as _ <- _. unfold invocations, sleeps. simpl. lia.
  - simpl in E. destruct (operation w) as [[err|d] w1].
    + destruct (attempt >? maxRetries config) eqn:Hgt.
      { injection E as _ <- _. unfold invocations, sleeps. simpl. lia. }
      destruct (negb _).
      { injection E as _ <- _. unfold invocations, sleeps. simpl. lia. }
      destruct (retryLoop _ _ _ _ remaining _ _ w1) as [[r1 eff1] w2] eqn:E1.
      injection E as _ <- _.
      assert (Hinv' : attempt + 1 + Z.of_nat remaining = maxRetries config + 2) by lia.
      destruct (IH _ _ _ _ _ _ E1 Hinv') as [Hi Hs].
      cbn. fold (invocations eff1). fold (sleeps eff1).
      split; [lia|].
      destruct remaining; [lia|]. simpl in *. lia.
    + injection E as _ <- _. unfold invocations, sleeps. simpl. lia.
Qed.
End RetryLoop.

(** C10.  Whenever [executeWithRetry] returns a failure, the [attempts]
    field of the result is [maxRetries + 1], whatever the number of calls
    of the operation that were made. *)
Theorem failed_result_reports_maxRetries_plus_one
    {W T : Type} (operation : W -> (RetryHandler.JsError + T) * W)
    (pow : float -> Z -> float)
    (random : nat -> float) (config : RetryHandler.RetryConfig) (w : W)
    (r : RetryHandler.RetryResult T) (effects : list RetryHandler.Effect) (w' : W) :
  RetryHandler.executeWithRetry operation pow random config w = (r, effects, w') ->
  RetryHandler.success r = false ->
  RetryHandler.attempts r = RetryHandler.maxRetries config + 1.
Proof.
  unfold RetryHandler.executeWithRetry. intros E Hf.
  eapply retryLoop_failure_attempts; eauto.
Qed.

(** A captcha error ends the run at the first call; the result says 4. *)
Lemma failed_result_reports_maxRetries_plus_one_witness :
  let run :=
    RetryHandler.executeWithRetry (alwaysThrows "Captcha detected on page")
      repeatedProduct noJitter RetryHandler.defaultConfig 0%nat in
  RetryHandler.attempts (fst (fst run)) = 4
  /\ RetryHandler.invocations (snd (fst run)) = 1%nat.
Proof.
  split; [|reflexivity].
  exact (failed_result_reports_maxRetries_plus_one
           (alwaysThrows "Captcha detected on page") repeatedProduct noJitter
           RetryHandler.defaultConfig 0%nat _ _ _ eq_refl eq_refl).
Defined.

(** A timeout error thrown at each call exhausts the retries, after four
    calls, and the result says 4 as well. *)
Lemma exhausted_retries_report_the_same_attempts :
  let captcha :=
    RetryHandler.executeWithRetry (alwaysThrows "Captcha detected on page")
      repeatedProduct noJitter RetryHandler.defaultConfig 0%nat in
  let timeout :=
    RetryHandler.executeWithRetry (alwaysThrows "Navigation timeout")
      repeatedProduct noJitter RetryHandler.defaultConfig 0%nat in
  RetryHandler.invocations (snd (fst captcha)) = 1%nat
  /\ RetryHandler.invocations (snd (fst timeout)) = 4%nat
  /\ RetryHandler.attempts (fst (fst captcha)) = RetryHandler.attempts (fst (fst timeout)).
Proof. vm_compute. repeat split; reflexivity. Qed.

(** An operation that throws a network error twice and then returns
    completes at the third call, with [attempts = 3], after sleeps of 1000
    and 2000 ms (before jitter). *)
Lemma network_error_twice_then_success :
  let '(r, effects, _) :=
    RetryHandler.executeWithRetry throwsThenReturns repeatedProduct noJitter
      RetryHandler.defaultConfig
      ["net::ERR_CONNECTION_RESET"; "network unreachable"] in
  RetryHandler.success r = true
  /\ RetryHandler.attempts r = 3
  /\ RetryHandler.invocations effects = 3%nat
  /\ RetryHandler.sleeps effects = [1000; 2000]%float.
Proof. vm_compute. repeat split; reflexivity. Qed.

(** ** Retry handler: backoff *)

Section RetryShape.
Import RetryHandler.
Context {W T : Type}.
Variable operation : W -> (JsError + T) * W.
Variable pow : float -> Z -> float.
Variable random : nat -> float.
Variable config : RetryConfig.

(** A run of the loop is a sequence of rounds followed by the last call. *)
Lemma retryLoop_shape remaining attempt lastError w r effects w' :
  retryLoop operation pow random config remaining attempt lastError w = (r, effects, w') ->
  attempt + Z.of_nat remaining = maxRetries config + 2 ->
  (0 < remaining)%nat ->
  exists errors last,
    effects = (retryRounds pow random config attempt errors ++ last)%list
    /\ List.Forall (fun e => isRetryableError e config (classifyError e) = true) errors
    /\ lastCall config r (attempt + Z.of_nat (List.length errors)) last.
Proof.
  revert attempt lastError w r effects w'.
  induction remaining as [|remaining IH];
    intros attempt lastError w r effects w' E Hinv Hpos; [lia|].
  simpl in E. destruct (operation w) as [[e|x] w1].
  - destruct (attempt >? maxRetries config) eqn:Hlast.
    { injection E as <- <- _. exists [], [Invoke (Some e); OnFinalFailure e attempt].
      split; [reflexivity|]. split; [constructor|].
      right. right. exists e. simpl.
      assert (attempt = maxRetries config + 1) as -> by lia.
      repeat split; try reflexivity. lia. }
    destruct (isRetryableError e config (classifyError e)) eqn:Hretry; simpl in E.
    + destruct (retryLoop _ _ _ _ remaining _ _ w1) as [[r1 eff1] w2] eqn:E1.
      injection E as <- <- _.
      destruct (IH _ _ _ _ _ _ E1 ltac:(lia) ltac:(lia)) as (errors & last & He & Hf & Hl).
      exists (e :: errors), last. split; [|split].
      * rewrite He. reflexivity.
      * constructor; assumption.
      * replace (attempt + Z.of_nat (List.length (e :: errors)))
          with (attempt + 1 + Z.of_nat (List.length errors))
          by (cbn [List.length]; lia).
        exact Hl.
    + injection E as <- <- _. exists [], [Invoke (Some e)].
      split; [reflexivity|]. split; [constructor|].
      right. left. exists e. simpl. repeat split; try reflexivity; [exact Hretry | lia].
  - injection E as <- <- _. exists [], [Invoke None].
    split; [reflexivity|]. split; [constructor|].
    left. simpl. repeat split; try reflexivity. lia.
Qed.

Lemma executeWithRetry_shape w r effects w' :
  executeWithRetry operation pow random config w = (r, effects, w') ->
  0 <= maxRetries config ->
  exists errors last,
    effects = (retryRounds pow random config 1 errors ++ last)%list
    /\ List.Forall (fun e => isRetryableError e config (classifyError e) = true) errors
    /\ lastCall config r (1 + Z.of_nat (List.length errors)) last.
Proof.
  unfold executeWithRetry. intros E Hm.
  apply (retryLoop_shape _ _ _ _ _ _ _ E); lia.
Qed.

Lemma invocations_app (a b : list Effect) :
  invocations (a ++ b) = (invocations a + invocations b)%nat.
Proof. unfold invocations. rewrite List.filter_app, List.length_app. reflexivity. Qed.


Lemma invocations_retryRounds attempt errors :
  invocations (retryRounds pow random config attempt errors) = List.length errors.
Proof.
  revert attempt. induction errors as [|e errors IH]; intros attempt; [reflexivity|].
  cbn [retryRounds]. rewrite invocations_app, IH. reflexivity.
Qed.


End RetryShape.




(** ** Circuit breaker *)

Section CircuitBreaker.
Import RetryHandler.
Context {W T : Type}.
Variables maxFailures resetTimeout : Z.
Variable operation : W -> (JsError + T) * W.

(** While the breaker is open and the reset timeout has not elapsed since
    the last failure, a call is rejected and the operation is not run: the
    world and the breaker are as before. *)
Lemma execute_open_rejects (b : Breaker) (now failTime : Z) (w : W) :
  state b = open ->
  now - lastFailureTime b <= resetTimeout ->
  execute maxFailures resetTimeout operation b now failTime w = (b, Rejected, w).
Proof.
  intros Hs Ht. unfold execute. rewrite Hs. simpl.
  replace (now - lastFailureTime b >? resetTimeout) with false by lia.
  rewrite Hs. reflexivity.
Qed.

(** Once the timeout has elapsed the next call runs the operation. *)
Lemma execute_open_elapsed_runs (b : Breaker) (now failTime : Z) (w : W) :
  state b = open ->
  now - lastFailureTime b > resetTimeout ->
  snd (execute maxFailures resetTimeout operation b now failTime w) = snd (operation w).
Proof.
  intros Hs Ht. unfold execute. rewrite Hs. simpl.
  replace (now - lastFailureTime b >? resetTimeout) with true by lia.
  simpl. destruct (operation w) as [[e|x] w1]; reflexivity.
Qed.

(** A success of the trial call closes the breaker and zeroes the counter. *)
Lemma execute_half_open_success (b : Breaker) (now failTime : Z) (w w1 : W) (x : T) :
  state b = open ->
  now - lastFailureTime b > resetTimeout ->
  operation w = (inr x, w1) ->
  execute maxFailures resetTimeout operation b now failTime w
  = ({| failures := 0; lastFailureTime := lastFailureTime b; state := closed |},
     Returned x, w1).
Proof.
  intros Hs Ht Hop. unfold execute. rewrite Hs. simpl.
  replace (now - lastFailureTime b >? resetTimeout) with true by lia.
  simpl. rewrite Hop. reflexivity.
Qed.

(** A failure of the trial call counts as the first failure of a fresh
    count: the breaker opens again only if the threshold is at most 1. *)
Lemma execute_half_open_failure (b : Breaker) (now failTime : Z) (w w1 : W) (e : JsError) :
  state b = open ->
  now - lastFailureTime b > resetTimeout ->
  operation w = (inl e, w1) ->
  execute maxFailures resetTimeout operation b now failTime w
  = ({| failures := 1; lastFailureTime := failTime;
        state := if 1 >=? maxFailures then open else half_open |},
     Threw e, w1).
Proof.
  intros Hs Ht Hop. unfold execute. rewrite Hs. simpl.
  replace (now - lastFailureTime b >? resetTimeout) with true by lia.
  simpl. rewrite Hop. reflexivity.
Qed.

(** From a closed breaker with [f] failures counted, [n] failing calls with
    [f + n] equal to the threshold leave the breaker open. *)
Lemma executeMany_failures_open (clock : list (Z * Z)) (b : Breaker) (w : W) :
  (forall w0, exists e w1, operation w0 = (inl e, w1)) ->
  state b = closed ->
  (0 < List.length clock)%nat ->
  failures b + Z.of_nat (List.length clock) = maxFailures ->
  state (fst (fst (executeMany maxFailures resetTimeout operation b clock w))) = open.
Proof.
  intros Hop. revert b w.
  induction clock as [|[now failTime] clock IH]; intros b w Hs Hlen Hsum.
  - simpl in Hlen. lia.
  - simpl.
    destruct (execute maxFailures resetTimeout operation b now failTime w)
      as [[b1 o] w1] eqn:E.
    destruct (executeMany maxFailures resetTimeout operation b1 clock w1)
      as [[b2 os] w2] eqn:E2.
    simpl. unfold execute in E. rewrite Hs in E. simpl in E.
    destruct (Hop w) as (e & w0 & Hw). rewrite Hw in E.
    rewrite !Hs in E. simpl in E. injection E as <- _ <-.
    destruct clock as [|c clock].
    + simpl in E2. injection E2 as <- _ _. simpl in *.
      replace (failures b + 1 >=? maxFailures) with true by lia. reflexivity.
    + pose proof (IH {| failures := failures b + 1; lastFailureTime := failTime;
                        state := if failures b + 1 >=? maxFailures then open else closed |}
                     w0) as IH'.
      rewrite E2 in IH'. simpl in IH'. apply IH'.
      * simpl in Hsum. replace (failures b + 1 >=? maxFailures) with false by lia.
        reflexivity.
      * simpl. lia.
      * simpl in *. lia.
Qed.
End CircuitBreaker.

(** C1.  The default breaker (threshold 5, reset timeout 60 s) is open after
    five failures and rejects a call made within the timeout without running
    the operation; but a failure of the trial call made after the timeout
    leaves it half-open with one failure counted, and the call after that
    runs the operation again. *)
Theorem half_open_failure_does_not_reopen :
  let '(b5, _, calls5) := trippedBreaker in
  let op := alwaysThrows "connection refused" in
  RetryHandler.state b5 = RetryHandler.open
  /\ calls5 = 5%nat
  /\ RetryHandler.execute 5 60000 op b5 1000 1000 calls5
     = (b5, RetryHandler.Rejected (T := unit), 5%nat)
  /\ (let '(b6, o6, calls6) := RetryHandler.execute 5 60000 op b5 70000 70001 calls5 in
      o6 = RetryHandler.Threw {| RetryHandler.message := "connection refused" |}
      /\ calls6 = 6%nat
      /\ RetryHandler.state b6 = RetryHandler.half_open
      /\ RetryHandler.failures b6 = 1
      /\ (let '(b7, o7, calls7) :=
            RetryHandler.execute 5 60000 op b6 70002 70003 calls6 in
          o7 = RetryHandler.Threw {| RetryHandler.message := "connection refused" |}
          /\ calls7 = 7%nat
          /\ RetryHandler.state b7 = RetryHandler.half_open)).
Proof. vm_compute. repeat split; reflexivity. Qed.

(** ** Rate limiter *)

Section Window.
Import RateLimiter.

Lemma minimum_In (xs : list Z) (m : Z) : minimum xs = Some m -> In m xs.
Proof.
  destruct xs as [|x xs]; [discriminate|]. simpl. intros [= <-].
  revert x. induction xs as [|y ys IH]; intros x; [left; reflexivity|].
  simpl. pose proof (IH (Z.min x y)) as [H|H].
  - destruct (Z.min_spec x y) as [[_ E]|[_ E]].
    + left. rewrite <- H. symmetry. exact E.
    + right. left. rewrite <- H. symmetry. exact E.
  - right. right. exact H.
Qed.

Lemma filter_drops_one (f : Z -> bool) (xs : list Z) (x : Z) :
  In x xs -> f x = false ->
  (List.length (List.filter f xs) < List.length xs)%nat.
Proof.
  induction xs as [|y ys IH]; intros Hin Hf; [destruct Hin|].
  simpl. destruct Hin as [->|Hin].
  - rewrite Hf. pose proof (List.filter_length_le f ys). lia.
  - specialize (IH Hin Hf). destruct (f y); simpl; lia.
Qed.

Lemma filter_In_true (f : Z -> bool) (xs : list Z) (x : Z) :
  In x (List.filter f xs) -> f x = true.
Proof. intros H. apply List.filter_In in H. tauto. Qed.

(** The timestamp recorded by [wait] is the clock value read on entry,
    whether or not the call was suspended. *)
Lemma wait_records_entry_time (l : t) (now : Z) :
  requests (fst (wait l now))
  = (List.filter (inWindow (windowMs l) now) (requests l) ++ [now])%list.
Proof. reflexivity. Qed.

(** For calls made one after the other, with at least one request allowed:
    if at most [maxRequests] records lie in the window when [wait] is
    entered, so it is when [wait] resumes. *)
Lemma wait_sequential_bound (l : t) (now : Z) :
  1 <= maxRequests l ->
  Z.of_nat (recordedInWindow l now) <= maxRequests l ->
  Z.of_nat (recordedInWindow (fst (wait l now)) (resumeTime now (snd (wait l now))))
  <= maxRequests l.
Proof.
  intros Hmax Hin. unfold wait, enter, resume, recordedInWindow in *. simpl.
  remember (List.filter (inWindow (windowMs l) now) (requests l)) as kept eqn:Hkept.
  destruct (Z.of_nat (List.length kept) >=? maxRequests l) eqn:Hfull.
  - destruct (minimum kept) as [m|] eqn:Hm.
    + pose proof (minimum_In _ _ Hm) as HmIn.
      assert (Hw : inWindow (windowMs l) now m = true)
        by (rewrite Hkept in HmIn; exact (filter_In_true _ _ _ HmIn)).
      unfold inWindow in Hw.
      replace (windowMs l - (now - m) >? 0) with true by lia. simpl.
      rewrite List.filter_app, List.length_app.
      assert (Hout : inWindow (windowMs l) (now + (windowMs l - (now - m))) m = false)
        by (unfold inWindow; lia).
      pose proof (filter_drops_one _ _ _ HmIn Hout) as Hlt.
      simpl.
      destruct (inWindow (windowMs l) (now + (windowMs l - (now - m))) now);
        simpl; lia.
    + destruct kept as [|x kept']; [|discriminate Hm].
      change (List.length (@nil Z)) with 0%nat in Hfull.
      apply Z.geb_le in Hfull. simpl in Hfull. lia.
  - simpl. rewrite List.filter_app, List.length_app.
    pose proof (List.filter_length_le (inWindow (windowMs l) now) kept) as H0.
    simpl. destruct (inWindow (windowMs l) now now); simpl; lia.
Qed.
End Window.

(** C8.  With one request allowed per 100 ms, a call of [wait] at time 1,
    after a request at time 0, is suspended until time 100 but records 1;
    the record has left the window at time 101, where the next call is let
    through at once: requests go out at times 100 and 101.  And two callers
    suspended together both resume at time 100, leaving two records in the
    window ending there. *)
Theorem wait_records_stale_timestamp :
  let '(l1, s1) := RateLimiter.wait onePer100 0 in
  let '(l2, s2) := RateLimiter.wait l1 1 in
  let '(l3, s3) := RateLimiter.wait l2 101 in
  s1 = RateLimiter.NoSuspension
  /\ s2 = RateLimiter.Timeout 99
  /\ RateLimiter.resumeTime 1 s2 = 100
  /\ RateLimiter.requests l2 = [0; 1]
  /\ s3 = RateLimiter.NoSuspension
  /\ RateLimiter.requests l3 = [101]
  /\ snd (RateLimiter.sequentialWaits onePer100 0 [0; 1; 101]) = [0; 100; 101]
  /\ RateLimiter.requests twoConcurrentWaits = [0; 50; 50]
  /\ RateLimiter.recordedInWindow twoConcurrentWaits 100 = 2%nat.
Proof. vm_compute. repeat split; reflexivity. Qed.

(** ** Data processor *)

(** C4.  A valid record whose listing id is not in the cleaned form passes
    the duplicate check again: processed twice in one batch it is emitted
    twice as successful, under the same key, and no duplicate is counted. *)
Theorem same_record_twice_emitted_twice :
  let r := bakery (Some "abc-1") None in
  let '(p, b) := DataProcessor.processBatch 2024 DataProcessor.create [r; r] in
  keysOf b = ["ABC-1"; "ABC-1"]
  /\ DataProcessor.failedResults b = []
  /\ DataProcessor.Stats.totalProcessed (DataProcessor.batchStats b) = 2%nat
  /\ DataProcessor.Stats.successful (DataProcessor.batchStats b) = 2%nat
  /\ DataProcessor.Stats.duplicates (DataProcessor.batchStats b) = 0%nat
  /\ DataProcessor.seenListingIds p = {[ "ABC-1" ]}.
Proof. vm_compute. repeat split; reflexivity. Qed.

(** The same happens to a record whose key is taken from its url: the
    check reads the raw listing id only. *)
Lemma url_keyed_record_twice_emitted_twice :
  let r := bakery None (Some "https://www.example.com/business/12345-corner-bakery") in
  let '(p, b) := DataProcessor.processBatch 2024 DataProcessor.create [r; r] in
  keysOf b = ["BBS12345"; "BBS12345"]
  /\ DataProcessor.Stats.successful (DataProcessor.batchStats b) = 2%nat
  /\ DataProcessor.Stats.duplicates (DataProcessor.batchStats b) = 0%nat.
Proof. vm_compute. repeat split; reflexivity. Qed.

(** A record whose listing id is already in the cleaned form is caught. *)
Lemma cleaned_id_record_twice_one_duplicate :
  let r := bakery (Some "ABC-1") None in
  let '(p, b) := DataProcessor.processBatch 2024 DataProcessor.create [r; r] in
  keysOf b = ["ABC-1"]
  /\ List.map DataProcessor.Result.errors (DataProcessor.failedResults b)
     = [["Duplicate listing ID detected"]]
  /\ DataProcessor.Stats.successful (DataProcessor.batchStats b) = 1%nat
  /\ DataProcessor.Stats.duplicates (DataProcessor.batchStats b) = 1%nat.
Proof. vm_compute. repeat split; reflexivity. Qed.

(** ** Job queue: the reaper *)

Section Reaper.
Import DatabaseJobQueue.

(** Every row in PROCESSING whose start lies more than the stall timeout
    back is failed with the timeout error. *)
Lemma cleanup_fails_stalled (q : t) (now s : Z) (r : ScrapeJob) :
  In r (table q) ->
  status r = PROCESSING ->
  startedAt r = Some s ->
  s < now - stallTimeout ->
  exists r', In r' (table (cleanup q now))
             /\ id r' = id r /\ status r' = FAILED /\ error r' = Some stalledError
             /\ updatedAt r' = now.
Proof.
  intros Hin Hst Hs Hlt. unfold cleanup. simpl.
  eexists. split.
  - apply in_map_iff. exists r. split; [reflexivity | exact Hin].
  - unfold isStalled. rewrite Hst, Hs. simpl.
    replace (s <? now - stallTimeout) with true by lia.
    repeat split; reflexivity.
Qed.

(** The reaper does not touch the set of current jobs. *)
Lemma cleanup_keeps_currentJobs (q : t) (now : Z) :
  currentJobs (cleanup q now) = currentJobs q.
Proof. reflexivity. Qed.
End Reaper.

(** C3.  The reaper fails the stalled job with the timeout error, yet the
    job stays in the set that is counted against the cap: with no job in
    PROCESSING and one job waiting, the next poll dispatches nothing. *)
Theorem reaped_job_keeps_its_slot :
  statusOf stalledQueue "job-1" = Some DatabaseJobQueue.PROCESSING
  /\ statusOf reapedQueue "job-1" = Some DatabaseJobQueue.FAILED
  /\ errorOf reapedQueue "job-1"
     = Some "Job timed out (stalled for more than 10 minutes)"
  /\ DatabaseJobQueue.countStatus DatabaseJobQueue.PROCESSING reapedQueue = 0%nat
  /\ DatabaseJobQueue.maxConcurrentJobs reapedQueue = 1
  /\ DatabaseJobQueue.currentJobs reapedQueue = {[ "job-1" ]}
  /\ statusOf reapedQueue "job-2" = Some DatabaseJobQueue.PENDING
  /\ DatabaseJobQueue.processQueue reapedQueue 600002 = reapedQueue
  /\ DatabaseJobQueue.dispatched (DatabaseJobQueue.processQueue reapedQueue 600002)
     = ["job-1"].
Proof. vm_compute. repeat split; reflexivity. Qed.

(** The sibling paths give the slot back: after [completeJob] the waiting
    job is dispatched. *)
Lemma completed_job_releases_its_slot :
  let q := DatabaseJobQueue.completeJob stalledQueue "job-1" succeeded 5000 in
  DatabaseJobQueue.dispatched q = ["job-1"; "job-2"]
  /\ DatabaseJobQueue.currentJobs q = {[ "job-2" ]}.
Proof. vm_compute. repeat split; reflexivity. Qed.

(** ** Job queue: dispatch *)

Section Dispatch.
Import DatabaseJobQueue.

Lemma Status_eqb_eq (a b : Status) : Status_eqb a b = true <-> a = b.
Proof. destruct a, b; simpl; split; intros H; try reflexivity; discriminate H. Qed.

Lemma sortsBefore_true (a b : ScrapeJob) :
  sortsBefore a b = true <->
  priorityRank (priority b) < priorityRank (priority a)
  \/ (priorityRank (priority a) = priorityRank (priority b) /\ createdAt a < createdAt b).
Proof. unfold sortsBefore. rewrite orb_true_iff, andb_true_iff. lia. Qed.

Lemma sortsBefore_false (a b : ScrapeJob) :
  sortsBefore a b = false <->
  priorityRank (priority a) <= priorityRank (priority b)
  /\ (priorityRank (priority a) = priorityRank (priority b) -> createdAt b <= createdAt a).
Proof.
  rewrite <- not_true_iff_false, sortsBefore_true. lia.
Qed.

Lemma findFirstPending_None (rows : list ScrapeJob) :
  findFirstPending rows = None ->
  forall r, In r rows -> status r <> PENDING.
Proof.
  induction rows as [|r0 rest IH]; intros H r Hin; [destruct Hin|].
  simpl in H. destruct (findFirstPending rest) as [best|] eqn:E.
  - destruct (Status_eqb (status r0) PENDING && negb (sortsBefore best r0)); discriminate H.
  - destruct (Status_eqb (status r0) PENDING) eqn:Hp; [discriminate H|].
    destruct Hin as [<-|Hin].
    + intros Hs. apply Status_eqb_eq in Hs. congruence.
    + apply IH; auto.
Qed.

Lemma findFirstPending_Some (rows : list ScrapeJob) (j : ScrapeJob) :
  findFirstPending rows = Some j ->
  In j rows /\ status j = PENDING
  /\ forall r, In r rows -> status r = PENDING -> sortsBefore r j = false.
Proof.
  revert j. induction rows as [|r0 rest IH]; intros j H; [discriminate H|].
  simpl in H. destruct (findFirstPending rest) as [best|] eqn:E.
  - destruct (IH best eq_refl) as (Hin & Hst & Hbest).
    destruct (Status_eqb (status r0) PENDING) eqn:Hp; simpl in H.
    + destruct (sortsBefore best r0) eqn:Hb; simpl in H; injection H as <-.
      * split; [right; exact Hin|]. split; [exact Hst|].
        intros r [<-|Hr] Hs; [|auto].
        apply sortsBefore_false. apply sortsBefore_true in Hb. lia.
      * split; [left; reflexivity|]. split; [apply Status_eqb_eq; exact Hp|].
        intros r [<-|Hr] Hs.
        { apply sortsBefore_false. lia. }
        specialize (Hbest r Hr Hs).
        apply sortsBefore_false in Hbest. apply sortsBefore_false in Hb.
        apply sortsBefore_false. lia.
    + injection H as <-.
      split; [right; exact Hin|]. split; [exact Hst|].
      intros r [<-|Hr] Hs; [|auto].
      apply Status_eqb_eq in Hs. congruence.
  - destruct (Status_eqb (status r0) PENDING) eqn:Hp; [|discriminate H].
    injection H as <-.
    split; [left; reflexivity|]. split; [apply Status_eqb_eq; exact Hp|].
    intros r [<-|Hr] Hs.
    + apply sortsBefore_false. lia.
    + exfalso. exact (findFirstPending_None rest E r Hr Hs).
Qed.

Lemma update_other (i : string) (f : ScrapeJob -> ScrapeJob) (rows : list ScrapeJob) :
  (forall r, In r rows -> id r <> i) -> update i f rows = rows.
Proof.
  induction rows as [|r0 rest IH]; intros H; [reflexivity|].
  simpl. destruct (String.eqb_spec (id r0) i) as [Heq|Hne].
  - exfalso. apply (H r0); [left; reflexivity | exact Heq].
  - f_equal. apply IH. intros r Hr. apply H. right. exact Hr.
Qed.

Lemma update_keeps_other (i : string) (f : ScrapeJob -> ScrapeJob)
    (rows : list ScrapeJob) (r : ScrapeJob) :
  In r rows -> id r <> i -> In r (update i f rows).
Proof.
  intros Hin Hne. unfold update. apply in_map_iff. exists r.
  split; [|exact Hin].
  destruct (String.eqb_spec (id r) i); [contradiction | reflexivity].
Qed.

Lemma update_ids (i : string) (f : ScrapeJob -> ScrapeJob) (rows : list ScrapeJob) :
  (forall r, id (f r) = id r) ->
  List.map id (update i f rows) = List.map id rows.
Proof.
  intros Hf. unfold update. rewrite List.map_map. apply List.map_ext.
  intros r. destruct (String.eqb (id r) i); [apply Hf | reflexivity].
Qed.

Lemma update_In (i : string) (f : ScrapeJob -> ScrapeJob) (rows : list ScrapeJob)
    (r' : ScrapeJob) :
  In r' (update i f rows) ->
  exists r, In r rows /\ ((id r = i /\ r' = f r) \/ (id r <> i /\ r' = r)).
Proof.
  unfold update. intros H. apply in_map_iff in H. destruct H as (r & Hr & Hin).
  exists r. split; [exact Hin|].
  destruct (String.eqb_spec (id r) i); [left | right]; auto.
Qed.

Lemma NoDup_ids_unique (rows : list ScrapeJob) (a b : ScrapeJob) :
  List.NoDup (List.map id rows) -> In a rows -> In b rows -> id a = id b -> a = b.
Proof.
  induction rows as [|r0 rest IH]; intros Hnd Ha Hb Heq; [destruct Ha|].
  simpl in Hnd. apply NoDup_cons_iff in Hnd. destruct Hnd as [Hnotin Hnd].
  destruct Ha as [<-|Ha], Hb as [<-|Hb]; auto.
  - exfalso. apply Hnotin. rewrite Heq. apply in_map. exact Hb.
  - exfalso. apply Hnotin. rewrite <- Heq. apply in_map. exact Ha.
Qed.

(** With unique ids the update of the chosen pending row adds exactly one
    row to those in PROCESSING. *)
Lemma markProcessing_counts (now : Z) (rows : list ScrapeJob) (j : ScrapeJob) :
  List.NoDup (List.map id rows) -> In j rows -> status j = PENDING ->
  List.length (List.filter (fun r => Status_eqb (status r) PROCESSING)
                 (update (id j) (markProcessing now) rows))
  = S (List.length (List.filter (fun r => Status_eqb (status r) PROCESSING) rows)).
Proof.
  induction rows as [|r0 rest IH]; intros Hnd Hin Hst; [destruct Hin|].
  pose proof Hnd as Hnd0.
  simpl in Hnd. apply NoDup_cons_iff in Hnd. destruct Hnd as [Hnotin Hnd].
  simpl. destruct (String.eqb_spec (id r0) (id j)) as [Heq|Hne].
  - assert (r0 = j) as ->.
    { apply (NoDup_ids_unique (r0 :: rest)); auto. left; reflexivity. }
    fold (update (id j) (markProcessing now) rest).
    rewrite update_other.
    + simpl. rewrite Hst. simpl. reflexivity.
    + intros r Hr Hid. apply Hnotin. rewrite <- Hid. apply in_map. exact Hr.
  - destruct Hin as [->|Hin]; [contradiction|].
    fold (update (id j) (markProcessing now) rest).
    destruct (Status_eqb (status r0) PROCESSING); simpl; rewrite IH; auto.
Qed.
(** *** The set of current jobs covers the jobs in PROCESSING *)

Lemma tracked_processQueue (q : t) (now : Z) : tracked q -> tracked (processQueue q now).
Proof.
  intros Ht. unfold processQueue.
  destruct (processing q || _); [exact Ht|].
  destruct (findFirstPending (table q)) as [j|]; [|exact Ht].
  intros r' Hin Hst. simpl in *.
  apply update_In in Hin. destruct Hin as (r & Hr & [[Hid ->]|[Hid ->]]).
  - simpl. rewrite Hid. set_solver.
  - specialize (Ht r Hr Hst). set_solver.
Qed.

Lemma tracked_cleanup (q : t) (now : Z) : tracked q -> tracked (cleanup q now).
Proof.
  intros Ht r' Hin Hst. simpl in *.
  apply in_map_iff in Hin. destruct Hin as (r & Hr & Hin).
  destruct (isStalled (now - stallTimeout) r) eqn:Hs.
  - subst r'. discriminate Hst.
  - subst r'. apply Ht; assumption.
Qed.

Lemma tracked_updateJobProgress (q : t) (i : string) (p now : Z) :
  tracked q -> tracked (updateJobProgress q i p now).
Proof.
  intros Ht r' Hin Hst. simpl in *.
  apply update_In in Hin. destruct Hin as (r & Hr & [[Hid ->]|[Hid ->]]).
  - simpl in *. apply Ht; assumption.
  - apply Ht; assumption.
Qed.

Lemma tracked_completeJob (q : t) (i : string) (result : JobResult) (now : Z) :
  tracked q -> tracked (completeJob q i result now).
Proof.
  intros Ht. unfold completeJob.
  destruct (findUnique i (table q)); [|exact Ht].
  apply tracked_processQueue.
  intros r' Hin Hst. simpl in *.
  apply update_In in Hin. destruct Hin as (r & Hr & [[Hid ->]|[Hid ->]]).
  - simpl in Hst. destruct (success result); discriminate Hst.
  - specialize (Ht r Hr Hst). set_solver.
Qed.

Lemma tracked_cancelJob (q : t) (i : string) (now : Z) :
  tracked q -> tracked (fst (cancelJob q i now)).
Proof.
  intros Ht. unfold cancelJob.
  destruct (findUnique i (table q)) as [job|]; [|exact Ht].
  destruct (Status_eqb (status job) COMPLETED || Status_eqb (status job) FAILED);
    [exact Ht|].
  intros r' Hin Hst. simpl in *.
  apply update_In in Hin. destruct Hin as (r & Hr & [[Hid ->]|[Hid ->]]).
  - discriminate Hst.
  - specialize (Ht r Hr Hst). set_solver.
Qed.

Lemma tracked_addJob (q : t) (newId : string) (now : Z) p m w :
  tracked q -> tracked (fst (addJob q newId now p m w)).
Proof.
  intros Ht. unfold addJob. simpl. apply tracked_processQueue.
  intros r Hin Hst. simpl in *.
  apply in_app_iff in Hin. destruct Hin as [Hin|[<-|[]]].
  - apply Ht; assumption.
  - discriminate Hst.
Qed.

Lemma processQueue_ids (q : t) (now : Z) :
  List.map id (table (processQueue q now)) = List.map id (table q).
Proof.
  unfold processQueue. destruct (processing q || _); [reflexivity|].
  destruct (findFirstPending (table q)); [|reflexivity].
  simpl. apply update_ids. reflexivity.
Qed.

Lemma processQueue_processing (q : t) (now : Z) :
  processing q = false -> processing (processQueue q now) = false.
Proof.
  intros H. unfold processQueue. rewrite H. simpl.
  destruct (_ >=? _); [exact H|].
  destruct (findFirstPending (table q)); [reflexivity | exact H].
Qed.

(** What holds in every reachable state. *)
Lemma reachable_invariants (q : t) :
  reachable q ->
  processing q = false /\ List.NoDup (List.map id (table q)) /\ tracked q.
Proof.
  induction 1 as [n | q newId now p m w Hq [IHp [IHn IHt]] Hfresh
                  | q now Hq [IHp [IHn IHt]] | q i p now Hq [IHp [IHn IHt]]
                  | q i result now Hq [IHp [IHn IHt]] | q i now Hq [IHp [IHn IHt]]
                  | q now Hq [IHp [IHn IHt]]].
  - split; [reflexivity|]. split; [constructor|]. intros r [].
  - split; [|split].
    + unfold addJob. simpl. apply processQueue_processing. exact IHp.
    + unfold addJob. simpl. rewrite processQueue_ids. simpl.
      rewrite List.map_app. simpl.
      clear - IHn Hfresh.
      induction (List.map id (table q)) as [|x xs IH]; simpl.
      * constructor; [intros []|constructor].
      * apply List.NoDup_cons_iff in IHn. destruct IHn as [Hx Hxs].
        constructor.
        { intros Hin. apply in_app_iff in Hin. destruct Hin as [Hin|[<-|[]]].
          - contradiction.
          - apply Hfresh. left. reflexivity. }
        apply IH; [exact Hxs|]. intros Hin. apply Hfresh. right. exact Hin.
    + apply tracked_addJob. exact IHt.
  - split; [apply processQueue_processing; exact IHp|].
    split; [rewrite processQueue_ids; exact IHn | apply tracked_processQueue; exact IHt].
  - split; [exact IHp|]. split; [|apply tracked_updateJobProgress; exact IHt].
    simpl. rewrite update_ids; [exact IHn | reflexivity].
  - split; [|split; [|apply tracked_completeJob; exact IHt]].
    + unfold completeJob. destruct (findUnique i (table q)); [|exact IHp].
      apply processQueue_processing. exact IHp.
    + unfold completeJob. destruct (findUnique i (table q)); [|exact IHn].
      rewrite processQueue_ids. simpl. rewrite update_ids; [exact IHn | reflexivity].
  - split; [|split; [|apply tracked_cancelJob; exact IHt]].
    + unfold cancelJob. destruct (findUnique i (table q)) as [job|]; [|exact IHp].
      destruct (_ || _); exact IHp.
    + unfold cancelJob. destruct (findUnique i (table q)) as [job|]; [|exact IHn].
      destruct (_ || _); [exact IHn|].
      simpl. rewrite update_ids; [exact IHn | reflexivity].
  - split; [exact IHp|]. split; [|apply tracked_cleanup; exact IHt].
    simpl. rewrite List.map_map.
    erewrite List.map_ext; [exact IHn|].
    intros r. destruct (isStalled (now - stallTimeout) r); reflexivity.
Qed.

Lemma NoDup_ids_filter (f : ScrapeJob -> bool) (rows : list ScrapeJob) :
  List.NoDup (List.map id rows) -> List.NoDup (List.map id (List.filter f rows)).
Proof.
  induction rows as [|r rest IH]; intros Hnd; [constructor|].
  simpl in Hnd. apply List.NoDup_cons_iff in Hnd. destruct Hnd as [Hnotin Hnd].
  simpl. destruct (f r); [|auto].
  simpl. constructor; [|auto].
  intros Hin. apply Hnotin. apply in_map_iff in Hin. destruct Hin as (x & Hx & Hin).
  apply List.filter_In in Hin. rewrite <- Hx. apply in_map. tauto.
Qed.

(** The jobs in PROCESSING are no more than the current jobs. *)
Lemma processing_count_le_currentJobs (q : t) :
  List.NoDup (List.map id (table q)) -> tracked q ->
  (countStatus PROCESSING q <= size (currentJobs q))%nat.
Proof.
  intros Hnd Ht. unfold countStatus.
  set (ps := List.filter (fun r => Status_eqb (status r) PROCESSING) (table q)).
  assert (Hnd' : NoDup (List.map id ps)).
  { apply NoDup_ListNoDup. apply NoDup_ids_filter. exact Hnd. }
  rewrite <- (List.length_map id ps).
  rewrite <- (size_list_to_set (C := gset string) _ Hnd').
  apply subseteq_size. intros x Hx.
  apply elem_of_list_to_set in Hx. apply list_elem_of_In in Hx.
  apply in_map_iff in Hx. destruct Hx as (r & <- & Hr).
  apply List.filter_In in Hr. destruct Hr as [Hr Hs].
  apply Ht; [exact Hr | apply Status_eqb_eq; exact Hs].
Qed.
End Dispatch.

Section Synced.
Import DatabaseJobQueue.

Lemma synced_size (q : t) :
  List.NoDup (List.map id (table q)) -> synced q ->
  size (currentJobs q) = countStatus PROCESSING q.
Proof.
  intros Hnd Hs. rewrite Hs. unfold countStatus.
  rewrite size_list_to_set.
  - apply List.length_map.
  - apply NoDup_ListNoDup. apply NoDup_ids_filter. exact Hnd.
Qed.

Lemma elem_of_processing_ids (rows : list ScrapeJob) (x : string) :
  x ∈ (list_to_set
         (List.map id (List.filter (fun r => Status_eqb (status r) PROCESSING) rows))
       : gset string)
  <-> exists r, In r rows /\ status r = PROCESSING /\ id r = x.
Proof.
  rewrite elem_of_list_to_set, list_elem_of_In, in_map_iff. split.
  - intros (r & Hid & Hr). apply List.filter_In in Hr. destruct Hr as [Hin Hst].
    exists r. split; [exact Hin|]. split; [apply Status_eqb_eq; exact Hst | exact Hid].
  - intros (r & Hin & Hst & Hid). exists r. split; [exact Hid|].
    apply List.filter_In. split; [exact Hin|]. rewrite Hst. reflexivity.
Qed.

(** A dispatch keeps the set of current jobs in step with the table. *)
Lemma synced_dispatch (q : t) (now : Z) (j : ScrapeJob) :
  synced q -> In j (table q) ->
  synced {| table := update (id j) (markProcessing now) (table q);
            processing := false;
            maxConcurrentJobs := maxConcurrentJobs q;
            currentJobs := {[ id j ]} ∪ currentJobs q;
            emitted := emitted q ++ [processJob (id j)] |}.
Proof.
  intros Hs Hin. unfold synced. cbn [currentJobs table]. rewrite Hs.
  apply set_eq. intros x.
  rewrite elem_of_union, elem_of_singleton, !elem_of_processing_ids. split.
  - intros [->|(r & Hr & Hst & Hid)].
    + exists (markProcessing now j). split; [|split; reflexivity].
      unfold update. apply in_map_iff. exists j.
      rewrite String.eqb_refl. split; [reflexivity | exact Hin].
    + destruct (String.eqb_spec (id r) (id j)) as [He|Hne].
      * exists (markProcessing now r). split; [|split; [reflexivity | exact Hid]].
        unfold update. apply in_map_iff. exists r.
        rewrite (proj2 (String.eqb_eq _ _) He). split; [reflexivity | exact Hr].
      * exists r. split; [|split; assumption].
        apply update_keeps_other; assumption.
  - intros (r' & Hr' & Hst & Hid). apply update_In in Hr'.
    destruct Hr' as (r & Hr & [[He ->]|[Hne ->]]).
    + left. rewrite <- Hid. exact He.
    + right. exists r. split; [exact Hr|]. split; assumption.
Qed.
End Synced.

(** C5 (as amended).  While the set of current jobs holds exactly the jobs
    in PROCESSING, job ids being unique and no selection being in progress,
    a poll dispatches nothing when the number of jobs in PROCESSING is at
    or above the cap; otherwise it does nothing if no job is PENDING, and
    else takes the PENDING job that is greatest by priority and, within the
    priority, earliest by creation time, moves that job and no other to
    PROCESSING and hands it out, after which the set again holds exactly
    the jobs in PROCESSING.  Three jobs of priorities LOW, HIGH, NORMAL that
    are pending together under cap 1 are handed out in the order HIGH,
    NORMAL, LOW. *)
Theorem poll_dispatches_best_pending (q : DatabaseJobQueue.t) (now : Z) :
  DatabaseJobQueue.processing q = false ->
  List.NoDup (List.map DatabaseJobQueue.id (DatabaseJobQueue.table q)) ->
  synced q ->
  (DatabaseJobQueue.maxConcurrentJobs q
     <= Z.of_nat (DatabaseJobQueue.countStatus DatabaseJobQueue.PROCESSING q) ->
   DatabaseJobQueue.processQueue q now = q)
  /\ (Z.of_nat (DatabaseJobQueue.countStatus DatabaseJobQueue.PROCESSING q)
        < DatabaseJobQueue.maxConcurrentJobs q ->
      (DatabaseJobQueue.findFirstPending (DatabaseJobQueue.table q) = None ->
       (forall r, In r (DatabaseJobQueue.table q) ->
                  DatabaseJobQueue.status r <> DatabaseJobQueue.PENDING)
       /\ DatabaseJobQueue.processQueue q now = q)
      /\ (forall j,
            DatabaseJobQueue.findFirstPending (DatabaseJobQueue.table q) = Some j ->
            In j (DatabaseJobQueue.table q)
            /\ DatabaseJobQueue.status j = DatabaseJobQueue.PENDING
            /\ (forall r, In r (DatabaseJobQueue.table q) ->
                  DatabaseJobQueue.status r = DatabaseJobQueue.PENDING ->
                  DatabaseJobQueue.priorityRank (DatabaseJobQueue.priority r)
                    <= DatabaseJobQueue.priorityRank (DatabaseJobQueue.priority j)
                  /\ (DatabaseJobQueue.priorityRank (DatabaseJobQueue.priority r)
                        = DatabaseJobQueue.priorityRank (DatabaseJobQueue.priority j) ->
                      DatabaseJobQueue.createdAt j <= DatabaseJobQueue.createdAt r))
            /\ In (DatabaseJobQueue.markProcessing now j)
                  (DatabaseJobQueue.table (DatabaseJobQueue.processQueue q now))
            /\ (forall r, In r (DatabaseJobQueue.table q) -> r <> j ->
                  In r (DatabaseJobQueue.table (DatabaseJobQueue.processQueue q now)))
            /\ DatabaseJobQueue.countStatus DatabaseJobQueue.PROCESSING
                 (DatabaseJobQueue.processQueue q now)
               = S (DatabaseJobQueue.countStatus DatabaseJobQueue.PROCESSING q)
            /\ DatabaseJobQueue.dispatched (DatabaseJobQueue.processQueue q now)
               = (DatabaseJobQueue.dispatched q ++ [DatabaseJobQueue.id j])%list
            /\ synced (DatabaseJobQueue.processQueue q now)))
  /\ DatabaseJobQueue.dispatched submittedToBusyQueue
     = ["job-0"; "job-high"; "job-normal"; "job-low"].
Proof.
  intros Hproc Hnd Hsync.
  pose proof (synced_size q Hnd Hsync) as Hsize.
  split; [|split].
  - intros Hcap. unfold DatabaseJobQueue.processQueue. rewrite Hproc. simpl.
    replace (_ >=? _) with true by lia. reflexivity.
  - intros Hcap.
    unfold DatabaseJobQueue.processQueue. rewrite Hproc. simpl.
    replace (_ >=? _) with false by lia.
    split.
    + intros HNone. rewrite HNone. split; [|reflexivity].
      apply findFirstPending_None. exact HNone.
    + intros j HSome. rewrite HSome. simpl.
      destruct (findFirstPending_Some _ _ HSome) as (Hin & Hst & Hbest).
      split; [exact Hin|]. split; [exact Hst|]. split.
      { intros r Hr Hs. apply sortsBefore_false. exact (Hbest r Hr Hs). }
      split.
      { unfold DatabaseJobQueue.update. apply in_map_iff. exists j.
        rewrite String.eqb_refl. split; [reflexivity | exact Hin]. }
      split.
      { intros r Hr Hne. apply update_keeps_other; [exact Hr|].
        intros Hid. apply Hne. eapply NoDup_ids_unique; eauto. }
      split.
      { unfold DatabaseJobQueue.countStatus. simpl.
        apply markProcessing_counts; assumption. }
      split.
      { unfold DatabaseJobQueue.dispatched. simpl.
        rewrite flat_map_app. reflexivity. }
      apply synced_dispatch; assumption.
  - vm_compute. reflexivity.
Qed.

(** Three pending jobs and a free slot: the poll hands out the HIGH job. *)
Lemma poll_dispatches_best_pending_witness :
  DatabaseJobQueue.dispatched (DatabaseJobQueue.processQueue threePending 5)
  = (DatabaseJobQueue.dispatched threePending ++ ["job-high"])%list
  /\ synced (DatabaseJobQueue.processQueue threePending 5).
Proof.
  assert (Hnd : List.NoDup
                  (List.map DatabaseJobQueue.id (DatabaseJobQueue.table threePending))).
  { vm_compute. repeat constructor; simpl; intuition discriminate. }
  assert (Hsync : synced threePending).
  { vm_compute. reflexivity. }
  assert (Hcap : Z.of_nat (DatabaseJobQueue.countStatus DatabaseJobQueue.PROCESSING
                             threePending)
                 < DatabaseJobQueue.maxConcurrentJobs threePending).
  { vm_compute. reflexivity. }
  destruct (poll_dispatches_best_pending threePending 5 eq_refl Hnd Hsync) as [_ [H _]].
  destruct (H Hcap) as [_ Hsome].
  destruct (Hsome highJob eq_refl) as (_ & _ & _ & _ & _ & _ & Hd & Hs).
  split; [exact Hd | exact Hs].
Defined.

(** Submitted to an idle queue of cap 1, the LOW job is handed out by the
    processing check that [addJob] triggers, before the other two exist.
    And a queue object of cap 1 constructed over a table in which a job is
    in PROCESSING hands out the pending job at its first poll: the cap is
    tested on the set of current jobs of the object, which is empty, and
    two jobs are in PROCESSING afterwards. *)
Lemma dispatch_follows_submission_and_the_set_of_current_jobs :
  (DatabaseJobQueue.dispatched submittedToIdleQueue
   = ["job-low"; "job-high"; "job-normal"]
   /\ DatabaseJobQueue.dispatched submittedToIdleQueue
      <> ["job-high"; "job-normal"; "job-low"])
  /\ (DatabaseJobQueue.maxConcurrentJobs restartedQueue = 1
      /\ DatabaseJobQueue.countStatus DatabaseJobQueue.PROCESSING restartedQueue = 1%nat
      /\ statusOf restartedQueue "job-2" = Some DatabaseJobQueue.PENDING
      /\ DatabaseJobQueue.dispatched (DatabaseJobQueue.processQueue restartedQueue 2000)
         = ["job-2"]
      /\ DatabaseJobQueue.countStatus DatabaseJobQueue.PROCESSING
           (DatabaseJobQueue.processQueue restartedQueue 2000) = 2%nat).
Proof. vm_compute. repeat split; try reflexivity. discriminate. Qed.

(** ** Webhooks: signature *)

Section Signature.
Import WebhookManager.
Variable hmacSha256Hex : string -> string -> string.
Variable stringify : Payload -> string.

Lemma validateSignature_iff (payload signature secret : string) :
  validateSignature hmacSha256Hex payload signature secret = true
  <-> signature = String.append "sha256=" (hmacSha256Hex secret payload).
Proof. unfold validateSignature, generateSignature. apply String.eqb_eq. Qed.

Lemma webhookRequest_signature (endpoint : WebhookEndpoint) (delivery : WebhookDelivery) :
  header "X-Webhook-Signature-256" (webhookRequest hmacSha256Hex stringify endpoint delivery)
  = Some (String.append "sha256="
            (hmacSha256Hex (secret endpoint) (stringify (payload delivery)))).
Proof. reflexivity. Qed.
End Signature.

(** C7.  The request of a delivery carries the serialised payload as body
    and, in its signature header, 'sha256=' followed by the hex HMAC-SHA256
    of that body under the endpoint's secret; [validateSignature] accepts a
    signature exactly when it is that string for the payload and secret
    given. *)
Theorem webhook_signature_sent_and_validated
    (hmacSha256Hex : string -> string -> string)
    (stringify : WebhookManager.Payload -> string)
    (fetch : WebhookManager.Request -> WebhookManager.Fetched)
    (endpoint : WebhookManager.WebhookEndpoint)
    (delivery : WebhookManager.WebhookDelivery)
    (payload signature secret : string) :
  let request := WebhookManager.webhookRequest hmacSha256Hex stringify endpoint delivery in
  WebhookManager.sendWebhook hmacSha256Hex stringify fetch endpoint delivery = fetch request
  /\ WebhookManager.body request = stringify (WebhookManager.payload delivery)
  /\ WebhookManager.header "X-Webhook-Signature-256" request
     = Some (String.append "sha256="
               (hmacSha256Hex (WebhookManager.secret endpoint) (WebhookManager.body request)))
  /\ (WebhookManager.validateSignature hmacSha256Hex payload signature secret = true
      <-> signature = String.append "sha256=" (hmacSha256Hex secret payload)).
Proof.
  simpl. repeat split; try reflexivity; apply validateSignature_iff.
Qed.

(** The signature header of a request validates against its body under the
    endpoint's secret. *)
Lemma sent_signature_validates
    (hmacSha256Hex : string -> string -> string)
    (stringify : WebhookManager.Payload -> string)
    (endpoint : WebhookManager.WebhookEndpoint)
    (delivery : WebhookManager.WebhookDelivery) :
  let request := WebhookManager.webhookRequest hmacSha256Hex stringify endpoint delivery in
  exists signature,
    WebhookManager.header "X-Webhook-Signature-256" request = Some signature
    /\ WebhookManager.validateSignature hmacSha256Hex (WebhookManager.body request)
         signature (WebhookManager.secret endpoint) = true.
Proof.
  simpl. eexists. split; [reflexivity|]. apply validateSignature_iff. reflexivity.
Qed.

(** ** Webhooks: failure counting *)

(** C6 (as amended).  A failed attempt on an enabled endpoint adds one to
    the endpoint's failure counter; the endpoint is disabled by that attempt
    exactly when the attempt is the delivery's last one (its attempt count
    reaches the maximum of 5) and the counter has then passed 10. *)
Theorem endpoint_disabled_only_with_exhausted_delivery
    (hmacSha256Hex : string -> string -> string)
    (stringify : WebhookManager.Payload -> string)
    (fetch : WebhookManager.Request -> WebhookManager.Fetched)
    (m : WebhookManager.t) (delivery : WebhookManager.WebhookDelivery)
    (endpoint : WebhookManager.WebhookEndpoint) (now : Z) :
  WebhookManager.endpoints m !! WebhookManager.endpointId delivery = Some endpoint ->
  WebhookManager.enabled endpoint = true ->
  (forall httpStatus statusText,
      WebhookManager.sendWebhook hmacSha256Hex stringify fetch endpoint delivery
      = WebhookManager.Response httpStatus statusText ->
      WebhookManager.ok httpStatus = false) ->
  let after := WebhookManager.attemptDelivery hmacSha256Hex stringify fetch m delivery now in
  exists endpoint',
    WebhookManager.endpoints (fst after) !! WebhookManager.endpointId delivery
    = Some endpoint'
    /\ WebhookManager.failureCount endpoint' = WebhookManager.failureCount endpoint + 1
    /\ WebhookManager.attempts (snd after) = WebhookManager.attempts delivery + 1
    /\ WebhookManager.status (snd after)
       = (if WebhookManager.attempts delivery + 1 <? WebhookManager.MAX_RETRY_ATTEMPTS
          then WebhookManager.retry else WebhookManager.failed)
    /\ (WebhookManager.enabled endpoint' = false
        <-> WebhookManager.MAX_RETRY_ATTEMPTS <= WebhookManager.attempts delivery + 1
            /\ 10 < WebhookManager.failureCount endpoint + 1).
Proof.
  intros Hlook Hen Hfail after. subst after.
  unfold WebhookManager.attemptDelivery. rewrite Hlook, Hen. simpl.
  assert (Hcase : forall message,
    let after := WebhookManager.deliveryFailed m endpoint delivery message now in
    exists endpoint',
      WebhookManager.endpoints (fst after) !! WebhookManager.endpointId delivery
      = Some endpoint'
      /\ WebhookManager.failureCount endpoint' = WebhookManager.failureCount endpoint + 1
      /\ WebhookManager.attempts (snd after) = WebhookManager.attempts delivery + 1
      /\ WebhookManager.status (snd after)
         = (if WebhookManager.attempts delivery + 1 <? WebhookManager.MAX_RETRY_ATTEMPTS
            then WebhookManager.retry else WebhookManager.failed)
      /\ (WebhookManager.enabled endpoint' = false
          <-> WebhookManager.MAX_RETRY_ATTEMPTS <= WebhookManager.attempts delivery + 1
              /\ 10 < WebhookManager.failureCount endpoint + 1)).
  { intros message. unfold WebhookManager.deliveryFailed.
    destruct (WebhookManager.attempts delivery + 1 <? WebhookManager.MAX_RETRY_ATTEMPTS)
      eqn:Hatt; simpl.
    - eexists. split; [apply lookup_insert_eq|]. simpl.
      split; [reflexivity|]. split; [reflexivity|]. split; [reflexivity|].
      split.
      + intros H. rewrite Hen in H. discriminate H.
      + intros [Hmax _]. lia.
    - eexists. split; [apply lookup_insert_eq|]. simpl.
      split; [reflexivity|]. split; [reflexivity|]. split; [reflexivity|].
      split.
      + intros H. split; [lia|].
        destruct (WebhookManager.failureCount endpoint + 1 >? 10) eqn:Hc; [lia|].
        rewrite Hen in H. discriminate H.
      + intros [_ Hc].
        replace (WebhookManager.failureCount endpoint + 1 >? 10) with true by lia.
        reflexivity. }
  destruct (WebhookManager.sendWebhook hmacSha256Hex stringify fetch endpoint delivery)
    as [httpStatus statusText|message] eqn:Hsend.
  - rewrite (Hfail _ _ eq_refl). apply Hcase.
  - apply Hcase.
Qed.

Lemma endpoint_disabled_only_with_exhausted_delivery_witness :
  let after :=
    WebhookManager.attemptDelivery toyHmac toyStringify alwaysFails
      shakyManager freshDelivery 2000 in
  exists endpoint',
    WebhookManager.endpoints (fst after) !! "ep_1" = Some endpoint'
    /\ WebhookManager.failureCount endpoint' = 11
    /\ WebhookManager.attempts (snd after) = 1
    /\ WebhookManager.status (snd after) = WebhookManager.retry
    /\ (WebhookManager.enabled endpoint' = false <-> 5 <= 1 /\ 10 < 11).
Proof.
  apply (endpoint_disabled_only_with_exhausted_delivery toyHmac toyStringify alwaysFails
           shakyManager freshDelivery shakyEndpoint 2000).
  - vm_compute. reflexivity.
  - reflexivity.
  - intros httpStatus statusText H. vm_compute in H. injection H as <- _. reflexivity.
Defined.

(** The attempt that takes the counter of an endpoint from 10 to 11 is the
    first attempt of its delivery: the delivery goes to the retry queue and
    the endpoint stays enabled. *)
Lemma ceiling_passed_with_retries_left_stays_enabled :
  let '(m', d') :=
    WebhookManager.attemptDelivery toyHmac toyStringify alwaysFails
      shakyManager freshDelivery 2000 in
  option_map WebhookManager.failureCount (WebhookManager.endpoints m' !! "ep_1") = Some 11
  /\ option_map WebhookManager.enabled (WebhookManager.endpoints m' !! "ep_1") = Some true
  /\ WebhookManager.attempts d' = 1
  /\ WebhookManager.status d' = WebhookManager.retry
  /\ WebhookManager.nextRetry d' = Some 7000
  /\ WebhookManager.retryQueue m' = [d'].
Proof. vm_compute. repeat split; reflexivity. Qed.

(* ===================================================================== *)
(** * Further properties *)
(* ===================================================================== *)

(** ** Retry handler: what a run does *)

Section RetryRuns.
Import RetryHandler.
Context {W T : Type}.
Variable operation : W -> (JsError + T) * W.
Variable pow : float -> Z -> float.
Variable random : nat -> float.
Variable config : RetryConfig.

Lemma retryLoop_success remaining attempt lastError w r effects w' :
  retryLoop operation pow random config remaining attempt lastError w = (r, effects, w') ->
  success r = true ->
  attempts r = attempt + Z.of_nat (invocations effects) - 1
  /\ invocations effects = S (List.length (thrown effects))
  /\ (exists d, data r = Some d) /\ error r = None.
Proof.
  revert attempt lastError w r effects w'.
  induction remaining as [|remaining IH]; intros attempt lastError w r effects w' E Hs.
  - simpl in E. injection E as <- _ _. discriminate Hs.
  - simpl in E. destruct (operation w) as [[err|d] w1].
    + destruct (attempt >? maxRetries config).
      { injection E as <- _ _. discriminate Hs. }
      destruct (negb _).
      { injection E as <- _ _. discriminate Hs. }
      destruct (retryLoop _ _ _ _ remaining _ _ w1) as [[r1 eff1] w2] eqn:E1.
      injection E as <- <- _.
      destruct (IH _ _ _ _ _ _ E1 Hs) as (Ha & Hi & Hd & He).
      unfold invocations, thrown in *. simpl.
      repeat split; try assumption; lia.
    + injection E as <- <- _. unfold invocations, thrown. simpl.
      repeat split; eauto; lia.
Qed.

(** Sleeps and calls of [onRetry] come in pairs, one pair after each call
    of the operation but the last. *)
Lemma retryLoop_pauses remaining attempt lastError w r effects w' :
  retryLoop operation pow random config remaining attempt lastError w = (r, effects, w') ->
  attempt + Z.of_nat remaining = maxRetries config + 2 ->
  List.length (sleeps effects) = Nat.pred (invocations effects)
  /\ List.length (onRetryCalls effects) = List.length (sleeps effects)
  /\ (remaining <> O -> invocations effects <> O).
Proof.
  revert attempt lastError w r effects w'.
  induction remaining as [|remaining IH]; intros attempt lastError w r effects w' E Hinv.
  - simpl in E. injection E as _ <- _. repeat split; try reflexivity. congruence.
  - simpl in E. destruct (operation w) as [[err|d] w1].
    + destruct (attempt >? maxRetries config) eqn:Hgt.
      { injection E as _ <- _. repeat split; try reflexivity. discriminate. }
      destruct (negb _).
      { injection E as _ <- _. repeat split; try reflexivity. discriminate. }
      destruct (retryLoop _ _ _ _ remaining _ _ w1) as [[r1 eff1] w2] eqn:E1.
      injection E as _ <- _.
      assert (Hinv' : attempt + 1 + Z.of_nat remaining = maxRetries config + 2) by lia.
      destruct (IH _ _ _ _ _ _ E1 Hinv') as (Hs & Ho & Hn).
      assert (Hrem : remaining <> O) by lia.
      specialize (Hn Hrem).
      change (S (List.length (sleeps eff1)) = Nat.pred (S (invocations eff1))
              /\ S (List.length (onRetryCalls eff1)) = S (List.length (sleeps eff1))
              /\ (S remaining <> O -> S (invocations eff1) <> O)).
      rewrite Ho, Hs. simpl.
      split; [|split; [reflexivity | discriminate]].
      destruct (invocations eff1); [congruence | reflexivity].
    + injection E as _ <- _. repeat split; try reflexivity. discriminate.
Qed.

(** [onFinalFailure] is called by the last iteration only. *)
Lemma retryLoop_finalFailure remaining attempt lastError w r effects w' :
  retryLoop operation pow random config remaining attempt lastError w = (r, effects, w') ->
  attempt + Z.of_nat remaining = maxRetries config + 2 ->
  forall e a,
    In (e, a) (onFinalFailureCalls effects) ->
    a = maxRetries config + 1
    /\ invocations effects = remaining
    /\ success r = false /\ error r = Some e
    /\ onFinalFailureCalls effects = [(e, a)].
Proof.
  revert attempt lastError w r effects w'.
  induction remaining as [|remaining IH]; intros attempt lastError w r effects w' E Hinv e a Hin.
  - simpl in E. injection E as _ <- _. destruct Hin.
  - simpl in E. destruct (operation w) as [[err|d] w1].
    + destruct (attempt >? maxRetries config) eqn:Hgt.
      { injection E as <- <- _. simpl in Hin. destruct Hin as [[= <- <-]|[]].
        assert (remaining = O) by lia. subst remaining.
        repeat split; try reflexivity. lia. }
      destruct (negb _).
      { injection E as _ <- _. destruct Hin. }
      destruct (retryLoop _ _ _ _ remaining _ _ w1) as [[r1 eff1] w2] eqn:E1.
      injection E as <- <- _.
      assert (Hinv' : attempt + 1 + Z.of_nat remaining = maxRetries config + 2) by lia.
      change (In (e, a) (onFinalFailureCalls eff1)) in Hin.
      destruct (IH _ _ _ _ _ _ E1 Hinv' e a Hin) as (Ha & Hi & Hs & He & Ho).
      unfold invocations in *. simpl. rewrite Hi.
      repeat split; assumption.
    + injection E as _ <- _. destruct Hin.
Qed.

(** A failure that used up all the iterations went through [onFinalFailure]. *)
Lemma retryLoop_exhausted remaining attempt lastError w r effects w' :
  retryLoop operation pow random config remaining attempt lastError w = (r, effects, w') ->
  attempt + Z.of_nat remaining = maxRetries config + 2 ->
  success r = false ->
  invocations effects = remaining ->
  remaining <> O ->
  exists e, onFinalFailureCalls effects = [(e, maxRetries config + 1)].
Proof.
  revert attempt lastError w r effects w'.
  induction remaining as [|remaining IH];
    intros attempt lastError w r effects w' E Hinv Hf Hn Hpos; [congruence|].
  simpl in E. destruct (operation w) as [[err|d] w1].
  - destruct (attempt >? maxRetries config) eqn:Hgt.
    { injection E as _ <- _. exists err. simpl. do 2 f_equal. lia. }
    assert (Hrem : remaining <> O) by lia.
    destruct (negb _).
    { injection E as _ <- _. unfold invocations in Hn. simpl in Hn. lia. }
    destruct (retryLoop _ _ _ _ remaining _ _ w1) as [[r1 eff1] w2] eqn:E1.
    injection E as <- <- _.
    assert (Hinv' : attempt + 1 + Z.of_nat remaining = maxRetries config + 2) by lia.
    unfold invocations in Hn. simpl in Hn.
    apply (IH _ _ _ _ _ _ E1 Hinv' Hf); [unfold invocations; lia | exact Hrem].
  - injection E as <- _ _. discriminate Hf.
Qed.

(** An operation that keeps throwing retryable errors is called on every
    iteration. *)
Lemma retryLoop_all_retryable remaining attempt lastError w r effects w' :
  (forall w0, exists e w1,
      operation w0 = (inl e, w1)
      /\ isRetryableError e config (classifyError e) = true) ->
  retryLoop operation pow random config remaining attempt lastError w = (r, effects, w') ->
  attempt + Z.of_nat remaining = maxRetries config + 2 ->
  invocations effects = remaining /\ success r = false.
Proof.
  intros Hop. revert attempt lastError w r effects w'.
  induction remaining as [|remaining IH]; intros attempt lastError w r effects w' E Hinv.
  - simpl in E. injection E as <- <- _. split; reflexivity.
  - simpl in E. destruct (Hop w) as (e & w1 & Hw & Hr). rewrite Hw in E.
    destruct (attempt >? maxRetries config) eqn:Hgt.
    { injection E as <- <- _. unfold invocations. simpl.
      split; [|reflexivity]. f_equal. lia. }
    rewrite Hr in E. simpl in E.
    destruct (retryLoop _ _ _ _ remaining _ _ w1) as [[r1 eff1] w2] eqn:E1.
    injection E as <- <- _.
    assert (Hinv' : attempt + 1 + Z.of_nat remaining = maxRetries config + 2) by lia.
    destruct (IH _ _ _ _ _ _ E1 Hinv') as [Hi Hs].
    unfold invocations in *. simpl. rewrite Hi. split; [reflexivity | exact Hs].
Qed.
End RetryRuns.

(** X1.  A successful run reports in [attempts] the number of calls of the
    operation it made, between 1 and [maxRetries + 1]; all calls before the
    last one threw, and the result carries the data and no error. *)
Theorem successful_run_reports_its_calls
    {W T : Type} (operation : W -> (RetryHandler.JsError + T) * W)
    (pow : float -> Z -> float)
    (random : nat -> float) (config : RetryHandler.RetryConfig) (w : W)
    (r : RetryHandler.RetryResult T) (effects : list RetryHandler.Effect) (w' : W) :
  RetryHandler.executeWithRetry operation pow random config w = (r, effects, w') ->
  RetryHandler.success r = true ->
  RetryHandler.attempts r = Z.of_nat (RetryHandler.invocations effects)
  /\ 1 <= RetryHandler.attempts r <= RetryHandler.maxRetries config + 1
  /\ Z.of_nat (List.length (RetryHandler.thrown effects)) = RetryHandler.attempts r - 1
  /\ (exists d, RetryHandler.data r = Some d)
  /\ RetryHandler.error r = None.
Proof.
  unfold RetryHandler.executeWithRetry. intros E Hs.
  destruct (retryLoop_success _ _ _ _ _ _ _ _ _ _ _ E Hs) as (Ha & Hi & Hd & He).
  destruct (Z_le_gt_dec 0 (RetryHandler.maxRetries config + 1)) as [Hle|Hgt].
  - destruct (retryLoop_bounds _ _ _ _ _ _ _ _ _ _ _ E ltac:(lia)) as [Hb _].
    repeat split; try assumption; lia.
  - assert (Hz : Z.to_nat (RetryHandler.maxRetries config + 1) = 0%nat) by lia.
    rewrite Hz in E. simpl in E. injection E as <- _ _. discriminate Hs.
Qed.

Lemma successful_run_reports_its_calls_witness :
  let run :=
    RetryHandler.executeWithRetry throwsThenReturns repeatedProduct noJitter
      RetryHandler.defaultConfig
      ["net::ERR_CONNECTION_RESET"; "network unreachable"] in
  RetryHandler.attempts (fst (fst run)) = Z.of_nat (RetryHandler.invocations (snd (fst run)))
  /\ RetryHandler.attempts (fst (fst run)) = 3.
Proof.
  split; [|reflexivity].
  exact (proj1 (successful_run_reports_its_calls throwsThenReturns repeatedProduct noJitter
                  RetryHandler.defaultConfig
                  ["net::ERR_CONNECTION_RESET"; "network unreachable"]
                  _ _ _ eq_refl eq_refl)).
Defined.

(** X2.  [onFinalFailure] is called at most once, with the error returned
    and the attempt number [maxRetries + 1], and only by a run that called
    the operation [maxRetries + 1] times: a run ended earlier by an error
    that is not retryable does not call it; a failed run that did make
    [maxRetries + 1] calls does. *)
Theorem final_failure_callback_only_on_exhaustion
    {W T : Type} (operation : W -> (RetryHandler.JsError + T) * W)
    (pow : float -> Z -> float)
    (random : nat -> float) (config : RetryHandler.RetryConfig) (w : W)
    (r : RetryHandler.RetryResult T) (effects : list RetryHandler.Effect) (w' : W) :
  RetryHandler.executeWithRetry operation pow random config w = (r, effects, w') ->
  (forall e a, In (e, a) (onFinalFailureCalls effects) ->
     a = RetryHandler.maxRetries config + 1
     /\ Z.of_nat (RetryHandler.invocations effects) = RetryHandler.maxRetries config + 1
     /\ RetryHandler.success r = false
     /\ RetryHandler.error r = Some e
     /\ onFinalFailureCalls effects = [(e, a)])
  /\ (Z.of_nat (RetryHandler.invocations effects) < RetryHandler.maxRetries config + 1 ->
      onFinalFailureCalls effects = [])
  /\ (RetryHandler.success r = false ->
      0 <= RetryHandler.maxRetries config ->
      Z.of_nat (RetryHandler.invocations effects) = RetryHandler.maxRetries config + 1 ->
      exists e, onFinalFailureCalls effects = [(e, RetryHandler.maxRetries config + 1)]).
Proof.
  unfold RetryHandler.executeWithRetry. intros E.
  assert (Hall : forall e a, In (e, a) (onFinalFailureCalls effects) ->
     a = RetryHandler.maxRetries config + 1
     /\ Z.of_nat (RetryHandler.invocations effects) = RetryHandler.maxRetries config + 1
     /\ RetryHandler.success r = false
     /\ RetryHandler.error r = Some e
     /\ onFinalFailureCalls effects = [(e, a)]).
  { intros e a Hin.
    destruct (Z_le_gt_dec 0 (RetryHandler.maxRetries config + 1)) as [Hle|Hgt].
    - destruct (retryLoop_finalFailure _ _ _ _ _ _ _ _ _ _ _ E ltac:(lia) e a Hin)
        as (Ha & Hi & Hs & He & Ho).
      repeat split; try assumption. lia.
    - assert (Hz : Z.to_nat (RetryHandler.maxRetries config + 1) = 0%nat) by lia.
      rewrite Hz in E. simpl in E. injection E as _ <- _. destruct Hin. }
  split; [exact Hall|]. split.
  - intros Hlt. destruct (onFinalFailureCalls effects) as [|[e a] l] eqn:Ho; [reflexivity|].
    destruct (Hall e a ltac:(left; reflexivity)) as (_ & Hi & _). lia.
  - intros Hf Hm Hn.
    eapply retryLoop_exhausted; eauto; lia.
Qed.

Lemma final_failure_callback_only_on_exhaustion_witness :
  onFinalFailureCalls
    (snd (fst (RetryHandler.executeWithRetry (alwaysThrows "Captcha detected on page")
                 repeatedProduct noJitter RetryHandler.defaultConfig 0%nat))) = [].
Proof.
  apply (proj1 (proj2 (final_failure_callback_only_on_exhaustion
                         (alwaysThrows "Captcha detected on page") repeatedProduct noJitter
                         RetryHandler.defaultConfig 0%nat _ _ _ eq_refl))).
  vm_compute. reflexivity.
Defined.

(** X3.  A run that calls the operation at all is a sequence of rounds, one
    for each failed call that is retried (the call, then [onRetry], then
    one sleep), followed by the last call, which has [onFinalFailure]
    after it when the retries are used up.  So one sleep and one call of
    [onRetry] stand between a call and the next one, and no sleep follows
    the last call. *)
Theorem one_pause_between_calls
    {W T : Type} (operation : W -> (RetryHandler.JsError + T) * W)
    (pow : float -> Z -> float)
    (random : nat -> float) (config : RetryHandler.RetryConfig) (w : W)
    (r : RetryHandler.RetryResult T) (effects : list RetryHandler.Effect) (w' : W) :
  RetryHandler.executeWithRetry operation pow random config w = (r, effects, w') ->
  (effects = []
   \/ exists errors last,
        effects = (retryRounds pow random config 1 errors ++ last)%list
        /\ lastCall config r (1 + Z.of_nat (List.length errors)) last)
  /\ List.length (RetryHandler.sleeps effects) = Nat.pred (RetryHandler.invocations effects)
  /\ List.length (onRetryCalls effects) = List.length (RetryHandler.sleeps effects).
Proof.
  intros E. split.
  - destruct (Z_le_gt_dec 0 (RetryHandler.maxRetries config)) as [Hle|Hgt].
    + right. destruct (executeWithRetry_shape _ _ _ _ _ _ _ _ E Hle)
        as (errors & last & He & _ & Hl).
      exists errors, last. split; assumption.
    + left. unfold RetryHandler.executeWithRetry in E.
      assert (Hz : Z.to_nat (RetryHandler.maxRetries config + 1) = 0%nat) by lia.
      rewrite Hz in E. simpl in E. injection E as _ <- _. reflexivity.
  - unfold RetryHandler.executeWithRetry in E.
    destruct (Z_le_gt_dec 0 (RetryHandler.maxRetries config + 1)) as [Hle|Hgt].
    + destruct (retryLoop_pauses _ _ _ _ _ _ _ _ _ _ _ E ltac:(lia)) as (Hs & Ho & _).
      split; assumption.
    + assert (Hz : Z.to_nat (RetryHandler.maxRetries config + 1) = 0%nat) by lia.
      rewrite Hz in E. simpl in E. injection E as _ <- _. split; reflexivity.
Qed.

Lemma one_pause_between_calls_witness :
  let '(r, effects, _) :=
    RetryHandler.executeWithRetry (alwaysThrows "Navigation timeout")
      repeatedProduct noJitter RetryHandler.defaultConfig 0%nat in
  (effects = []
   \/ exists errors last,
        effects
        = (retryRounds repeatedProduct noJitter RetryHandler.defaultConfig 1 errors
           ++ last)%list
        /\ lastCall RetryHandler.defaultConfig r (1 + Z.of_nat (List.length errors)) last)
  /\ List.length (RetryHandler.sleeps effects) = Nat.pred (RetryHandler.invocations effects)
  /\ List.length (onRetryCalls effects) = List.length (RetryHandler.sleeps effects).
Proof.
  destruct (RetryHandler.executeWithRetry (alwaysThrows "Navigation timeout")
              repeatedProduct noJitter RetryHandler.defaultConfig 0%nat)
    as [[r effects] calls] eqn:E.
  exact (one_pause_between_calls (alwaysThrows "Navigation timeout") repeatedProduct
           noJitter RetryHandler.defaultConfig 0%nat r effects calls E).
Defined.

(** X4.  When every call of the operation throws an error that is
    retryable (by a configured pattern or by its class), the run consists
    of [maxRetries] rounds, each a call with [onRetry] and the sleep that
    follows it, and of a last call that throws as well, after which
    [onFinalFailure] is called: the operation is called [maxRetries + 1]
    times, with a sleep between each call and the next, and the run
    fails. *)
Theorem retryable_errors_use_all_attempts
    {W T : Type} (operation : W -> (RetryHandler.JsError + T) * W)
    (pow : float -> Z -> float)
    (random : nat -> float) (config : RetryHandler.RetryConfig) (w : W)
    (r : RetryHandler.RetryResult T) (effects : list RetryHandler.Effect) (w' : W) :
  (forall w0, exists e w1,
      operation w0 = (inl e, w1)
      /\ RetryHandler.isRetryableError e config (RetryHandler.classifyError e) = true) ->
  0 <= RetryHandler.maxRetries config ->
  RetryHandler.executeWithRetry operation pow random config w = (r, effects, w') ->
  (exists errors e,
     effects
     = (retryRounds pow random config 1 errors
        ++ [RetryHandler.Invoke (Some e);
            RetryHandler.OnFinalFailure e (RetryHandler.maxRetries config + 1)])%list
     /\ Z.of_nat (List.length errors) = RetryHandler.maxRetries config)
  /\ Z.of_nat (RetryHandler.invocations effects) = RetryHandler.maxRetries config + 1
  /\ Z.of_nat (List.length (RetryHandler.sleeps effects)) = RetryHandler.maxRetries config
  /\ RetryHandler.success r = false.
Proof.
  intros Hop Hm E.
  assert (Hcounts :
    Z.of_nat (RetryHandler.invocations effects) = RetryHandler.maxRetries config + 1
    /\ Z.of_nat (List.length (RetryHandler.sleeps effects)) = RetryHandler.maxRetries config
    /\ RetryHandler.success r = false).
  { unfold RetryHandler.executeWithRetry in E.
    destruct (retryLoop_all_retryable _ _ _ _ _ _ _ _ _ _ _ Hop E ltac:(lia)) as [Hi Hs].
    destruct (retryLoop_pauses _ _ _ _ _ _ _ _ _ _ _ E ltac:(lia)) as (Hp & _ & _).
    split; [lia|]. split; [lia | exact Hs]. }
  split; [|exact Hcounts]. destruct Hcounts as (Hi & _ & Hs).
  destruct (executeWithRetry_shape _ _ _ _ _ _ _ _ E Hm) as (errors & last & He & _ & Hl).
  rewrite He, invocations_app, invocations_retryRounds in Hi.
  destruct Hl as [(_ & Hok & _)|[(e & -> & _ & Hc & _)|(e & -> & Hc & _)]].
  - rewrite Hok in Hs. discriminate Hs.
  - unfold RetryHandler.invocations in Hi at 1. simpl in Hi. lia.
  - exists errors, e. split; [exact He | lia].
Qed.

Lemma retryable_errors_use_all_attempts_witness :
  let run :=
    RetryHandler.executeWithRetry (T := unit)
      (alwaysThrows "ProtocolError: captcha frame detached")
      repeatedProduct noJitter RetryHandler.defaultConfig 0%nat in
  RetryHandler.classifyError
    {| RetryHandler.message := "ProtocolError: captcha frame detached" |}
  = RetryHandler.CAPTCHA
  /\ (exists errors e,
        snd (fst run)
        = (retryRounds repeatedProduct noJitter RetryHandler.defaultConfig 1 errors
           ++ [RetryHandler.Invoke (Some e); RetryHandler.OnFinalFailure e 4])%list
        /\ Z.of_nat (List.length errors) = 3).
Proof.
  split; [reflexivity|].
  refine (proj1 (retryable_errors_use_all_attempts
                   (alwaysThrows "ProtocolError: captcha frame detached")
                   repeatedProduct noJitter
                   RetryHandler.defaultConfig 0%nat _ _ _ _ _ eq_refl)).
  - intros w0. eexists. eexists. split; reflexivity.
  - simpl. lia.
Defined.

(** ** Circuit breaker: counting and rejecting *)

Section BreakerRuns.
Import RetryHandler.
Context {W T : Type}.
Variables maxFailures resetTimeout : Z.
Variable operation : W -> (JsError + T) * W.

Lemma executeMany_closed_counts (clock : list (Z * Z)) (b : Breaker) (w : W)
    b' outcomes w' :
  executeMany maxFailures resetTimeout operation b clock w = (b', outcomes, w') ->
  state b = closed ->
  failures b + Z.of_nat (threwCount outcomes) < maxFailures ->
  state b' = closed
  /\ failures b' = failures b + Z.of_nat (threwCount outcomes)
  /\ ~ In Rejected outcomes.
Proof.
  revert b w b' outcomes w'.
  induction clock as [|[now failTime] clock IH]; intros b w b' outcomes w' E Hs Hlt.
  - simpl in E. injection E as <- <- _. unfold threwCount. simpl.
    split; [exact Hs|]. split; [lia | intros []].
  - simpl in E.
    destruct (execute maxFailures resetTimeout operation b now failTime w)
      as [[b1 o] w1] eqn:E1.
    destruct (executeMany maxFailures resetTimeout operation b1 clock w1)
      as [[b2 os] w2] eqn:E2.
    injection E as <- <- _.
    unfold execute in E1. rewrite Hs in E1. simpl in E1.
    destruct (operation w) as [[e|x] w0].
    + rewrite !Hs in E1. injection E1 as <- <- <-.
      unfold threwCount in Hlt. simpl in Hlt. fold (threwCount os) in Hlt.
      assert (Hc : (failures b + 1 >=? maxFailures) = false) by lia.
      rewrite Hc in E2.
      destruct (IH _ _ _ _ _ E2 eq_refl ltac:(simpl; lia)) as (H1 & H2 & H3).
      simpl in H2. unfold threwCount. simpl. fold (threwCount os).
      split; [exact H1|]. split; [lia|].
      intros [Hr|Hr]; [discriminate Hr | exact (H3 Hr)].
    + rewrite !Hs in E1. simpl in E1. injection E1 as <- <- <-.
      unfold threwCount in Hlt. simpl in Hlt. fold (threwCount os) in Hlt.
      destruct (IH _ _ _ _ _ E2 Hs Hlt) as (H1 & H2 & H3).
      unfold threwCount. simpl. fold (threwCount os).
      split; [exact H1|]. split; [exact H2|].
      intros [Hr|Hr]; [discriminate Hr | exact (H3 Hr)].
Qed.

Lemma executeMany_open_rejects (clock : list (Z * Z)) (b : Breaker) (w : W) :
  state b = open ->
  (forall now failTime, In (now, failTime) clock ->
     now - lastFailureTime b <= resetTimeout) ->
  executeMany maxFailures resetTimeout operation b clock w
  = (b, List.repeat Rejected (List.length clock), w).
Proof.
  intros Hs. induction clock as [|[now failTime] clock IH]; intros Hin; [reflexivity|].
  simpl. rewrite (execute_open_rejects _ _ _ _ _ _ _ Hs).
  - rewrite IH; [reflexivity|]. intros n f H. apply (Hin n f). right. exact H.
  - apply (Hin now failTime). left. reflexivity.
Qed.
End BreakerRuns.

(** X5.  While the breaker is closed its counter adds up all failures,
    whether or not successes come between them: as long as the failures
    counted stay below the threshold the breaker stays closed, no call is
    rejected, and a success leaves the counter as it is. *)
Theorem closed_breaker_counts_all_failures
    {W T : Type} (maxFailures resetTimeout : Z)
    (operation : W -> (RetryHandler.JsError + T) * W)
    (clock : list (Z * Z)) (b : RetryHandler.Breaker) (w : W) b' outcomes w' :
  RetryHandler.executeMany maxFailures resetTimeout operation b clock w
  = (b', outcomes, w') ->
  RetryHandler.state b = RetryHandler.closed ->
  RetryHandler.failures b + Z.of_nat (threwCount outcomes) < maxFailures ->
  RetryHandler.state b' = RetryHandler.closed
  /\ RetryHandler.failures b' = RetryHandler.failures b + Z.of_nat (threwCount outcomes)
  /\ ~ In RetryHandler.Rejected outcomes.
Proof. apply executeMany_closed_counts. Qed.

Lemma closed_breaker_counts_all_failures_witness :
  let run :=
    RetryHandler.executeMany 5 60000 scripted RetryHandler.createCircuitBreaker
      [(0, 0); (1, 1); (2, 2); (3, 3); (4, 4)] [false; true; false; true; true] in
  RetryHandler.state (fst (fst run)) = RetryHandler.closed
  /\ RetryHandler.failures (fst (fst run)) = 2.
Proof.
  destruct (closed_breaker_counts_all_failures 5 60000 scripted
              [(0, 0); (1, 1); (2, 2); (3, 3); (4, 4)]
              RetryHandler.createCircuitBreaker [false; true; false; true; true]
              _ _ _ eq_refl eq_refl) as (H1 & H2 & _).
  - vm_compute. reflexivity.
  - split; [exact H1 | exact H2].
Defined.

(** X6.  A closed breaker whose counter is [n] failures short of the
    threshold is open after [n] more calls that all fail. *)
Theorem breaker_opens_at_threshold
    {W T : Type} (maxFailures resetTimeout : Z)
    (operation : W -> (RetryHandler.JsError + T) * W)
    (clock : list (Z * Z)) (b : RetryHandler.Breaker) (w : W) :
  (forall w0, exists e w1, operation w0 = (inl e, w1)) ->
  RetryHandler.state b = RetryHandler.closed ->
  (0 < List.length clock)%nat ->
  RetryHandler.failures b + Z.of_nat (List.length clock) = maxFailures ->
  RetryHandler.state
    (fst (fst (RetryHandler.executeMany maxFailures resetTimeout operation b clock w)))
  = RetryHandler.open.
Proof. apply executeMany_failures_open. Qed.

Lemma breaker_opens_at_threshold_witness :
  RetryHandler.state
    (fst (fst (RetryHandler.executeMany (T := unit) 3 1000 (alwaysThrows "boom")
                 RetryHandler.createCircuitBreaker [(0, 0); (5, 6); (9, 9)] 0%nat)))
  = RetryHandler.open.
Proof.
  apply (breaker_opens_at_threshold 3 1000 (alwaysThrows "boom")
           [(0, 0); (5, 6); (9, 9)] RetryHandler.createCircuitBreaker 0%nat).
  - intros w0. eexists. eexists. reflexivity.
  - reflexivity.
  - simpl. lia.
  - reflexivity.
Defined.

(** X7.  While the breaker is open, every call made before the reset
    timeout has elapsed since the last failure is rejected: the operation
    is not run (the world it acts on is unchanged) and the breaker keeps
    its state, counter and last failure time. *)
Theorem open_breaker_rejects_until_timeout
    {W T : Type} (maxFailures resetTimeout : Z)
    (operation : W -> (RetryHandler.JsError + T) * W)
    (clock : list (Z * Z)) (b : RetryHandler.Breaker) (w : W) :
  RetryHandler.state b = RetryHandler.open ->
  (forall now failTime, In (now, failTime) clock ->
     now - RetryHandler.lastFailureTime b <= resetTimeout) ->
  RetryHandler.executeMany maxFailures resetTimeout operation b clock w
  = (b, List.repeat RetryHandler.Rejected (List.length clock), w).
Proof. apply executeMany_open_rejects. Qed.

Lemma open_breaker_rejects_until_timeout_witness :
  let b := {| RetryHandler.failures := 5; RetryHandler.lastFailureTime := 4;
              RetryHandler.state := RetryHandler.open |} in
  RetryHandler.executeMany (T := unit) 5 60000 (alwaysThrows "boom") b
    [(1000, 1000); (60004, 60004)] 5%nat
  = (b, [RetryHandler.Rejected; RetryHandler.Rejected], 5%nat).
Proof.
  apply (open_breaker_rejects_until_timeout (T := unit) 5 60000 (alwaysThrows "boom")
           [(1000, 1000); (60004, 60004)]).
  - reflexivity.
  - intros now failTime [[= <- <-]|[[= <- <-]|[]]]; simpl; lia.
Defined.

(** ** Rate limiter: sequences of calls and the remaining budget *)

Section Budget.
Import RateLimiter.

Lemma filter_length_mono (f g : Z -> bool) (xs : list Z) :
  (forall x, f x = true -> g x = true) ->
  (List.length (List.filter f xs) <= List.length (List.filter g xs))%nat.
Proof.
  intros H. induction xs as [|x xs IH]; [reflexivity|].
  simpl. destruct (f x) eqn:Hf.
  - rewrite (H x Hf). simpl. lia.
  - destruct (g x); simpl; lia.
Qed.

Lemma filter_idem (f : Z -> bool) (xs : list Z) :
  List.filter f (List.filter f xs) = List.filter f xs.
Proof.
  induction xs as [|x xs IH]; [reflexivity|].
  simpl. destruct (f x) eqn:Hf; [|exact IH].
  simpl. rewrite Hf, IH. reflexivity.
Qed.

(** Records only leave the window as time goes on. *)
Lemma recordedInWindow_antitone (l : t) (t1 t2 : Z) :
  t1 <= t2 -> (recordedInWindow l t2 <= recordedInWindow l t1)%nat.
Proof.
  intros H. unfold recordedInWindow. apply filter_length_mono.
  intros x. unfold inWindow. lia.
Qed.

Lemma sequentialWaits_cons (l : t) (clock c : Z) (calls : list Z) :
  sequentialWaits l clock (c :: calls)
  = let '(l1, s) := wait l (Z.max clock c) in
    let '(l2, out) := sequentialWaits l1 (resumeTime (Z.max clock c) s) calls in
    (l2, resumeTime (Z.max clock c) s :: out).
Proof. reflexivity. Qed.

Lemma sequentialWaits_bound (calls : list Z) (l : t) (clock : Z) :
  1 <= maxRequests l ->
  Z.of_nat (recordedInWindow l clock) <= maxRequests l ->
  let '(l', out) := sequentialWaits l clock calls in
  maxRequests l' = maxRequests l /\ windowMs l' = windowMs l
  /\ Z.of_nat (recordedInWindow l' (List.last out clock)) <= maxRequests l
  /\ List.length out = List.length calls
  /\ clock <= List.last out clock.
Proof.
  revert l clock. induction calls as [|c calls IH]; intros l clock Hmax Hin.
  - simpl. repeat split; try reflexivity; try assumption; lia.
  - rewrite sequentialWaits_cons.
    destruct (wait l (Z.max clock c)) as [l1 s] eqn:Ew.
    destruct (sequentialWaits l1 (resumeTime (Z.max clock c) s) calls) as [l2 out] eqn:Es.
    pose proof (wait_sequential_bound l (Z.max clock c) Hmax) as Hb.
    rewrite Ew in Hb. simpl in Hb.
    assert (Hm1 : maxRequests l1 = maxRequests l)
      by (unfold wait, enter, resume in Ew; injection Ew as <- _; reflexivity).
    assert (Hw1 : windowMs l1 = windowMs l)
      by (unfold wait, enter, resume in Ew; injection Ew as <- _; reflexivity).
    assert (Hin' : Z.of_nat (recordedInWindow l (Z.max clock c)) <= maxRequests l).
    { pose proof (recordedInWindow_antitone l clock (Z.max clock c) ltac:(lia)). lia. }
    specialize (Hb Hin').
    assert (Hres : Z.max clock c <= resumeTime (Z.max clock c) s).
    { unfold wait, enter in Ew. injection Ew as _ <-.
      destruct (_ >=? _); [|simpl; lia].
      destruct (minimum _); [|simpl; lia].
      destruct (_ >? 0) eqn:Hp; simpl; lia. }
    specialize (IH l1 (resumeTime (Z.max clock c) s)).
    rewrite Es in IH. rewrite Hm1 in IH.
    pose proof (IH Hmax Hb) as IH'. simpl in IH'.
    destruct IH' as (H1 & H2 & H3 & H4 & H5).
    cbv beta iota zeta.
    split; [lia|]. split; [congruence|].
    assert (Hlast : List.last (resumeTime (Z.max clock c) s :: out) clock
                    = List.last out (resumeTime (Z.max clock c) s)).
    { clear. generalize (resumeTime (Z.max clock c) s) as x.
      induction out as [|y out IHo]; intros x; [reflexivity|].
      change (List.last (y :: out) clock = List.last (y :: out) x).
      apply last_nonempty_default. }
    rewrite Hlast. split; [exact H3|]. split; [simpl; lia | lia].
Qed.

Lemma enter_suspends_iff_full (l : t) (now : Z) :
  0 < windowMs l ->
  (snd (enter l now) = NoSuspension
   <-> Z.of_nat (recordedInWindow l now) < maxRequests l).
Proof.
  intros Hw. unfold enter, recordedInWindow. simpl.
  remember (List.filter (inWindow (windowMs l) now) (requests l)) as kept eqn:Hkept.
  destruct (Z.of_nat (List.length kept) >=? maxRequests l) eqn:Hfull.
  - apply Z.geb_le in Hfull.
    destruct (minimum kept) as [m|] eqn:Hm.
    + pose proof (minimum_In _ _ Hm) as HmIn.
      assert (Hin : inWindow (windowMs l) now m = true)
        by (rewrite Hkept in HmIn; exact (filter_In_true _ _ _ HmIn)).
      unfold inWindow in Hin.
      replace (windowMs l - (now - m) >? 0) with true by lia.
      split; [discriminate | lia].
    + split; [discriminate | lia].
  - split; [|reflexivity]. intros _.
    destruct (Z.geb_spec (Z.of_nat (List.length kept)) (maxRequests l)); [discriminate|lia].
Qed.
End Budget.

(** X8.  For a limiter that allows at least one request, calls of [wait]
    made one after the other (each started once the previous one has
    resumed) keep the bound: whenever a call resumes, at most [maxRequests]
    recorded timestamps lie in the window ending at that moment. *)
Theorem sequential_waits_keep_the_bound
    (calls : list Z) (l : RateLimiter.t) (clock : Z) :
  1 <= RateLimiter.maxRequests l ->
  Z.of_nat (RateLimiter.recordedInWindow l clock) <= RateLimiter.maxRequests l ->
  let after := RateLimiter.sequentialWaits l clock calls in
  Z.of_nat (RateLimiter.recordedInWindow (fst after) (List.last (snd after) clock))
    <= RateLimiter.maxRequests l
  /\ List.length (snd after) = List.length calls.
Proof.
  intros Hmax Hin after. subst after.
  pose proof (sequentialWaits_bound calls l clock Hmax Hin) as H.
  destruct (RateLimiter.sequentialWaits l clock calls) as [l' out].
  simpl. tauto.
Qed.

Lemma sequential_waits_keep_the_bound_witness :
  let after := RateLimiter.sequentialWaits (RateLimiter.create 2 100) 0 [0; 10; 20; 30; 500] in
  Z.of_nat (RateLimiter.recordedInWindow (fst after) (List.last (snd after) 0)) <= 2
  /\ List.length (snd after) = 5%nat.
Proof.
  apply (sequential_waits_keep_the_bound [0; 10; 20; 30; 500] (RateLimiter.create 2 100) 0).
  - simpl. lia.
  - vm_compute. discriminate.
Defined.

(** X9.  For a positive window, [getRemainingRequests] tells what [wait]
    will do: with a remaining budget of zero a call of [wait] at that
    moment is suspended; with a positive budget it goes through at once,
    and the budget read afterwards is one less. *)
Theorem remaining_budget_predicts_wait (l : RateLimiter.t) (now : Z) :
  0 < RateLimiter.windowMs l ->
  let remaining := snd (RateLimiter.getRemainingRequests l now) in
  0 <= remaining
  /\ (remaining = 0 <-> snd (RateLimiter.wait l now) <> RateLimiter.NoSuspension)
  /\ (0 < remaining ->
      snd (RateLimiter.getRemainingRequests (fst (RateLimiter.wait l now)) now)
      = remaining - 1).
Proof.
  intros Hw remaining. subst remaining.
  pose proof (enter_suspends_iff_full l now Hw) as Hiff.
  assert (Hs : snd (RateLimiter.wait l now) = snd (RateLimiter.enter l now)) by reflexivity.
  rewrite Hs. unfold RateLimiter.recordedInWindow in Hiff.
  unfold RateLimiter.getRemainingRequests. simpl.
  set (n := Z.of_nat (List.length
                        (List.filter (RateLimiter.inWindow (RateLimiter.windowMs l) now)
                                     (RateLimiter.requests l)))) in *.
  split; [lia|]. split.
  - split.
    + intros H0 Hn. apply Hiff in Hn. lia.
    + intros Hn. destruct (Z_lt_dec n (RateLimiter.maxRequests l)) as [Hlt|Hge]; [|lia].
      exfalso. apply Hn. apply Hiff. exact Hlt.
  - intros Hpos. rewrite List.filter_app, filter_idem, List.length_app. simpl.
    unfold RateLimiter.inWindow at 2.
    replace (now - now <? RateLimiter.windowMs l) with true by lia.
    simpl. fold n. lia.
Qed.

Lemma remaining_budget_predicts_wait_witness :
  let l := fst (RateLimiter.wait (RateLimiter.create 2 100) 0) in
  snd (RateLimiter.getRemainingRequests l 10) = 1
  /\ snd (RateLimiter.getRemainingRequests (fst (RateLimiter.wait l 10)) 10) = 1 - 1.
Proof.
  split; [reflexivity|].
  refine (proj2 (proj2 (remaining_budget_predicts_wait
                          (fst (RateLimiter.wait (RateLimiter.create 2 100) 0)) 10 _)) _).
  - simpl. lia.
  - vm_compute. reflexivity.
Defined.

(** ** Data processor: statistics, results and keys *)

Section Processing.
Import Js DataProcessor.

Lemma pushIf_nil (c : bool) (x : string) (l : list string) :
  pushIf c x l = [] -> c = false /\ l = [].
Proof.
  unfold pushIf. destruct c; [|auto].
  intros H. destruct l; discriminate H.
Qed.

Lemma orElse_present (s d : string) : truthy s = true -> orElse (Some s) d = s.
Proof. intros H. unfold orElse. rewrite H. reflexivity. Qed.

(** What a valid outcome of [validateData] tells. *)
Lemma validateData_valid (currentYear : Z) (data : Partial.t) (d : Listing.t) :
  validData (validateData currentYear data) = Some d ->
  present (Partial.title data) = true
  /\ present (Partial.bizBuySellId data) = true
  /\ present (Partial.location data) = true
  /\ Partial.title data = Some (Listing.title d)
  /\ Partial.bizBuySellId data = Some (Listing.bizBuySellId d)
  /\ Partial.location data = Some (Listing.location d)
  /\ validationErrors (validateData currentYear data) = [].
Proof.
  unfold validateData.
  match goal with
  | |- context [match ?e with [] => _ | _ :: _ => _ end] => destruct e eqn:He
  end; [|discriminate].
  simpl. intros [= <-].
  apply pushIf_nil in He. destruct He as [_ He].
  apply pushIf_nil in He. destruct He as [Hl He].
  apply pushIf_nil in He. destruct He as [Hk He].
  apply pushIf_nil in He. destruct He as [Ht _].
  apply negb_false_iff in Hl, Hk, Ht. simpl.
  destruct (Partial.title data) as [t|]; [|discriminate Ht].
  destruct (Partial.bizBuySellId data) as [k|]; [|discriminate Hk].
  destruct (Partial.location data) as [lo|]; [|discriminate Hl].
  simpl in Ht, Hk, Hl. rewrite !orElse_present by assumption.
  repeat split; simpl; try reflexivity; assumption.
Qed.

Lemma validateData_invalid (currentYear : Z) (data : Partial.t) :
  validData (validateData currentYear data) = None ->
  validationErrors (validateData currentYear data) <> [].
Proof.
  unfold validateData.
  match goal with
  | |- context [match ?e with [] => _ | _ :: _ => _ end] => destruct e eqn:He
  end; [discriminate|].
  simpl. intros _. discriminate.
Qed.

(** The three ways a record goes through [processListing]: rejected as a
    duplicate, accepted, or rejected by validation. *)
Lemma processListing_verdict (currentYear : Z) (p : t) (raw : Raw.t) :
  let p' := fst (processListing currentYear p raw) in
  let res := snd (processListing currentYear p raw) in
  Stats.totalProcessed (stats p') = S (Stats.totalProcessed (stats p))
  /\ Result.originalData res = raw
  /\ ((exists id,
         Raw.listingId raw = Some id /\ truthy id = true /\ id ∈ seenListingIds p
         /\ Result.success res = false /\ Result.data res = None
         /\ Result.errors res = ["Duplicate listing ID detected"]
         /\ Result.warnings res = []
         /\ seenListingIds p' = seenListingIds p
         /\ Stats.successful (stats p') = Stats.successful (stats p)
         /\ Stats.failed (stats p') = Stats.failed (stats p)
         /\ Stats.duplicates (stats p') = S (Stats.duplicates (stats p))
         /\ Stats.warnings (stats p') = Stats.warnings (stats p))
      \/ (exists d,
            Result.success res = true /\ Result.data res = Some d
            /\ Result.errors res = []
            /\ truthy (Listing.title d) = true
            /\ truthy (Listing.bizBuySellId d) = true
            /\ truthy (Listing.location d) = true
            /\ seenListingIds p' = {[ Listing.bizBuySellId d ]} ∪ seenListingIds p
            /\ Stats.successful (stats p') = S (Stats.successful (stats p))
            /\ Stats.failed (stats p') = Stats.failed (stats p)
            /\ Stats.duplicates (stats p') = Stats.duplicates (stats p)
            /\ (Stats.warnings (stats p') <= S (Stats.warnings (stats p)))%nat)
      \/ (Result.success res = false /\ Result.data res = None
          /\ Result.errors res <> []
          /\ Result.errors res
             = validationErrors (validateData currentYear (cleanRawData currentYear raw))
          /\ seenListingIds p' = seenListingIds p
          /\ Stats.successful (stats p') = Stats.successful (stats p)
          /\ Stats.failed (stats p') = S (Stats.failed (stats p))
          /\ Stats.duplicates (stats p') = Stats.duplicates (stats p)
          /\ (Stats.warnings (stats p') <= S (Stats.warnings (stats p)))%nat)).
Proof.
  unfold processListing.
  destruct (match Raw.listingId raw with
            | Some id => truthy id && has (bump incTotalProcessed p) id
            | None => false
            end) eqn:Hdup.
  - simpl. split; [reflexivity|]. split; [reflexivity|]. left.
    destruct (Raw.listingId raw) as [id|]; [|discriminate Hdup].
    apply andb_true_iff in Hdup. destruct Hdup as [Ht Hh].
    exists id. unfold has in Hh. apply bool_decide_eq_true in Hh. simpl in Hh.
    repeat split; try reflexivity; assumption.
  - destruct (validData (validateData currentYear (cleanRawData currentYear raw)))
      as [d|] eqn:Hv.
    + destruct (validateData_valid _ _ _ Hv) as (Ht & Hk & Hl & Et & Ek & El & _).
      rewrite Et in Ht. rewrite Ek in Hk. rewrite El in Hl. simpl in Ht, Hk, Hl.
      rewrite Hk.
      destruct (validationWarnings (validateData currentYear (cleanRawData currentYear raw)));
        simpl; (split; [reflexivity|]; split; [reflexivity|]; right; left; exists d;
                repeat split; try reflexivity; try assumption; lia).
    + pose proof (validateData_invalid _ _ Hv) as Hne.
      destruct (validationWarnings (validateData currentYear (cleanRawData currentYear raw)));
        simpl; (split; [reflexivity|]; split; [reflexivity|]; right; right;
                repeat split; try reflexivity; try assumption; lia).
Qed.
End Processing.

Section Batches.
Import Js DataProcessor.

Lemma processBatchFrom_counts (currentYear : Z) (raws : list Raw.t) (p : t)
    (succ : list Listing.t) (fail : list Result.t) p' succ' fail' :
  processBatchFrom currentYear p raws succ fail = (p', succ', fail') ->
  (List.length succ' + List.length fail'
   = List.length succ + List.length fail + List.length raws)%nat
  /\ (Stats.totalProcessed (stats p')
      = Stats.totalProcessed (stats p) + List.length raws)%nat
  /\ (Stats.successful (stats p') + List.length succ
      = Stats.successful (stats p) + List.length succ')%nat
  /\ (Stats.failed (stats p') + Stats.duplicates (stats p') + List.length fail
      = Stats.failed (stats p) + Stats.duplicates (stats p) + List.length fail')%nat
  /\ (Stats.warnings (stats p') <= Stats.warnings (stats p) + List.length raws)%nat.
Proof.
  revert p succ fail p' succ' fail'.
  induction raws as [|raw raws IH]; intros p succ fail p' succ' fail' E.
  - simpl in E. injection E as <- <- <-. simpl. lia.
  - simpl in E.
    pose proof (processListing_verdict currentYear p raw) as Hv.
    destruct (processListing currentYear p raw) as [p1 res]. simpl in Hv.
    destruct Hv as (Htot & _ & [Hd | [Hok | Hbad]]).
    + destruct Hd as (id & _ & _ & _ & Hs & Hdata & _ & _ & _ & H1 & H2 & H3 & H4).
      rewrite Hs in E. apply IH in E. rewrite !List.length_app in E. simpl in *. lia.
    + destruct Hok as (d & Hs & Hdata & _ & _ & _ & _ & _ & H1 & H2 & H3 & H4).
      rewrite Hs, Hdata in E. apply IH in E. rewrite !List.length_app in E. simpl in *. lia.
    + destruct Hbad as (Hs & Hdata & _ & _ & _ & H1 & H2 & H3 & H4).
      rewrite Hs in E. apply IH in E. rewrite !List.length_app in E. simpl in *. lia.
Qed.

Lemma processBatchFrom_results (currentYear : Z) (raws : list Raw.t) (p : t)
    (succ : list Listing.t) (fail : list Result.t) p' succ' fail' :
  processBatchFrom currentYear p raws succ fail = (p', succ', fail') ->
  let good (q : t) (d : Listing.t) :=
    truthy (Listing.title d) = true /\ truthy (Listing.bizBuySellId d) = true
    /\ truthy (Listing.location d) = true /\ Listing.bizBuySellId d ∈ seenListingIds q in
  let bad (r : Result.t) :=
    Result.success r = false /\ Result.data r = None /\ Result.errors r <> [] in
  List.Forall (good p) succ -> List.Forall bad fail ->
  seenListingIds p ⊆ seenListingIds p'
  /\ List.Forall (good p') succ' /\ List.Forall bad fail'.
Proof.
  revert p succ fail p' succ' fail'.
  induction raws as [|raw raws IH]; intros p succ fail p' succ' fail' E good bad Hs Hf.
  - simpl in E. injection E as <- <- <-. split; [set_solver|]. split; assumption.
  - simpl in E.
    pose proof (processListing_verdict currentYear p raw) as Hv.
    destruct (processListing currentYear p raw) as [p1 res]. simpl in Hv.
    destruct Hv as (_ & _ & [Hd | [Hok | Hbad]]).
    + destruct Hd as (id & _ & _ & _ & Hsu & Hdata & He & _ & Hseen & _).
      rewrite Hsu in E.
      destruct (IH _ _ _ _ _ _ E) as (H1 & H2 & H3).
      * eapply List.Forall_impl; [|exact Hs]. intros d (A & B & C & D).
        repeat split; try assumption. rewrite Hseen. exact D.
      * apply List.Forall_app. split; [exact Hf|]. constructor; [|constructor].
        repeat split; try assumption. rewrite He. discriminate.
      * rewrite Hseen in H1. split; [exact H1|]. split; assumption.
    + destruct Hok as (d & Hsu & Hdata & _ & Ht & Hk & Hl & Hseen & _).
      rewrite Hsu, Hdata in E.
      destruct (IH _ _ _ _ _ _ E) as (H1 & H2 & H3).
      * apply List.Forall_app. split.
        -- eapply List.Forall_impl; [|exact Hs]. intros d0 (A & B & C & D).
           repeat split; try assumption. rewrite Hseen. set_solver.
        -- constructor; [|constructor]. repeat split; try assumption.
           rewrite Hseen. set_solver.
      * exact Hf.
      * rewrite Hseen in H1. split; [set_solver|]. split; assumption.
    + destruct Hbad as (Hsu & Hdata & Hne & _ & Hseen & _).
      rewrite Hsu in E.
      destruct (IH _ _ _ _ _ _ E) as (H1 & H2 & H3).
      * eapply List.Forall_impl; [|exact Hs]. intros d (A & B & C & D).
        repeat split; try assumption. rewrite Hseen. exact D.
      * apply List.Forall_app. split; [exact Hf|]. constructor; [|constructor].
        repeat split; assumption.
      * rewrite Hseen in H1. split; [exact H1|]. split; assumption.
Qed.
Lemma processListing_seen_id (currentYear : Z) (p : t) (raw : Raw.t) (id : string) :
  Raw.listingId raw = Some id -> truthy id = true -> id ∈ seenListingIds p ->
  processListing currentYear p raw
  = (bump incDuplicates (bump incTotalProcessed p),
     {| Result.success := false; Result.data := None;
        Result.errors := ["Duplicate listing ID detected"];
        Result.warnings := []; Result.originalData := raw |}).
Proof.
  intros Hid Ht Hin. unfold processListing. rewrite Hid, Ht. simpl.
  unfold has. simpl. rewrite bool_decide_eq_true_2 by exact Hin. reflexivity.
Qed.
End Batches.

(** X10.  A batch sorts every record into exactly one of the two result
    lists, and the statistics follow: [totalProcessed] grows by the size of
    the batch, [successful] by the number of entities emitted, [failed] and
    [duplicates] together by the number of rejected records, and [warnings]
    by at most one per record; the statistics returned are those of the
    processor. *)
Theorem batch_results_and_statistics_agree
    (currentYear : Z) (p : DataProcessor.t) (raws : list DataProcessor.Raw.t) :
  let p' := fst (DataProcessor.processBatch currentYear p raws) in
  let b := snd (DataProcessor.processBatch currentYear p raws) in
  let st := DataProcessor.stats p in
  let st' := DataProcessor.stats p' in
  (List.length (DataProcessor.successfulListings b)
   + List.length (DataProcessor.failedResults b) = List.length raws)%nat
  /\ (DataProcessor.Stats.totalProcessed st'
      = DataProcessor.Stats.totalProcessed st + List.length raws)%nat
  /\ (DataProcessor.Stats.successful st'
      = DataProcessor.Stats.successful st
        + List.length (DataProcessor.successfulListings b))%nat
  /\ (DataProcessor.Stats.failed st' + DataProcessor.Stats.duplicates st'
      = DataProcessor.Stats.failed st + DataProcessor.Stats.duplicates st
        + List.length (DataProcessor.failedResults b))%nat
  /\ (DataProcessor.Stats.warnings st'
      <= DataProcessor.Stats.warnings st + List.length raws)%nat
  /\ DataProcessor.batchStats b = st'.
Proof.
  unfold DataProcessor.processBatch.
  destruct (DataProcessor.processBatchFrom currentYear p raws [] [])
    as [[p1 succ] fail] eqn:E.
  apply processBatchFrom_counts in E. simpl in *.
  repeat split; try reflexivity; lia.
Qed.

(** X11.  Every entity a batch emits as successful has a non-empty title,
    key and location, and its key is in the set of seen ids afterwards;
    every rejected record carries at least one error and no data; and the
    set of seen ids only grows. *)
Theorem batch_emits_only_complete_entities
    (currentYear : Z) (p : DataProcessor.t) (raws : list DataProcessor.Raw.t) :
  let p' := fst (DataProcessor.processBatch currentYear p raws) in
  let b := snd (DataProcessor.processBatch currentYear p raws) in
  List.Forall
    (fun d =>
       Js.truthy (DataProcessor.Listing.title d) = true
       /\ Js.truthy (DataProcessor.Listing.bizBuySellId d) = true
       /\ Js.truthy (DataProcessor.Listing.location d) = true
       /\ DataProcessor.Listing.bizBuySellId d ∈ DataProcessor.seenListingIds p')
    (DataProcessor.successfulListings b)
  /\ List.Forall
       (fun r =>
          DataProcessor.Result.success r = false
          /\ DataProcessor.Result.data r = None
          /\ DataProcessor.Result.errors r <> [])
       (DataProcessor.failedResults b)
  /\ DataProcessor.seenListingIds p ⊆ DataProcessor.seenListingIds p'.
Proof.
  unfold DataProcessor.processBatch.
  destruct (DataProcessor.processBatchFrom currentYear p raws [] [])
    as [[p1 succ] fail] eqn:E.
  destruct (processBatchFrom_results _ _ _ _ _ _ _ _ E) as (H1 & H2 & H3);
    [constructor | constructor |].
  simpl. split; [exact H2|]. split; [exact H3 | exact H1].
Qed.

(** X12.  The key of an emitted entity is remembered: once a record has
    been accepted, a later record whose raw listing id equals that key is
    rejected as a duplicate before cleaning and validation, whatever its
    other fields; the rejection is counted under [duplicates], not under
    [failed], and leaves the set of seen ids as it is. *)
Theorem emitted_key_blocks_later_records
    (currentYear : Z) (p : DataProcessor.t) (raw later : DataProcessor.Raw.t)
    (d : DataProcessor.Listing.t) :
  DataProcessor.Result.data (snd (DataProcessor.processListing currentYear p raw)) = Some d ->
  DataProcessor.Raw.listingId later = Some (DataProcessor.Listing.bizBuySellId d) ->
  let p1 := fst (DataProcessor.processListing currentYear p raw) in
  let p2 := fst (DataProcessor.processListing currentYear p1 later) in
  let res := snd (DataProcessor.processListing currentYear p1 later) in
  DataProcessor.Result.success res = false
  /\ DataProcessor.Result.data res = None
  /\ DataProcessor.Result.errors res = ["Duplicate listing ID detected"]
  /\ DataProcessor.seenListingIds p2 = DataProcessor.seenListingIds p1
  /\ DataProcessor.Stats.duplicates (DataProcessor.stats p2)
     = S (DataProcessor.Stats.duplicates (DataProcessor.stats p1))
  /\ DataProcessor.Stats.failed (DataProcessor.stats p2)
     = DataProcessor.Stats.failed (DataProcessor.stats p1).
Proof.
  intros Hdata Hlater p1 p2 res.
  pose proof (processListing_verdict currentYear p raw) as Hv. simpl in Hv.
  destruct Hv as (_ & _ & [Hd | [Hok | Hbad]]).
  - destruct Hd as (id & _ & _ & _ & _ & Hn & _). congruence.
  - destruct Hok as (d0 & _ & Hd0 & _ & _ & Hk & _ & Hseen & _).
    assert (d0 = d) by congruence. subst d0.
    assert (Hin : DataProcessor.Listing.bizBuySellId d ∈ DataProcessor.seenListingIds p1).
    { subst p1. rewrite Hseen. set_solver. }
    subst p2 res.
    rewrite (processListing_seen_id currentYear p1 later _ Hlater Hk Hin).
    simpl. repeat split; reflexivity.
  - destruct Hbad as (_ & Hn & _). congruence.
Qed.

Lemma emitted_key_blocks_later_records_witness :
  let p1 := fst (DataProcessor.processListing 2024 DataProcessor.create
                   (bakery (Some "ABC-1") None)) in
  let later := bakery (Some "ABC-1") (Some "https://example.com/other") in
  DataProcessor.Result.errors (snd (DataProcessor.processListing 2024 p1 later))
  = ["Duplicate listing ID detected"].
Proof.
  refine (proj1 (proj2 (proj2
    (emitted_key_blocks_later_records 2024 DataProcessor.create
       (bakery (Some "ABC-1") None)
       (bakery (Some "ABC-1") (Some "https://example.com/other")) _ _ _)))).
  - vm_compute. reflexivity.
  - reflexivity.
Defined.

(** ** Data processor: cleaning *)

Section Cleaning.
Import Js DataProcessor.

Lemma keyChar_cleaned (c : ascii) :
  (isWord c || Ascii.eqb c "-") = true ->
  isKeyChar (toUpperChar c) = true
  /\ (isWord (toUpperChar c) || Ascii.eqb (toUpperChar c) "-") = true
  /\ toUpperChar (toUpperChar c) = toUpperChar c.
Proof.
  destruct c as [[] [] [] [] [] [] [] []]; vm_compute; intros H;
    first [discriminate H | repeat split; reflexivity].
Qed.

Lemma cleanListingId_chars (id : string) :
  allChars isKeyChar (cleanListingId id) = true.
Proof.
  unfold cleanListingId, toUpperCase.
  induction id as [|c id IH]; [reflexivity|].
  simpl. destruct (isWord c || Ascii.eqb c "-") eqn:Hc; [|exact IH].
  simpl. rewrite (proj1 (keyChar_cleaned c Hc)). exact IH.
Qed.

Lemma cleanListingId_idempotent (id : string) :
  cleanListingId (cleanListingId id) = cleanListingId id.
Proof.
  unfold cleanListingId, toUpperCase.
  induction id as [|c id IH]; [reflexivity|].
  simpl. destruct (isWord c || Ascii.eqb c "-") eqn:Hc; [|exact IH].
  simpl. destruct (keyChar_cleaned c Hc) as (_ & Hk & Hu).
  rewrite Hk. simpl. rewrite Hu. f_equal. exact IH.
Qed.

Lemma substring0_length (n : nat) (s : string) :
  (String.length (substring0 n s) <= n)%nat.
Proof.
  revert s. induction n as [|n IH]; intros s; [destruct s; simpl; lia|].
  destruct s as [|c s]; simpl; [lia|]. specialize (IH s). lia.
Qed.

Lemma substring0_firstChar (n : nat) (s : string) (c : ascii) :
  firstChar (substring0 n s) = Some c -> firstChar s = Some c.
Proof. destruct n, s; simpl; intros H; try discriminate H; exact H. Qed.

Lemma dropWhile_firstChar (p : ascii -> bool) (s : string) (c : ascii) :
  firstChar (dropWhile p s) = Some c -> p c = false.
Proof.
  induction s as [|a s IH]; simpl; [discriminate|].
  destruct (p a) eqn:Hp; [exact IH|]. simpl. intros [= <-]. exact Hp.
Qed.

Lemma append_nil_r (s : string) : String.append s "" = s.
Proof.
  induction s as [|c s IH]; [reflexivity|].
  change (String c (String.append s "") = String c s). f_equal. exact IH.
Qed.

Lemma append_assoc (a b c : string) :
  String.append (String.append a b) c = String.append a (String.append b c).
Proof.
  induction a as [|x a IH]; [reflexivity|].
  change (String x (String.append (String.append a b) c)
          = String x (String.append a (String.append b c))).
  f_equal. exact IH.
Qed.

Lemma rev_string_acc (s acc : string) :
  rev_string acc s = String.append (rev_string "" s) acc.
Proof.
  revert acc. induction s as [|c s IH]; intros acc; [reflexivity|].
  simpl. rewrite (IH (String c acc)), (IH (String c "")), append_assoc. reflexivity.
Qed.

Lemma rev_string_append (a b : string) :
  rev_string "" (String.append a b)
  = String.append (rev_string "" b) (rev_string "" a).
Proof.
  induction a as [|x a IH]; [simpl; rewrite append_nil_r; reflexivity|].
  simpl. rewrite (rev_string_acc (String.append a b)), (rev_string_acc a), IH.
  apply append_assoc.
Qed.

Lemma rev_string_involutive (s : string) : rev_string "" (rev_string "" s) = s.
Proof.
  induction s as [|c s IH]; [reflexivity|].
  simpl. rewrite (rev_string_acc s (String c "")), rev_string_append, IH. reflexivity.
Qed.

Lemma dropWhile_suffix (p : ascii -> bool) (s : string) :
  exists u, s = String.append u (dropWhile p s).
Proof.
  induction s as [|c s [u Hu]]; [exists ""; reflexivity|].
  simpl. destruct (p c).
  - exists (String c u).
    change (String c s = String c (String.append u (dropWhile p s))).
    f_equal. exact Hu.
  - exists "". reflexivity.
Qed.

(** What [dropWhileEnd] returns is a prefix of its argument. *)
Lemma dropWhileEnd_prefix (p : ascii -> bool) (s : string) :
  exists u, s = String.append (dropWhileEnd p s) u.
Proof.
  unfold dropWhileEnd.
  destruct (dropWhile_suffix p (rev_string "" s)) as [u Hu].
  exists (rev_string "" u).
  rewrite <- rev_string_append, <- Hu, rev_string_involutive. reflexivity.
Qed.

Lemma dropWhileEnd_firstChar (p : ascii -> bool) (s : string) (c : ascii) :
  firstChar (dropWhileEnd p s) = Some c -> firstChar s = Some c.
Proof.
  destruct (dropWhileEnd_prefix p s) as [u Hu]. intros H.
  rewrite Hu. destruct (dropWhileEnd p s); [discriminate H | exact H].
Qed.
End Cleaning.

(** X13.  [cleanListingId] yields a string of capitals, digits, underscores
    and hyphens only, and cleaning a cleaned id changes nothing. *)
Theorem cleaned_listing_id_is_canonical (id : string) :
  allChars isKeyChar (DataProcessor.cleanListingId id) = true
  /\ DataProcessor.cleanListingId (DataProcessor.cleanListingId id)
     = DataProcessor.cleanListingId id.
Proof. split; [apply cleanListingId_chars | apply cleanListingId_idempotent]. Qed.

(** X15.  A cleaned title has at most 200 characters and, when it is not
    empty, starts with a letter, a digit or an underscore; a cleaned
    description has at most 2000 characters. *)
Theorem cleaned_title_and_description_are_bounded (s : string) :
  (String.length (DataProcessor.cleanTitle s) <= 200)%nat
  /\ (forall c, firstChar (DataProcessor.cleanTitle s) = Some c -> Js.isWord c = true)
  /\ (String.length (DataProcessor.cleanDescription s) <= 2000)%nat.
Proof.
  split; [apply substring0_length|]. split; [|apply substring0_length].
  intros c Hc. unfold DataProcessor.cleanTitle in Hc.
  apply substring0_firstChar in Hc. apply dropWhileEnd_firstChar in Hc.
  apply dropWhile_firstChar in Hc. apply negb_false_iff in Hc. exact Hc.
Qed.

Section Prices.
Import Js DataProcessor.

Lemma digitValue_nonneg (c : ascii) : isDigit c = true -> 0 <= digitValue c.
Proof.
  unfold isDigit, between, digitValue. intros H.
  apply andb_true_iff in H. destruct H as [H _]. apply N.leb_le in H. lia.
Qed.

Lemma digitsValue_nonneg (s : string) (acc : Z) :
  0 <= acc -> allChars isDigit s = true -> 0 <= digitsValue acc s.
Proof.
  revert acc. induction s as [|c s IH]; intros acc Hacc Hall; [exact Hacc|].
  simpl in *. apply andb_true_iff in Hall. destruct Hall as [Hc Hs].
  apply IH; [|exact Hs]. pose proof (digitValue_nonneg c Hc). lia.
Qed.

Lemma takeWhile_all (p : ascii -> bool) (s : string) :
  allChars p (takeWhile p s) = true.
Proof.
  induction s as [|c s IH]; [reflexivity|].
  simpl. destruct (p c) eqn:Hc; [|reflexivity]. simpl. rewrite Hc. exact IH.
Qed.

Lemma allChars_append (p : ascii -> bool) (a b : string) :
  allChars p a = true -> allChars p b = true -> allChars p (String.append a b) = true.
Proof.
  intros Ha Hb. induction a as [|c a IH]; [exact Hb|].
  simpl in Ha. apply andb_true_iff in Ha. destruct Ha as [Hc Ha].
  change (allChars p (String c (String.append a b)) = true).
  simpl. rewrite Hc. exact (IH Ha).
Qed.

(** The number read from a price string is never negative. *)
Lemma parsePrice_nonneg (priceStr : string) (q : Q) :
  parsePrice priceStr = Some q -> (0 <= q)%Q.
Proof.
  unfold parsePrice, parseFloatDigitsDots.
  set (s := filterChars (fun c => isDigit c || Ascii.eqb c ".") priceStr).
  destruct (truthy (takeWhile isDigit s) || _); [|discriminate].
  intros [= <-]. unfold Qle. simpl.
  rewrite Z.mul_1_r. apply digitsValue_nonneg; [lia|].
  apply allChars_append; [apply takeWhile_all|].
  destruct (dropN _ s) as [|c r]; [reflexivity|].
  destruct (Ascii.eqb_spec c "."%char) as [->|Hne].
  - apply takeWhile_all.
  - destruct c as [[] [] [] [] [] [] [] []]; try reflexivity; apply takeWhile_all.
Qed.

Lemma In_pushIf (c : bool) (x e : string) (l : list string) :
  In e (pushIf c x l) -> e = x \/ In e l.
Proof.
  unfold pushIf. destruct c; [|auto].
  intros H. apply in_app_iff in H. destruct H as [H|[H|[]]]; auto.
Qed.

Lemma validateData_errors (currentYear : Z) (data : Partial.t) :
  (forall q, Partial.askingPrice data = Some q -> (0 <= q)%Q) ->
  forall e, In e (validationErrors (validateData currentYear data)) ->
            In e ["Title is required"; "Listing ID is required"; "Location is required"].
Proof.
  intros Hprice e. unfold validateData. cbv zeta.
  assert (Hc : match Partial.askingPrice data with
               | Some p => nonzeroQ (Some p) && Qltb p 0
               | None => false
               end = false).
  { destruct (Partial.askingPrice data) as [q|]; [|reflexivity].
    unfold Qltb. rewrite (proj2 (Qle_bool_iff 0 q) (Hprice q eq_refl)).
    apply andb_false_r. }
  rewrite Hc. unfold pushIf at 1.
  match goal with
  | |- context [match ?l with [] => _ | _ :: _ => _ end] =>
      destruct l as [|e0 es] eqn:He
  end; [simpl; intros []|].
  intros Hin. change (In e (e0 :: es)) in Hin. rewrite <- He in Hin.
  apply In_pushIf in Hin. destruct Hin as [->|Hin]; [simpl; tauto|].
  apply In_pushIf in Hin. destruct Hin as [->|Hin]; [simpl; tauto|].
  apply In_pushIf in Hin. destruct Hin as [->|[]]. simpl. tauto.
Qed.

Lemma cleanRawData_price_nonneg (currentYear : Z) (raw : Raw.t) (q : Q) :
  Partial.askingPrice (cleanRawData currentYear raw) = Some q -> (0 <= q)%Q.
Proof.
  unfold cleanRawData. simpl. unfold whenPresent.
  destruct (Raw.askingPrice raw) as [s|]; [|discriminate].
  destruct (truthy s); [|discriminate]. apply parsePrice_nonneg.
Qed.
End Prices.

(** X14.  The errors of a processed record are the duplicate error alone or
    some of the three required-field errors: since a price is read from the
    digits and dots of its text it is never negative, and the error about a
    negative asking price is never reported. *)
Theorem negative_price_error_is_never_reported
    (currentYear : Z) (p : DataProcessor.t) (raw : DataProcessor.Raw.t) :
  let errors :=
    DataProcessor.Result.errors (snd (DataProcessor.processListing currentYear p raw)) in
  (errors = ["Duplicate listing ID detected"]
   \/ forall e, In e errors ->
        In e ["Title is required"; "Listing ID is required"; "Location is required"])
  /\ ~ In "Asking price cannot be negative" errors.
Proof.
  intros errors. subst errors.
  pose proof (processListing_verdict currentYear p raw) as Hv. simpl in Hv.
  destruct Hv as (_ & _ & [Hd | [Hok | Hbad]]).
  - destruct Hd as (id & _ & _ & _ & _ & _ & He & _). rewrite He.
    split; [left; reflexivity|]. intros [H|[]]. discriminate H.
  - destruct Hok as (d & _ & _ & He & _). rewrite He.
    split; [right; intros e []|intros []].
  - destruct Hbad as (_ & _ & _ & He & _). rewrite He.
    pose proof (validateData_errors currentYear
                  (DataProcessor.cleanRawData currentYear raw)
                  (cleanRawData_price_nonneg currentYear raw)) as Hin.
    split; [right; exact Hin|].
    intros H. apply Hin in H. simpl in H.
    destruct H as [H|[H|[H|[]]]]; discriminate H.
Qed.

(** ** Job queue: cap, dispatch and reaper *)

Section QueueInvariants.
Import DatabaseJobQueue.

Lemma size_add_le (i : string) (s : gset string) : (size ({[ i ]} ∪ s) <= S (size s))%nat.
Proof.
  rewrite size_union_alt, size_singleton.
  pose proof (subseteq_size (s ∖ {[ i ]}) s ltac:(set_solver)). lia.
Qed.

Lemma size_remove_le (i : string) (s : gset string) : (size (s ∖ {[ i ]}) <= size s)%nat.
Proof. apply subseteq_size. set_solver. Qed.

Lemma processQueue_cap (q : t) (now : Z) :
  maxConcurrentJobs (processQueue q now) = maxConcurrentJobs q
  /\ (Z.of_nat (size (currentJobs q)) <= Z.max 0 (maxConcurrentJobs q) ->
      Z.of_nat (size (currentJobs (processQueue q now))) <= Z.max 0 (maxConcurrentJobs q)).
Proof.
  unfold processQueue.
  destruct (processing q); simpl; [split; auto|].
  destruct (Z.of_nat (size (currentJobs q)) >=? maxConcurrentJobs q) eqn:Hc; [split; auto|].
  destruct (findFirstPending (table q)); [|split; auto].
  simpl. split; [reflexivity|]. intros _.
  pose proof (size_add_le (id s) (currentJobs q)).
  destruct (Z.geb_spec (Z.of_nat (size (currentJobs q))) (maxConcurrentJobs q));
    [discriminate Hc | lia].
Qed.

(** The set of current jobs never outgrows the cap. *)
Lemma reachable_cap (q : t) :
  reachable q ->
  Z.of_nat (size (currentJobs q)) <= Z.max 0 (maxConcurrentJobs q).
Proof.
  induction 1 as [n | q newId now p m w Hq IH Hfresh | q now Hq IH | q i p now Hq IH
                  | q i result now Hq IH | q i now Hq IH | q now Hq IH].
  - unfold create. cbn [currentJobs maxConcurrentJobs]. rewrite size_empty. lia.
  - unfold addJob. simpl.
    match goal with
    | |- context [processQueue ?q1 now] =>
        destruct (processQueue_cap q1 now) as [Hm Hc]
    end.
    rewrite Hm. simpl in *. apply Hc. exact IH.
  - destruct (processQueue_cap q now) as [Hm Hc]. rewrite Hm. apply Hc. exact IH.
  - exact IH.
  - unfold completeJob. destruct (findUnique i (table q)); [|exact IH].
    match goal with
    | |- context [processQueue ?q1 now] =>
        destruct (processQueue_cap q1 now) as [Hm Hc]
    end.
    rewrite Hm. simpl in *. apply Hc.
    pose proof (size_remove_le i (currentJobs q)). lia.
  - unfold cancelJob. destruct (findUnique i (table q)) as [job|]; [|exact IH].
    destruct (_ || _); [exact IH|]. simpl.
    pose proof (size_remove_le i (currentJobs q)). lia.
  - exact IH.
Qed.

Lemma advances_update (i : string) (f : ScrapeJob -> ScrapeJob) (rows : list ScrapeJob) :
  (forall r, id (f r) = id r) ->
  (forall r, status (f r) = status r \/ status (f r) <> PENDING) ->
  advances rows (update i f rows).
Proof.
  intros Hid Hst. split; [apply update_ids; exact Hid|].
  intros r' Hin. apply update_In in Hin.
  destruct Hin as (r & Hr & [[Hi ->]|[Hi ->]]); exists r.
  - split; [exact Hr|]. split; [symmetry; apply Hid | apply Hst].
  - split; [exact Hr|]. split; [reflexivity | left; reflexivity].
Qed.

Lemma settled_advances (q q' : t) :
  settled q -> advances (table q) (table q') -> dispatched q' = dispatched q ->
  settled q'.
Proof.
  intros Hs [Hids Hrows] Hd i Hin. rewrite Hd in Hin.
  destruct (Hs i Hin) as [Hrow Hnp]. split; [rewrite Hids; exact Hrow|].
  intros r' Hr' Hi. destruct (Hrows r' Hr') as (r & Hr & Hid & [Hst|Hst]); [|exact Hst].
  rewrite Hst. apply (Hnp r Hr). congruence.
Qed.

Lemma dispatched_emit (q : t) (e : Emitted) (rows : list ScrapeJob) (cur : gset string) :
  (forall j, e <> processJob j) ->
  dispatched {| table := rows; processing := processing q;
                maxConcurrentJobs := maxConcurrentJobs q; currentJobs := cur;
                emitted := emitted q ++ [e] |} = dispatched q.
Proof.
  intros He. unfold dispatched. simpl. rewrite flat_map_app. simpl.
  destruct e; [exfalso; eapply He; reflexivity | |]; apply List.app_nil_r.
Qed.

Lemma dispatch_processQueue (q : t) (now : Z) :
  List.NoDup (dispatched q) -> settled q ->
  List.NoDup (dispatched (processQueue q now)) /\ settled (processQueue q now).
Proof.
  intros Hnd Hs. unfold processQueue.
  destruct (processing q || _); [split; assumption|].
  destruct (findFirstPending (table q)) as [j|] eqn:Hj; [|split; assumption].
  destruct (findFirstPending_Some _ _ Hj) as (Hin & Hst & _).
  assert (Hnew : ~ In (id j) (dispatched q)).
  { intros Hd. destruct (Hs _ Hd) as [_ Hnp]. exact (Hnp j Hin eq_refl Hst). }
  assert (Hd : dispatched {| table := update (id j) (markProcessing now) (table q);
                             processing := false;
                             maxConcurrentJobs := maxConcurrentJobs q;
                             currentJobs := {[ id j ]} ∪ currentJobs q;
                             emitted := emitted q ++ [processJob (id j)] |}
               = (dispatched q ++ [id j])%list).
  { unfold dispatched. simpl. rewrite flat_map_app. reflexivity. }
  split.
  - rewrite Hd.
    clear - Hnd Hnew. induction (dispatched q) as [|x xs IH]; simpl.
    + constructor; [intros []|constructor].
    + apply List.NoDup_cons_iff in Hnd. destruct Hnd as [Hx Hxs].
      constructor.
      * intros H. apply in_app_iff in H. destruct H as [H|[H|[]]]; [contradiction|].
        apply Hnew. left. symmetry. exact H.
      * apply IH; [exact Hxs|]. intros H. apply Hnew. right. exact H.
  - intros i Hi. rewrite Hd in Hi. simpl.
    rewrite update_ids by reflexivity.
    apply in_app_iff in Hi. destruct Hi as [Hi|[<-|[]]].
    + destruct (Hs i Hi) as [Hrow Hnp]. split; [exact Hrow|].
      intros r' Hr' Hid. apply update_In in Hr'.
      destruct Hr' as (r & Hr & [[Hi' ->]|[Hi' ->]]); [discriminate|].
      apply (Hnp r Hr Hid).
    + split; [apply in_map; exact Hin|].
      intros r' Hr' Hid. apply update_In in Hr'.
      destruct Hr' as (r & Hr & [[Hi' ->]|[Hi' ->]]); [discriminate | contradiction].
Qed.

(** A job is handed to the processor at most once, and a job handed out is
    never PENDING again. *)
Lemma reachable_dispatch (q : t) :
  reachable q -> List.NoDup (dispatched q) /\ settled q.
Proof.
  induction 1 as [n | q newId now p m w Hq [IHn IHs] Hfresh | q now Hq [IHn IHs]
                  | q i p now Hq [IHn IHs] | q i result now Hq [IHn IHs]
                  | q i now Hq [IHn IHs] | q now Hq [IHn IHs]].
  - split; [constructor | intros i []].
  - unfold addJob. simpl. apply dispatch_processQueue; [exact IHn|].
    intros i Hi. change (In i (dispatched q)) in Hi.
    destruct (IHs i Hi) as [Hrow Hnp]. simpl. split.
    + rewrite List.map_app. apply in_app_iff. left. exact Hrow.
    + intros r Hr Hid. apply in_app_iff in Hr. destruct Hr as [Hr|[<-|[]]].
      * exact (Hnp r Hr Hid).
      * simpl in Hid. subst i. contradiction.
  - apply dispatch_processQueue; assumption.
  - split; [exact IHn|].
    apply (settled_advances q); [exact IHs | | reflexivity].
    simpl. apply advances_update; intros r; [reflexivity | left; reflexivity].
  - unfold completeJob. destruct (findUnique i (table q)); [|split; assumption].
    apply dispatch_processQueue.
    + rewrite dispatched_emit; [exact IHn | discriminate].
    + apply (settled_advances q); [exact IHs | | apply dispatched_emit; discriminate].
      simpl. apply advances_update; intros r; [reflexivity|].
      right. simpl. destruct (success result); discriminate.
  - unfold cancelJob. destruct (findUnique i (table q)) as [job|]; [|split; assumption].
    destruct (_ || _); [split; assumption|]. simpl. split.
    + rewrite dispatched_emit; [exact IHn | discriminate].
    + apply (settled_advances q); [exact IHs | | apply dispatched_emit; discriminate].
      simpl. apply advances_update; intros r; [reflexivity|].
      right. simpl. discriminate.
  - split; [exact IHn|].
    apply (settled_advances q); [exact IHs | | reflexivity].
    simpl. split.
    + rewrite List.map_map. apply List.map_ext. intros r.
      destruct (isStalled (now - stallTimeout) r); reflexivity.
    + intros r' Hr'. apply in_map_iff in Hr'. destruct Hr' as (r & <- & Hr).
      exists r. split; [exact Hr|].
      destruct (isStalled (now - stallTimeout) r); simpl;
        (split; [reflexivity|]); [right; discriminate | left; reflexivity].
Qed.

Lemma cleanup_idempotent (q : t) (now : Z) : cleanup (cleanup q now) now = cleanup q now.
Proof.
  unfold cleanup. simpl. f_equal. rewrite List.map_map. apply List.map_ext.
  intros r. destruct (isStalled (now - stallTimeout) r) eqn:Hs; [|rewrite Hs; reflexivity].
  unfold isStalled. simpl. reflexivity.
Qed.

Lemma cleanup_keeps_others (q : t) (now : Z) (r : ScrapeJob) :
  In r (table q) -> isStalled (now - stallTimeout) r = false ->
  In r (table (cleanup q now)).
Proof.
  intros Hin Hs. simpl. apply in_map_iff. exists r. rewrite Hs. split; [reflexivity|exact Hin].
Qed.
End QueueInvariants.

(** X16.  In every state the queue reaches from an empty table, the set of
    current jobs has at most [maxConcurrentJobs] members (none for a cap
    below zero), and so has the set of jobs in PROCESSING. *)
Theorem concurrency_cap_is_kept (q : DatabaseJobQueue.t) :
  DatabaseJobQueue.reachable q ->
  Z.of_nat (size (DatabaseJobQueue.currentJobs q))
    <= Z.max 0 (DatabaseJobQueue.maxConcurrentJobs q)
  /\ Z.of_nat (DatabaseJobQueue.countStatus DatabaseJobQueue.PROCESSING q)
       <= Z.max 0 (DatabaseJobQueue.maxConcurrentJobs q).
Proof.
  intros Hr. pose proof (reachable_cap q Hr) as Hc.
  destruct (reachable_invariants q Hr) as (_ & Hnd & Ht).
  pose proof (processing_count_le_currentJobs q Hnd Ht). split; lia.
Qed.

(** X17.  In every reachable state no job has been handed to the processor
    twice, and every job handed out has a row, which is not PENDING. *)
Theorem job_is_dispatched_at_most_once (q : DatabaseJobQueue.t) :
  DatabaseJobQueue.reachable q ->
  List.NoDup (DatabaseJobQueue.dispatched q)
  /\ forall i, In i (DatabaseJobQueue.dispatched q) ->
       exists r, In r (DatabaseJobQueue.table q)
                 /\ DatabaseJobQueue.id r = i
                 /\ DatabaseJobQueue.status r <> DatabaseJobQueue.PENDING.
Proof.
  intros Hr. destruct (reachable_dispatch q Hr) as [Hnd Hs]. split; [exact Hnd|].
  intros i Hi. destruct (Hs i Hi) as [Hrow Hnp].
  apply in_map_iff in Hrow. destruct Hrow as (r & Hid & Hin).
  exists r. split; [exact Hin|]. split; [exact Hid | exact (Hnp r Hin Hid)].
Qed.

(** X18.  The reaper decides on the start time alone: a row in PROCESSING
    that was started more than ten minutes before is failed with the
    timeout error even if it was updated a moment ago; every other row is
    left as it is; and a second run at the same time changes nothing. *)
Theorem reaper_goes_by_start_time (q : DatabaseJobQueue.t) (now : Z)
    (r : DatabaseJobQueue.ScrapeJob) :
  In r (DatabaseJobQueue.table q) ->
  (DatabaseJobQueue.status r = DatabaseJobQueue.PROCESSING ->
   (exists s, DatabaseJobQueue.startedAt r = Some s
              /\ s < now - DatabaseJobQueue.stallTimeout) ->
   exists r', In r' (DatabaseJobQueue.table (DatabaseJobQueue.cleanup q now))
              /\ DatabaseJobQueue.id r' = DatabaseJobQueue.id r
              /\ DatabaseJobQueue.status r' = DatabaseJobQueue.FAILED
              /\ DatabaseJobQueue.error r' = Some DatabaseJobQueue.stalledError
              /\ DatabaseJobQueue.updatedAt r' = now)
  /\ (DatabaseJobQueue.status r <> DatabaseJobQueue.PROCESSING
      \/ DatabaseJobQueue.startedAt r = None
      \/ (exists s, DatabaseJobQueue.startedAt r = Some s
                    /\ now - DatabaseJobQueue.stallTimeout <= s) ->
      In r (DatabaseJobQueue.table (DatabaseJobQueue.cleanup q now)))
  /\ DatabaseJobQueue.cleanup (DatabaseJobQueue.cleanup q now) now
     = DatabaseJobQueue.cleanup q now.
Proof.
  intros Hin. split; [|split].
  - intros Hst (s & Hs & Hlt). eapply cleanup_fails_stalled; eauto.
  - intros H. apply cleanup_keeps_others; [exact Hin|].
    unfold DatabaseJobQueue.isStalled.
    destruct H as [H|[H|(s & Hs & Hle)]].
    + destruct (DatabaseJobQueue.status r); try reflexivity. congruence.
    + rewrite H. apply andb_false_r.
    + rewrite Hs. replace (s <? now - DatabaseJobQueue.stallTimeout) with false by lia.
      apply andb_false_r.
  - apply cleanup_idempotent.
Qed.


Lemma stalledQueue_reachable : DatabaseJobQueue.reachable stalledQueue.
Proof.
  unfold stalledQueue, submit.
  apply DatabaseJobQueue.reach_addJob.
  - apply DatabaseJobQueue.reach_addJob.
    + apply DatabaseJobQueue.reach_create.
    + intros [].
  - vm_compute. intros [H|[]]. discriminate H.
Qed.

Lemma concurrency_cap_is_kept_witness :
  Z.of_nat (size (DatabaseJobQueue.currentJobs reapedQueue))
    <= Z.max 0 (DatabaseJobQueue.maxConcurrentJobs reapedQueue)
  /\ Z.of_nat (DatabaseJobQueue.countStatus DatabaseJobQueue.PROCESSING reapedQueue)
       <= Z.max 0 (DatabaseJobQueue.maxConcurrentJobs reapedQueue).
Proof.
  apply (concurrency_cap_is_kept reapedQueue).
  apply DatabaseJobQueue.reach_cleanup. exact stalledQueue_reachable.
Defined.

Lemma job_is_dispatched_at_most_once_witness :
  List.NoDup (DatabaseJobQueue.dispatched stalledQueue)
  /\ forall i, In i (DatabaseJobQueue.dispatched stalledQueue) ->
       exists r, In r (DatabaseJobQueue.table stalledQueue)
                 /\ DatabaseJobQueue.id r = i
                 /\ DatabaseJobQueue.status r <> DatabaseJobQueue.PENDING.
Proof.
  apply (job_is_dispatched_at_most_once stalledQueue). exact stalledQueue_reachable.
Defined.

Lemma reaper_goes_by_start_time_witness :
  In stalledRow (DatabaseJobQueue.table stalledQueue)
  /\ DatabaseJobQueue.status stalledRow = DatabaseJobQueue.PROCESSING
  /\ DatabaseJobQueue.startedAt stalledRow = Some 0
  /\ exists r', In r' (DatabaseJobQueue.table (DatabaseJobQueue.cleanup stalledQueue 600001))
                /\ DatabaseJobQueue.id r' = DatabaseJobQueue.id stalledRow
                /\ DatabaseJobQueue.status r' = DatabaseJobQueue.FAILED
                /\ DatabaseJobQueue.error r' = Some DatabaseJobQueue.stalledError
                /\ DatabaseJobQueue.updatedAt r' = 600001.
Proof.
  assert (Hin : In stalledRow (DatabaseJobQueue.table stalledQueue)).
  { vm_compute. left. reflexivity. }
  split; [exact Hin|]. split; [reflexivity|]. split; [reflexivity|].
  apply (proj1 (reaper_goes_by_start_time stalledQueue 600001 stalledRow Hin)).
  - reflexivity.
  - exists 0. split; [reflexivity | vm_compute; reflexivity].
Defined.


(** ** Webhooks: retry ladder and successful delivery *)

(** X19.  A failed attempt that leaves the delivery with fewer than five
    attempts puts it at the end of the retry queue, due again after the
    delay the ladder has for the attempts made before: 5 s, 30 s, 2 min or
    10 min, never the one hour of the ladder's last entry.  The fifth failed
    attempt leaves the retry queue as it was.  The delivery queue is not
    touched in either case. *)
Theorem failed_attempt_climbs_the_retry_ladder
    (hmacSha256Hex : string -> string -> string)
    (stringify : WebhookManager.Payload -> string)
    (fetch : WebhookManager.Request -> WebhookManager.Fetched)
    (m : WebhookManager.t) (delivery : WebhookManager.WebhookDelivery)
    (endpoint : WebhookManager.WebhookEndpoint) (now : Z) :
  WebhookManager.endpoints m !! WebhookManager.endpointId delivery = Some endpoint ->
  WebhookManager.enabled endpoint = true ->
  (forall httpStatus statusText,
      WebhookManager.sendWebhook hmacSha256Hex stringify fetch endpoint delivery
      = WebhookManager.Response httpStatus statusText ->
      WebhookManager.ok httpStatus = false) ->
  0 <= WebhookManager.attempts delivery ->
  let after := WebhookManager.attemptDelivery hmacSha256Hex stringify fetch m delivery now in
  WebhookManager.deliveryQueue (fst after) = WebhookManager.deliveryQueue m
  /\ (WebhookManager.attempts delivery < 4 ->
      WebhookManager.retryQueue (fst after)
      = (WebhookManager.retryQueue m ++ [snd after])%list
      /\ exists delay,
           WebhookManager.RETRY_DELAYS !! Z.to_nat (WebhookManager.attempts delivery)
           = Some delay
           /\ In delay [5000; 30000; 120000; 600000]
           /\ WebhookManager.nextRetry (snd after) = Some (now + delay))
  /\ (4 <= WebhookManager.attempts delivery ->
      WebhookManager.retryQueue (fst after) = WebhookManager.retryQueue m
      /\ WebhookManager.nextRetry (snd after) = WebhookManager.nextRetry delivery).
Proof.
  intros Hlook Hen Hfail Hatt after. subst after.
  unfold WebhookManager.attemptDelivery. rewrite Hlook, Hen. simpl.
  assert (Hcase : forall message,
    let after := WebhookManager.deliveryFailed m endpoint delivery message now in
    WebhookManager.deliveryQueue (fst after) = WebhookManager.deliveryQueue m
    /\ (WebhookManager.attempts delivery < 4 ->
        WebhookManager.retryQueue (fst after)
        = (WebhookManager.retryQueue m ++ [snd after])%list
        /\ exists delay,
             WebhookManager.RETRY_DELAYS !! Z.to_nat (WebhookManager.attempts delivery)
             = Some delay
             /\ In delay [5000; 30000; 120000; 600000]
             /\ WebhookManager.nextRetry (snd after) = Some (now + delay))
    /\ (4 <= WebhookManager.attempts delivery ->
        WebhookManager.retryQueue (fst after) = WebhookManager.retryQueue m
        /\ WebhookManager.nextRetry (snd after) = WebhookManager.nextRetry delivery)).
  { intros message. unfold WebhookManager.deliveryFailed, WebhookManager.MAX_RETRY_ATTEMPTS.
    destruct (WebhookManager.attempts delivery + 1 <? 5) eqn:Hlt; simpl.
    - split; [reflexivity|]. split; [|intros; lia]. intros _.
      split; [reflexivity|].
      replace (WebhookManager.attempts delivery + 1 - 1)
        with (WebhookManager.attempts delivery) by lia.
      replace (0 <=? WebhookManager.attempts delivery) with true by lia.
      assert (Hk : WebhookManager.attempts delivery = 0
                   \/ WebhookManager.attempts delivery = 1
                   \/ WebhookManager.attempts delivery = 2
                   \/ WebhookManager.attempts delivery = 3) by lia.
      destruct Hk as [-> | [-> | [-> | ->]]]; eexists;
        (split; [reflexivity|]); (split; [simpl; tauto | reflexivity]).
    - split; [reflexivity|]. split; [intros; lia|]. intros _.
      split; reflexivity. }
  destruct (WebhookManager.sendWebhook hmacSha256Hex stringify fetch endpoint delivery)
    as [httpStatus statusText|message] eqn:Hsend.
  - rewrite (Hfail _ _ eq_refl). apply Hcase.
  - apply Hcase.
Qed.

Lemma failed_attempt_climbs_the_retry_ladder_witness :
  let after :=
    WebhookManager.attemptDelivery toyHmac toyStringify alwaysFails
      shakyManager freshDelivery 2000 in
  WebhookManager.deliveryQueue (fst after) = []
  /\ WebhookManager.retryQueue (fst after) = [snd after]
  /\ WebhookManager.nextRetry (snd after) = Some 7000.
Proof.
  destruct (failed_attempt_climbs_the_retry_ladder toyHmac toyStringify alwaysFails
              shakyManager freshDelivery shakyEndpoint 2000) as (Hq & Hretry & _).
  - vm_compute. reflexivity.
  - reflexivity.
  - intros httpStatus statusText H. vm_compute in H. injection H as <- _. reflexivity.
  - vm_compute. discriminate.
  - split; [exact Hq|]. destruct Hretry as [Hr _]; [vm_compute; reflexivity|].
    split; [exact Hr | reflexivity].
Defined.

(** X20.  A response with a 2xx status marks the delivery delivered and sets
    the endpoint's failure counter back to zero, whatever it was.  The
    attempt is not counted, the error text of an earlier failure stays on
    the delivery, and neither queue changes. *)
Theorem accepted_delivery_clears_the_failure_count
    (hmacSha256Hex : string -> string -> string)
    (stringify : WebhookManager.Payload -> string)
    (fetch : WebhookManager.Request -> WebhookManager.Fetched)
    (m : WebhookManager.t) (delivery : WebhookManager.WebhookDelivery)
    (endpoint : WebhookManager.WebhookEndpoint) (now httpStatus : Z)
    (statusText : string) :
  WebhookManager.endpoints m !! WebhookManager.endpointId delivery = Some endpoint ->
  WebhookManager.enabled endpoint = true ->
  WebhookManager.sendWebhook hmacSha256Hex stringify fetch endpoint delivery
  = WebhookManager.Response httpStatus statusText ->
  200 <= httpStatus <= 299 ->
  let after := WebhookManager.attemptDelivery hmacSha256Hex stringify fetch m delivery now in
  WebhookManager.status (snd after) = WebhookManager.delivered
  /\ WebhookManager.responseStatus (snd after) = Some httpStatus
  /\ WebhookManager.attempts (snd after) = WebhookManager.attempts delivery
  /\ WebhookManager.error (snd after) = WebhookManager.error delivery
  /\ WebhookManager.deliveryQueue (fst after) = WebhookManager.deliveryQueue m
  /\ WebhookManager.retryQueue (fst after) = WebhookManager.retryQueue m
  /\ exists endpoint',
       WebhookManager.endpoints (fst after) !! WebhookManager.endpointId delivery
       = Some endpoint'
       /\ WebhookManager.failureCount endpoint' = 0
       /\ WebhookManager.enabled endpoint' = true
       /\ WebhookManager.lastStatus endpoint' = Some httpStatus
       /\ WebhookManager.lastDelivery endpoint' = Some now.
Proof.
  intros Hlook Hen Hsend Hok after. subst after.
  unfold WebhookManager.attemptDelivery. rewrite Hlook, Hen, Hsend. simpl.
  replace (WebhookManager.ok httpStatus) with true
    by (unfold WebhookManager.ok; lia).
  simpl. repeat (split; [reflexivity|]).
  eexists. split; [apply lookup_insert_eq|]. simpl.
  repeat split; try reflexivity; exact Hen.
Qed.

Lemma accepted_delivery_clears_the_failure_count_witness :
  let after :=
    WebhookManager.attemptDelivery toyHmac toyStringify alwaysAccepts
      shakyManager freshDelivery 2000 in
  WebhookManager.status (snd after) = WebhookManager.delivered
  /\ option_map WebhookManager.failureCount
       (WebhookManager.endpoints (fst after) !! "ep_1") = Some 0.
Proof.
  destruct (accepted_delivery_clears_the_failure_count toyHmac toyStringify alwaysAccepts
              shakyManager freshDelivery shakyEndpoint 2000 200 "OK")
    as (Hst & _ & _ & _ & _ & _ & e' & He & Hc & _).
  - vm_compute. reflexivity.
  - reflexivity.
  - reflexivity.
  - lia.
  - split; [exact Hst|]. change (WebhookManager.endpointId freshDelivery) with "ep_1" in He.
    rewrite He. simpl. rewrite Hc. reflexivity.
Defined.


(** ** API rate limits and the authentication middleware *)

Section ApiRateLimit.
Import ApiAuthService.

Lemma rateLimitsAt_Some (tier : string) (config : RateLimitConfig) :
  rateLimitsAt tier = Some config ->
  windowMs config = 60000 /\ 100 <= maxRequests config.
Proof.
  unfold rateLimitsAt, RATE_LIMITS. cbn [List.find fst].
  destruct (String.eqb "basic" tier); [intros [= <-]; simpl; lia|].
  destruct (String.eqb "premium" tier); [intros [= <-]; simpl; lia|].
  destruct (String.eqb "enterprise" tier); [intros [= <-]; simpl; lia|].
  intros H. discriminate H.
Qed.

Lemma checkRateLimit_refused (store : t) (authContext : AuthContext) (endpoint : string)
    (now : Z) :
  fst (checkRateLimit store authContext endpoint now) = false ->
  snd (checkRateLimit store authContext endpoint now) = store.
Proof.
  unfold checkRateLimit.
  destruct (rateLimitsAt (rateLimitTier authContext)) as [config|]; [|reflexivity].
  cbv zeta. destruct (store !! storeKey authContext endpoint) as [w|];
    [|intros H; discriminate H].
  destruct (resetTime w <=? now - windowMs config); [intros H; discriminate H|].
  destruct (count w >=? maxRequests config); [reflexivity | intros H; discriminate H].
Qed.

Lemma checkRateLimits_open_window (authContext : AuthContext) (endpoint : string)
    (config : RateLimitConfig) (times : list Z) :
  rateLimitsAt (rateLimitTier authContext) = Some config ->
  forall (store : t) (w : Window),
  store !! storeKey authContext endpoint = Some w ->
  (forall now, In now times -> now - windowMs config < resetTime w) ->
  fst (checkRateLimits store authContext endpoint times)
  = List.map (fun k => count w + Z.of_nat k <? maxRequests config)
      (seq 0 (List.length times)).
Proof.
  intros Hc. induction times as [|now rest IH]; intros store w Hw Hin; [reflexivity|].
  cbn [checkRateLimits]. unfold checkRateLimit. rewrite Hc. cbv zeta. rewrite Hw.
  replace (resetTime w <=? now - windowMs config) with false
    by (specialize (Hin now (or_introl eq_refl)); lia).
  destruct (count w >=? maxRequests config) eqn:Hfull; rewrite Z.geb_leb in Hfull.
  - specialize (IH store w Hw (fun t Ht => Hin t (or_intror Ht))).
    destruct (checkRateLimits store authContext endpoint rest) as [bs s'].
    apply Z.leb_le in Hfull.
    cbn [fst] in *. cbn [List.length seq List.map].
    f_equal; [symmetry; apply Z.ltb_ge; lia|].
    rewrite IH, <- seq_shift, List.map_map. apply List.map_ext. intros k.
    transitivity false; [apply Z.ltb_ge; lia | symmetry; apply Z.ltb_ge; lia].
  - match goal with
    | |- context [checkRateLimits ?s1 _ _ rest] =>
        specialize (IH s1 {| count := count w + 1; resetTime := resetTime w |}
                      (lookup_insert_eq _ _ _)
                      (fun t Ht => Hin t (or_intror Ht)));
        destruct (checkRateLimits s1 authContext endpoint rest) as [bs s']
    end.
    apply Z.leb_gt in Hfull.
    cbn [fst count resetTime] in *. cbn [List.length seq List.map].
    f_equal; [symmetry; apply Z.ltb_lt; lia|].
    rewrite IH, <- seq_shift, List.map_map. apply List.map_ext. intros k.
    f_equal. lia.
Qed.

Lemma ceilDiv1000_nonpos (x : Z) : x <= 0 -> ceilDiv1000 x <= 0.
Proof.
  intros H. unfold ceilDiv1000.
  pose proof (Z.div_pos (- x) 1000 ltac:(lia) ltac:(lia)). lia.
Qed.

Lemma cleanup_lookup (store : t) (now : Z) (key : string) :
  cleanup store now !! key
  = match store !! key with
    | Some w => if resetTime w <=? now then None else Some w
    | None => None
    end.
Proof.
  unfold cleanup. destruct (store !! key) as [w|] eqn:Hw.
  - destruct (Z.leb_spec (resetTime w) now) as [Hle|Hgt].
    + apply map_lookup_filter_None. right. intros w' Hw' Hn.
      pose proof (eq_trans (eq_sym Hw) Hw') as E. injection E as <-.
      simpl in Hn. lia.
    + apply map_lookup_filter_Some. split; [exact Hw|]. simpl. lia.
  - apply map_lookup_filter_None. left. exact Hw.
Qed.
End ApiRateLimit.

(** X21.  From the call that opens a window for a client and path, and for
    the two window lengths that follow it, exactly the first [maxRequests]
    calls are allowed: the call number [k], counted from zero, is allowed
    when [k < maxRequests] and refused otherwise. *)
Theorem open_window_admits_exactly_the_limit
    (store : ApiAuthService.t) (authContext : ApiAuthService.AuthContext)
    (endpoint : string) (config : ApiAuthService.RateLimitConfig)
    (now : Z) (later : list Z) :
  ApiAuthService.rateLimitsAt (ApiAuthService.rateLimitTier authContext) = Some config ->
  store !! ApiAuthService.storeKey authContext endpoint = None ->
  (forall t, In t later -> t < now + 2 * ApiAuthService.windowMs config) ->
  fst (checkRateLimits store authContext endpoint (now :: later))
  = List.map (fun k => Z.of_nat k <? ApiAuthService.maxRequests config)
      (seq 0 (S (List.length later))).
Proof.
  intros Hc Hnone Hin.
  destruct (rateLimitsAt_Some _ _ Hc) as [_ Hmax].
  cbn [checkRateLimits]. unfold ApiAuthService.checkRateLimit at 1.
  rewrite Hc. cbv zeta. rewrite Hnone.
  match goal with
  | |- context [checkRateLimits ?s1 _ _ later] =>
      pose proof (checkRateLimits_open_window authContext endpoint config later Hc s1
                    {| ApiAuthService.count := 1;
                       ApiAuthService.resetTime := now + ApiAuthService.windowMs config |}
                    (lookup_insert_eq _ _ _)) as H;
      destruct (checkRateLimits s1 authContext endpoint later) as [bs s']
  end.
  cbn [fst ApiAuthService.count ApiAuthService.resetTime] in *.
  cbn [seq List.map]. f_equal; [symmetry; apply Z.ltb_lt; lia|].
  rewrite H by (intros t Ht; specialize (Hin t Ht); lia).
  rewrite <- seq_shift, List.map_map. apply List.map_ext. intros k.
  f_equal. lia.
Qed.

Lemma open_window_admits_exactly_the_limit_witness :
  fst (checkRateLimits ApiAuthService.create basicClient "/api/jobs" [0; 59999; 119999])
  = [true; true; true].
Proof.
  apply (open_window_admits_exactly_the_limit ApiAuthService.create basicClient
           "/api/jobs" {| ApiAuthService.windowMs := 60000;
                          ApiAuthService.maxRequests := 100 |} 0 [59999; 119999]).
  - reflexivity.
  - reflexivity.
  - intros t [<-|[<-|[]]]; vm_compute; reflexivity.
Defined.

(** X22.  A client that has used up its requests is refused until a full
    window length after the reset time of its window, not until the reset
    time: the refused call leaves the store as it is, and the information
    for the client shows no request remaining and the seconds to the reset
    time, which are zero or negative once that time has passed.  If the
    periodic clean-up runs after the reset time, the next call is allowed. *)
Theorem exhausted_client_is_refused_past_the_reset_time
    (store : ApiAuthService.t) (authContext : ApiAuthService.AuthContext)
    (endpoint : string) (config : ApiAuthService.RateLimitConfig)
    (w : ApiAuthService.Window) (now : Z) :
  ApiAuthService.rateLimitsAt (ApiAuthService.rateLimitTier authContext) = Some config ->
  store !! ApiAuthService.storeKey authContext endpoint = Some w ->
  ApiAuthService.maxRequests config <= ApiAuthService.count w ->
  now < ApiAuthService.resetTime w + ApiAuthService.windowMs config ->
  ApiAuthService.checkRateLimit store authContext endpoint now = (false, store)
  /\ (exists info,
        ApiAuthService.getRateLimitInfo store authContext endpoint now = inr info
        /\ ApiAuthService.remaining info = 0
        /\ ApiAuthService.retryAfter info
           = Some (ApiAuthService.ceilDiv1000 (ApiAuthService.resetTime w - now))
        /\ (ApiAuthService.resetTime w <= now ->
            ApiAuthService.ceilDiv1000 (ApiAuthService.resetTime w - now) <= 0))
  /\ (ApiAuthService.resetTime w <= now ->
      fst (ApiAuthService.checkRateLimit (ApiAuthService.cleanup store now)
             authContext endpoint now) = true).
Proof.
  intros Hc Hw Hfull Hnow. split; [|split].
  - unfold ApiAuthService.checkRateLimit. rewrite Hc. cbv zeta. rewrite Hw.
    replace (ApiAuthService.resetTime w <=? now - ApiAuthService.windowMs config)
      with false by lia.
    replace (ApiAuthService.count w >=? ApiAuthService.maxRequests config)
      with true by lia.
    reflexivity.
  - unfold ApiAuthService.getRateLimitInfo. rewrite Hc. cbv zeta. rewrite Hw.
    eexists. split; [reflexivity|]. cbn [ApiAuthService.remaining ApiAuthService.retryAfter].
    split; [lia|]. split.
    + replace (ApiAuthService.count w >=? ApiAuthService.maxRequests config)
        with true by lia.
      reflexivity.
    + intros Hle. apply ceilDiv1000_nonpos. lia.
  - intros Hle. unfold ApiAuthService.checkRateLimit. rewrite Hc. cbv zeta.
    rewrite cleanup_lookup, Hw.
    replace (ApiAuthService.resetTime w <=? now) with true by lia.
    reflexivity.
Qed.

Lemma exhausted_client_is_refused_past_the_reset_time_witness :
  ApiAuthService.checkRateLimit exhaustedStore basicClient "/api/jobs" 90000
  = (false, exhaustedStore)
  /\ fst (ApiAuthService.checkRateLimit (ApiAuthService.cleanup exhaustedStore 90000)
            basicClient "/api/jobs" 90000) = true.
Proof.
  destruct (exhausted_client_is_refused_past_the_reset_time exhaustedStore basicClient
              "/api/jobs" {| ApiAuthService.windowMs := 60000;
                             ApiAuthService.maxRequests := 100 |}
              {| ApiAuthService.count := 100; ApiAuthService.resetTime := 60000 |} 90000)
    as (Hrefused & _ & Hclean).
  - reflexivity.
  - vm_compute. reflexivity.
  - vm_compute. discriminate.
  - vm_compute. reflexivity.
  - split; [exact Hrefused|]. apply Hclean. vm_compute. discriminate.
Defined.


Section Middleware.
Import AuthMiddleware.

Lemma forallb_false_find {A : Type} (f : A -> bool) (l : list A) :
  forallb f l = false ->
  exists x, List.find (fun y => negb (f y)) l = Some x /\ In x l /\ f x = false.
Proof.
  induction l as [|a l IH]; intros H; [discriminate H|].
  simpl in H. simpl. destruct (f a) eqn:Ha; simpl in *.
  - destruct (IH H) as (x & Hx & Hin & Hf). exists x. auto.
  - exists a. auto.
Qed.

Lemma forallb_true_find {A : Type} (f : A -> bool) (l : list A) :
  forallb f l = true -> List.find (fun y => negb (f y)) l = None.
Proof.
  induction l as [|a l IH]; intros H; [reflexivity|].
  simpl in H. apply andb_true_iff in H. destruct H as [Ha Hl].
  simpl. rewrite Ha. simpl. apply IH. exact Hl.
Qed.

Lemma requireEach_ok (context : ApiAuthService.AuthContext) (ps : list string) :
  requireEach context ps = inr tt
  <-> forallb (ApiAuthService.hasPermission context) ps = true.
Proof.
  induction ps as [|p ps IH]; simpl; [tauto|].
  unfold ApiAuthService.requirePermission.
  destruct (ApiAuthService.hasPermission context p); simpl; [exact IH|].
  split; intros H; discriminate H.
Qed.

Lemma requireEach_thrown (context : ApiAuthService.AuthContext) (ps : list string)
    (thrown : RetryHandler.JsError) :
  requireEach context ps = inl thrown ->
  exists p, In p ps /\ ApiAuthService.hasPermission context p = false
            /\ RetryHandler.message thrown
               = String.append "Insufficient permissions: " (String.append p " required").
Proof.
  induction ps as [|p ps IH]; simpl; intros H; [discriminate H|].
  unfold ApiAuthService.requirePermission in H.
  destruct (ApiAuthService.hasPermission context p) eqn:Hp; simpl in H.
  - destruct (IH H) as (q & Hq & Hm). exists q. split; [right; exact Hq | exact Hm].
  - injection H as <-. exists p. split; [left; reflexivity|]. split; [exact Hp | reflexivity].
Qed.
End Middleware.

(** X23.  A request that the middleware answers itself (401, 403 or 429) or
    lets pass without a context is not counted against any rate limit: the
    store of the rate limiter is left as it was. *)
Theorem rejected_request_is_not_counted
    (store store' : ApiAuthService.t) (pathname : string)
    (authenticated : option ApiAuthService.AuthContext)
    (options : AuthMiddleware.AuthMiddlewareOptions) (now now' : Z)
    (result : AuthMiddleware.Authenticated) :
  AuthMiddleware.authenticate store pathname authenticated options now now'
  = inr (result, store') ->
  (forall r, AuthMiddleware.response result = Some r ->
             store' = store /\ In (AuthMiddleware.status r) [401; 403; 429])
  /\ (AuthMiddleware.authContext result = None -> store' = store).
Proof.
  unfold AuthMiddleware.authenticate.
  destruct (existsb _ _).
  { intros [= <- <-]. split; [intros r H; discriminate H | reflexivity]. }
  destruct authenticated as [context|].
  2:{ destruct (AuthMiddleware.required options); intros [= <- <-]; simpl.
      - split; [|reflexivity]. intros r [= <-]. simpl. tauto.
      - split; [intros r H; discriminate H | reflexivity]. }
  destruct (List.find _ _).
  { intros [= <- <-]. simpl. split; [|intros H; discriminate H].
    intros r [= <-]. simpl. tauto. }
  destruct (AuthMiddleware.rateLimited options).
  2:{ intros [= <- <-]. simpl. split; intros; discriminate. }
  pose proof (checkRateLimit_refused store context pathname now) as Href.
  destruct (ApiAuthService.checkRateLimit store context pathname now) as [allowed s1].
  simpl in Href.
  destruct (ApiAuthService.getRateLimitInfo s1 context pathname now') as [thrown|info];
    [intros H; discriminate H|].
  destruct allowed; simpl; intros [= <- <-]; simpl.
  - split; intros; discriminate.
  - split; [|intros H; discriminate H]. intros r [= <-]. simpl.
    split; [apply Href; reflexivity | tauto].
Qed.

Lemma rejected_request_is_not_counted_witness :
  exists result,
    AuthMiddleware.authenticate exhaustedStore "/api/jobs" (Some basicClient)
      AuthMiddleware.defaultOptions 90000 90001 = inr (result, exhaustedStore)
    /\ (forall r, AuthMiddleware.response result = Some r ->
                  exhaustedStore = exhaustedStore
                  /\ In (AuthMiddleware.status r) [401; 403; 429])
    /\ (AuthMiddleware.authContext result = None -> exhaustedStore = exhaustedStore).
Proof.
  eexists. split; [reflexivity|].
  apply (rejected_request_is_not_counted exhaustedStore exhaustedStore "/api/jobs"
           (Some basicClient) AuthMiddleware.defaultOptions 90000 90001).
  reflexivity.
Defined.

(** X24.  Permissions are checked before the rate limit: a request of an
    authenticated client that lacks one of the required permissions is
    answered with 403 naming a missing permission, and the store of the
    rate limiter is not touched, whatever the state of the client's
    budget. *)
Theorem missing_permission_is_answered_before_rate_limiting
    (store : ApiAuthService.t) (pathname : string)
    (context : ApiAuthService.AuthContext)
    (options : AuthMiddleware.AuthMiddlewareOptions) (now now' : Z) :
  existsb (fun path => Js.startsWith pathname path) (AuthMiddleware.skipPaths options)
  = false ->
  AuthMiddleware.checkPermissions (Some context) (AuthMiddleware.permissions options)
  = false ->
  exists permission,
    In permission (AuthMiddleware.permissions options)
    /\ ApiAuthService.hasPermission context permission = false
    /\ AuthMiddleware.authenticate store pathname (Some context) options now now'
       = inr ({| AuthMiddleware.authContext := Some context;
                 AuthMiddleware.response :=
                   Some {| AuthMiddleware.status := 403;
                           AuthMiddleware.error := "Insufficient permissions";
                           AuthMiddleware.message :=
                             String.append "Permission required: " permission;
                           AuthMiddleware.headers := [] |};
                 AuthMiddleware.internalRateLimitInfo := None |}, store).
Proof.
  intros Hskip Hperm. simpl in Hperm.
  destruct (forallb_false_find _ _ Hperm) as (p & Hfind & Hin & Hp).
  exists p. split; [exact Hin|]. split; [exact Hp|].
  unfold AuthMiddleware.authenticate. rewrite Hskip, Hfind. reflexivity.
Qed.

Lemma missing_permission_is_answered_before_rate_limiting_witness :
  exists permission,
    In permission ["jobs:read"; "jobs:create"]
    /\ ApiAuthService.hasPermission basicClient permission = false
    /\ AuthMiddleware.authenticate exhaustedStore "/api/jobs" (Some basicClient)
         jobsWriteOptions 90000 90001
       = inr ({| AuthMiddleware.authContext := Some basicClient;
                 AuthMiddleware.response :=
                   Some {| AuthMiddleware.status := 403;
                           AuthMiddleware.error := "Insufficient permissions";
                           AuthMiddleware.message :=
                             String.append "Permission required: " permission;
                           AuthMiddleware.headers := [] |};
                 AuthMiddleware.internalRateLimitInfo := None |}, exhaustedStore).
Proof.
  apply (missing_permission_is_answered_before_rate_limiting exhaustedStore "/api/jobs"
           basicClient jobsWriteOptions 90000 90001).
  - vm_compute. reflexivity.
  - vm_compute. reflexivity.
Defined.

(** X25.  The two permission helpers agree: [requirePermissions] returns
    without throwing exactly when [checkPermissions] answers true; and when
    it throws for an authenticated client, the error names a permission of
    the list that the client lacks. *)
Theorem permission_helpers_agree
    (authContext : option ApiAuthService.AuthContext) (permissions : list string) :
  (AuthMiddleware.requirePermissions authContext permissions = inr tt
   <-> AuthMiddleware.checkPermissions authContext permissions = true)
  /\ forall context thrown,
       authContext = Some context ->
       AuthMiddleware.requirePermissions authContext permissions = inl thrown ->
       exists permission,
         In permission permissions
         /\ ApiAuthService.hasPermission context permission = false
         /\ RetryHandler.message thrown
            = String.append "Insufficient permissions: "
                (String.append permission " required").
Proof.
  split.
  - destruct authContext as [context|]; simpl.
    + apply requireEach_ok.
    + split; intros H; discriminate H.
  - intros context thrown -> H. simpl in H. exact (requireEach_thrown _ _ _ H).
Qed.


(** ** Server-sent events: the subscription index *)

Section Subscriptions.
Import SSEManager.

Lemma removeSubscriber_lookup (c x : string) (index : gmap string (gset string))
    (topic : string) :
  removeSubscriber c x index !! topic
  = if decide (topic = x) then removeEntry c (index !! x) else index !! topic.
Proof.
  unfold removeSubscriber, removeEntry.
  destruct (decide (topic = x)) as [->|Hne].
  - destruct (index !! x) as [s|] eqn:Hx; [|exact Hx].
    destruct (bool_decide _); [apply lookup_delete_eq | apply lookup_insert_eq].
  - destruct (index !! x) as [s|] eqn:Hx; [|reflexivity].
    destruct (bool_decide _);
      [apply lookup_delete_ne | apply lookup_insert_ne]; congruence.
Qed.

Lemma removeAll_lookup (c : string) (index : gmap string (gset string))
    (topics : gset string) (topic : string) :
  set_fold (removeSubscriber c) index topics !! topic
  = if decide (topic ∈ topics) then removeEntry c (index !! topic) else index !! topic.
Proof.
  revert topic.
  pose (P := fun (r : gmap string (gset string)) (X : gset string) =>
               forall topic,
                 r !! topic = if decide (topic ∈ X) then removeEntry c (index !! topic)
                              else index !! topic).
  change (P (set_fold (removeSubscriber c) index topics) topics).
  apply set_fold_ind_L; unfold P; clear P.
  - intros topic. destruct (decide (topic ∈ (∅ : gset string))) as [H|_];
      [set_solver | reflexivity].
  - intros x X r Hx IH topic. rewrite removeSubscriber_lookup.
    destruct (decide (topic = x)) as [->|Hne].
    + rewrite IH. destruct (decide (x ∈ X)); [contradiction|].
      destruct (decide (x ∈ {[ x ]} ∪ X)); [reflexivity | set_solver].
    + rewrite IH. destruct (decide (topic ∈ X)), (decide (topic ∈ {[ x ]} ∪ X));
        try reflexivity; set_solver.
Qed.

Lemma removeEntry_Some (c : string) (entry : option (gset string)) (s' : gset string) :
  removeEntry c entry = Some s'
  <-> exists s, entry = Some s /\ s' = s ∖ {[ c ]} /\ s' <> ∅.
Proof.
  unfold removeEntry. destruct entry as [s|].
  - destruct (bool_decide _) eqn:Hb.
    + apply bool_decide_eq_true in Hb. apply size_empty_iff in Hb.
      split; [intros H; discriminate H|].
      intros (s0 & [= <-] & -> & Hne). exfalso. apply Hne.
      apply leibniz_equiv. exact Hb.
    + apply bool_decide_eq_false in Hb.
      split.
      * intros [= <-]. exists s. split; [reflexivity|]. split; [reflexivity|].
        intros He. apply Hb. rewrite He. apply size_empty.
      * intros (s0 & [= <-] & -> & _). reflexivity.
  - split; [intros H; discriminate H | intros (s0 & H & _); discriminate H].
Qed.

Lemma consistent_handleClientDisconnect (m : t) (c0 : string) :
  consistent m -> consistent (handleClientDisconnect m c0).
Proof.
  intros [Hagree Hne]. unfold handleClientDisconnect.
  destruct (clients m !! c0) as [cl0|] eqn:Hc0; [|split; assumption].
  assert (Hown : forall topic, topic ∈ Client.subscriptions cl0 <-> indexHas m topic c0).
  { intros topic. rewrite <- Hagree. unfold clientHas. rewrite Hc0. split.
    - intros H. exists cl0. auto.
    - intros (cl & [= <-] & H). exact H. }
  split.
  - intros c topic. unfold clientHas, indexHas. cbn [clients subscriptions].
    rewrite removeAll_lookup. split.
    + intros (cl & Hcl & Ht).
      apply lookup_delete_Some in Hcl. destruct Hcl as [Hcc Hcl].
      destruct (proj1 (Hagree c topic) (ex_intro _ cl (conj Hcl Ht))) as (s & Hs & Hin).
      destruct (decide (topic ∈ Client.subscriptions cl0)).
      * exists (s ∖ {[ c0 ]}). split; [|set_solver].
        apply removeEntry_Some. exists s. split; [exact Hs|]. split; [reflexivity|].
        set_solver.
      * exists s. auto.
    + intros (s' & Hs' & Hin).
      destruct (decide (topic ∈ Client.subscriptions cl0)) as [Hown'|Hown'].
      * apply removeEntry_Some in Hs'. destruct Hs' as (s & Hs & -> & _).
        assert (Hcc : c0 <> c) by set_solver.
        destruct (proj2 (Hagree c topic)) as (cl & Hcl & Ht).
        { exists s. split; [exact Hs | set_solver]. }
        exists cl. split; [|exact Ht]. apply lookup_delete_Some. auto.
      * assert (Hcc : c0 <> c).
        { intros <-. apply Hown'. apply Hown. exists s'. auto. }
        destruct (proj2 (Hagree c topic)) as (cl & Hcl & Ht).
        { exists s'. auto. }
        exists cl. split; [|exact Ht]. apply lookup_delete_Some. auto.
  - intros topic s' Hs'. cbn [subscriptions] in Hs'. rewrite removeAll_lookup in Hs'.
    destruct (decide (topic ∈ Client.subscriptions cl0)).
    + apply removeEntry_Some in Hs'. destruct Hs' as (s & _ & _ & H). exact H.
    + exact (Hne topic s' Hs').
Qed.

Lemma consistent_same_subscriptions (m : t) (c0 : string) (cl0 cl1 : Client.t) :
  consistent m -> clients m !! c0 = Some cl0 ->
  Client.subscriptions cl1 = Client.subscriptions cl0 ->
  consistent {| clients := <[ c0 := cl1 ]> (clients m); subscriptions := subscriptions m |}.
Proof.
  intros [Hagree Hne] Hc0 Hsame. split; [|exact Hne].
  intros c topic. etransitivity; [|exact (Hagree c topic)].
  unfold clientHas. cbn [clients]. split.
  - intros (cl & Hcl & Ht). apply lookup_insert_Some in Hcl.
    destruct Hcl as [[<- <-]|[Hcc Hcl]].
    + exists cl0. rewrite <- Hsame. auto.
    + exists cl. auto.
  - intros (cl & Hcl & Ht). destruct (decide (c0 = c)) as [<-|Hcc].
    + exists cl1. rewrite lookup_insert_eq. split; [reflexivity|].
      rewrite Hsame. rewrite Hc0 in Hcl. injection Hcl as <-. exact Ht.
    + exists cl. rewrite lookup_insert_ne by exact Hcc. auto.
Qed.

Variable stringify : Json -> string.
Variable enqueueThrows : string -> bool.

Lemma consistent_sendToClient (m : t) (c0 : string) (message : SSEMessage) :
  consistent m -> consistent (sendToClient stringify enqueueThrows m c0 message).
Proof.
  intros Hm. unfold sendToClient.
  destruct (clients m !! c0) as [cl0|] eqn:Hc0; [|exact Hm].
  destruct (enqueueThrows c0).
  - apply consistent_handleClientDisconnect. exact Hm.
  - apply (consistent_same_subscriptions m c0 cl0); auto.
Qed.

Lemma consistent_sendToEach (m : t) (ids : gset string) (message : SSEMessage) :
  consistent m -> consistent (sendToEach stringify enqueueThrows m ids message).
Proof.
  intros Hm. unfold sendToEach.
  apply (set_fold_ind_L (fun r (_ : gset string) => consistent r)); [exact Hm|].
  intros x X r _ Hr. apply consistent_sendToClient. exact Hr.
Qed.
End Subscriptions.


Section SubscriptionOps.
Import SSEManager.

Lemma clientHas_insert (m : t) (c0 : string) (cl1 : Client.t)
    (index : gmap string (gset string)) (c topic : string) :
  clientHas {| clients := <[ c0 := cl1 ]> (clients m); subscriptions := index |} c topic
  <-> (c = c0 /\ topic ∈ Client.subscriptions cl1) \/ (c <> c0 /\ clientHas m c topic).
Proof.
  unfold clientHas. cbn [clients]. split.
  - intros (cl & Hcl & Ht). apply lookup_insert_Some in Hcl.
    destruct Hcl as [[<- <-]|[Hcc Hcl]]; [left; auto|].
    right. split; [congruence|]. exists cl. auto.
  - intros [[-> Ht]|[Hcc (cl & Hcl & Ht)]].
    + exists cl1. split; [apply lookup_insert_eq | exact Ht].
    + exists cl. split; [|exact Ht]. rewrite lookup_insert_ne by congruence. exact Hcl.
Qed.

Lemma clientHas_own (m : t) (c0 : string) (cl0 : Client.t) (topic : string) :
  clients m !! c0 = Some cl0 ->
  clientHas m c0 topic <-> topic ∈ Client.subscriptions cl0.
Proof.
  intros Hc0. unfold clientHas. rewrite Hc0. split.
  - intros (cl & [= <-] & H). exact H.
  - intros H. exists cl0. auto.
Qed.

Lemma addSubscriber_lookup (index : gmap string (gset string)) (t0 c0 topic : string) :
  match (match index !! t0 with
         | None => <[ t0 := ∅ ]> index
         | Some _ => index
         end) !! t0 with
  | Some topicSubscribers =>
      <[ t0 := {[ c0 ]} ∪ topicSubscribers ]>
        (match index !! t0 with
         | None => <[ t0 := ∅ ]> index
         | Some _ => index
         end)
  | None => match index !! t0 with
            | None => <[ t0 := ∅ ]> index
            | Some _ => index
            end
  end !! topic
  = if decide (topic = t0) then Some ({[ c0 ]} ∪ default ∅ (index !! t0))
    else index !! topic.
Proof.
  destruct (index !! t0) as [s|] eqn:Ht0.
  - rewrite Ht0. destruct (decide (topic = t0)) as [->|Hne].
    + apply lookup_insert_eq.
    + rewrite lookup_insert_ne by congruence. reflexivity.
  - rewrite lookup_insert_eq. destruct (decide (topic = t0)) as [->|Hne].
    + apply lookup_insert_eq.
    + rewrite !lookup_insert_ne by congruence. reflexivity.
Qed.

Variable stringify : Json -> string.
Variable enqueueThrows : string -> bool.

Lemma consistent_subscribe (m : t) (c0 t0 : string) :
  consistent m -> consistent (fst (subscribe stringify enqueueThrows m c0 t0)).
Proof.
  intros Hm. unfold subscribe.
  destruct (clients m !! c0) as [cl0|] eqn:Hc0; [|exact Hm].
  cbv zeta. cbn [fst]. apply consistent_sendToClient.
  destruct Hm as [Hagree Hne]. split.
  - intros c topic. rewrite clientHas_insert. cbn [Client.subscriptions].
    unfold indexHas. cbn [subscriptions]. rewrite addSubscriber_lookup.
    pose proof (clientHas_own m c0 cl0 topic Hc0) as Hown.
    pose proof (Hagree c topic) as Hct. unfold indexHas in Hct.
    destruct (decide (topic = t0)) as [->|Ht].
    + split.
      * intros [[-> _]|[Hcc Hhas]].
        -- eexists. split; [reflexivity | set_solver].
        -- apply Hct in Hhas. destruct Hhas as (s & Hs & Hin).
           eexists. split; [reflexivity|]. rewrite Hs. simpl. set_solver.
      * intros (s & [= <-] & Hin).
        destruct (decide (c = c0)) as [->|Hcc]; [left; split; [reflexivity|set_solver]|].
        right. split; [exact Hcc|]. apply Hct.
        destruct (subscriptions m !! t0) as [s0|]; simpl in Hin.
        -- exists s0. split; [reflexivity | set_solver].
        -- set_solver.
    + split.
      * intros [[-> Hin]|[Hcc Hhas]].
        -- apply Hct. apply Hown. set_solver.
        -- apply Hct. exact Hhas.
      * intros Hidx. apply Hct in Hidx.
        destruct (decide (c = c0)) as [->|Hcc]; [|right; auto].
        left. split; [reflexivity|]. apply Hown in Hidx. set_solver.
  - intros topic s Hs. cbn [subscriptions] in Hs. rewrite addSubscriber_lookup in Hs.
    destruct (decide (topic = t0)) as [->|Ht].
    + injection Hs as <-. set_solver.
    + exact (Hne topic s Hs).
Qed.

Lemma consistent_unsubscribe (m : t) (c0 t0 : string) :
  consistent m -> consistent (fst (unsubscribe stringify enqueueThrows m c0 t0)).
Proof.
  intros Hm. unfold unsubscribe.
  destruct (clients m !! c0) as [cl0|] eqn:Hc0; [|exact Hm].
  cbv zeta. cbn [fst]. apply consistent_sendToClient.
  destruct Hm as [Hagree Hne]. split.
  - intros c topic. rewrite clientHas_insert. cbn [Client.subscriptions].
    unfold indexHas. cbn [subscriptions]. rewrite removeSubscriber_lookup.
    pose proof (clientHas_own m c0 cl0 topic Hc0) as Hown.
    pose proof (Hagree c topic) as Hct. unfold indexHas in Hct.
    destruct (decide (topic = t0)) as [->|Ht].
    + split.
      * intros [[-> Hin]|[Hcc Hhas]]; [set_solver|].
        apply Hct in Hhas. destruct Hhas as (s & Hs & Hin).
        exists (s ∖ {[ c0 ]}). split; [|set_solver].
        apply removeEntry_Some. exists s. split; [exact Hs|].
        split; [reflexivity | set_solver].
      * intros (s' & Hs' & Hin). apply removeEntry_Some in Hs'.
        destruct Hs' as (s & Hs & -> & _).
        right. split; [set_solver|]. apply Hct. exists s. split; [exact Hs | set_solver].
    + split.
      * intros [[-> Hin]|[Hcc Hhas]].
        -- apply Hct. apply Hown. set_solver.
        -- apply Hct. exact Hhas.
      * intros Hidx. apply Hct in Hidx.
        destruct (decide (c = c0)) as [->|Hcc]; [|right; auto].
        left. split; [reflexivity|]. apply Hown in Hidx. set_solver.
  - intros topic s' Hs'. cbn [subscriptions] in Hs'.
    rewrite removeSubscriber_lookup in Hs'.
    destruct (decide (topic = t0)) as [->|Ht].
    + apply removeEntry_Some in Hs'. destruct Hs' as (s & _ & _ & H). exact H.
    + exact (Hne topic s' Hs').
Qed.

Lemma consistent_createConnection (m : t) (c0 : string) (now : Z) :
  consistent m -> clients m !! c0 = None ->
  consistent (createConnection stringify enqueueThrows m c0 now).
Proof.
  intros [Hagree Hne] Hfresh. unfold createConnection. cbv zeta.
  apply consistent_sendToClient. split; [|exact Hne].
  intros c topic. rewrite clientHas_insert. cbn [Client.subscriptions].
  etransitivity; [|exact (Hagree c topic)]. split.
  - intros [[_ Hin]|[_ Hhas]]; [set_solver | exact Hhas].
  - intros Hhas. right. split; [|exact Hhas].
    intros ->. destruct Hhas as (cl & Hcl & _). rewrite Hfresh in Hcl. discriminate Hcl.
Qed.


End SubscriptionOps.

Lemma reachable_consistent (stringify : SSEManager.Json -> string) (m : SSEManager.t) :
  SSEManager.reachable stringify m -> consistent m.
Proof.
  induction 1 as [| m streams c now _ IH Hfresh | m c _ IH | m streams c topic _ IH
                  | m streams c topic _ IH | m streams message _ IH
                  | m streams topic message _ IH].
  - split.
    + intros c topic. split.
      * intros (cl & Hcl & _). revert Hcl. unfold SSEManager.create. cbn [SSEManager.clients].
        rewrite lookup_empty. discriminate.
      * intros (s & Hs & _). revert Hs. unfold SSEManager.create. cbn [SSEManager.subscriptions].
        rewrite lookup_empty. discriminate.
    + intros topic s. unfold SSEManager.create. cbn [SSEManager.subscriptions].
      rewrite lookup_empty. discriminate.
  - apply consistent_createConnection; assumption.
  - apply consistent_handleClientDisconnect. exact IH.
  - apply consistent_subscribe. exact IH.
  - apply consistent_unsubscribe. exact IH.
  - apply consistent_sendToEach. exact IH.
  - unfold SSEManager.broadcastToTopic. destruct (SSEManager.subscriptions m !! topic); [|exact IH].
    apply consistent_sendToEach. exact IH.
Qed.

(** X26.  In every state the manager reaches, the two records of the
    subscriptions agree: a topic is among the subscriptions of a connected
    client exactly when the index lists that client under the topic; the
    index lists connected clients only, and no topic without a subscriber. *)
Theorem subscription_index_matches_the_clients
    (stringify : SSEManager.Json -> string) (m : SSEManager.t) :
  SSEManager.reachable stringify m ->
  (forall clientId topic,
     (exists client, SSEManager.clients m !! clientId = Some client
                     /\ topic ∈ SSEManager.Client.subscriptions client)
     <-> (exists subscribers, SSEManager.subscriptions m !! topic = Some subscribers
                              /\ clientId ∈ subscribers))
  /\ (forall topic subscribers,
        SSEManager.subscriptions m !! topic = Some subscribers -> subscribers <> ∅).
Proof.
  intros Hr. exact (reachable_consistent stringify m Hr).
Qed.



Lemma twoClients_reachable : SSEManager.reachable toyJson twoClients.
Proof.
  unfold twoClients. cbv zeta.
  apply SSEManager.reach_subscribe.
  apply SSEManager.reach_createConnection.
  - apply SSEManager.reach_createConnection.
    + apply SSEManager.reach_create.
    + reflexivity.
  - vm_compute. reflexivity.
Qed.

Lemma subscription_index_matches_the_clients_witness :
  (forall clientId topic,
     (exists client, SSEManager.clients twoClients !! clientId = Some client
                     /\ topic ∈ SSEManager.Client.subscriptions client)
     <-> (exists subscribers,
            SSEManager.subscriptions twoClients !! topic = Some subscribers
            /\ clientId ∈ subscribers))
  /\ (forall topic subscribers,
        SSEManager.subscriptions twoClients !! topic = Some subscribers ->
        subscribers <> ∅).
Proof.
  apply (subscription_index_matches_the_clients toyJson twoClients).
  exact twoClients_reachable.
Defined.



(** ** Job queue: cancelling a job that the processor still finishes *)

Section CancelThenComplete.
Import DatabaseJobQueue.

Lemma findUnique_update_same (i : string) (f : ScrapeJob -> ScrapeJob)
    (rows : list ScrapeJob) :
  (forall r, id (f r) = id r) ->
  findUnique i (update i f rows) = option_map f (findUnique i rows).
Proof.
  intros Hid. unfold findUnique, update.
  induction rows as [|r rows IH]; [reflexivity|].
  cbn [List.map List.find]. destruct (String.eqb (id r) i) eqn:E.
  - rewrite Hid, E. reflexivity.
  - rewrite E. exact IH.
Qed.

Lemma findUnique_update_other (i j : string) (f : ScrapeJob -> ScrapeJob)
    (rows : list ScrapeJob) :
  i <> j -> (forall r, id (f r) = id r) ->
  findUnique i (update j f rows) = findUnique i rows.
Proof.
  intros Hne Hid. unfold findUnique, update.
  induction rows as [|r rows IH]; [reflexivity|].
  cbn [List.map List.find]. destruct (String.eqb (id r) j) eqn:E.
  - rewrite Hid. apply String.eqb_eq in E.
    replace (String.eqb (id r) i) with false
      by (symmetry; apply String.eqb_neq; congruence).
    exact IH.
  - destruct (String.eqb (id r) i); [reflexivity | exact IH].
Qed.

Lemma processQueue_keeps_settled_row (q : t) (now : Z) (i : string) :
  (forall r, In r (table q) -> id r = i -> status r <> PENDING) ->
  findUnique i (table (processQueue q now)) = findUnique i (table q).
Proof.
  intros Hset. unfold processQueue.
  destruct (processing q || _); [reflexivity|].
  destruct (findFirstPending (table q)) as [j|] eqn:Hj; [|reflexivity].
  destruct (findFirstPending_Some _ _ Hj) as (Hin & Hst & _).
  cbn [table]. apply findUnique_update_other; [|reflexivity].
  intros Heq. exact (Hset j Hin (eq_sym Heq) Hst).
Qed.
End CancelThenComplete.

(** X28.  Cancelling a job that has not ended marks it CANCELLED and frees
    its slot without starting another job.  If the processor then finishes
    the job, the row is overwritten: it ends COMPLETED or FAILED as the
    result says, and a later cancellation is refused. *)
Theorem finished_job_overwrites_its_cancellation
    (q : DatabaseJobQueue.t) (i : string) (job : DatabaseJobQueue.ScrapeJob)
    (result : DatabaseJobQueue.JobResult) (t1 t2 t3 : Z) :
  DatabaseJobQueue.findUnique i (DatabaseJobQueue.table q) = Some job ->
  DatabaseJobQueue.status job <> DatabaseJobQueue.COMPLETED ->
  DatabaseJobQueue.status job <> DatabaseJobQueue.FAILED ->
  let cancelled := DatabaseJobQueue.cancelJob q i t1 in
  let finished := DatabaseJobQueue.completeJob (fst cancelled) i result t2 in
  snd cancelled = true
  /\ statusOf (fst cancelled) i = Some DatabaseJobQueue.CANCELLED
  /\ i ∉ DatabaseJobQueue.currentJobs (fst cancelled)
  /\ DatabaseJobQueue.dispatched (fst cancelled) = DatabaseJobQueue.dispatched q
  /\ statusOf finished i
     = Some (if DatabaseJobQueue.success result
             then DatabaseJobQueue.COMPLETED else DatabaseJobQueue.FAILED)
  /\ snd (DatabaseJobQueue.cancelJob finished i t3) = false.
Proof.
  intros Hjob Hc Hf cancelled finished.
  assert (Hcancel : cancelled
    = ({| DatabaseJobQueue.table :=
            DatabaseJobQueue.update i (fun r =>
              {| DatabaseJobQueue.id := DatabaseJobQueue.id r;
                 DatabaseJobQueue.priority := DatabaseJobQueue.priority r;
                 DatabaseJobQueue.maxListings := DatabaseJobQueue.maxListings r;
                 DatabaseJobQueue.enableWebhooks := DatabaseJobQueue.enableWebhooks r;
                 DatabaseJobQueue.status := DatabaseJobQueue.CANCELLED;
                 DatabaseJobQueue.progress := DatabaseJobQueue.progress r;
                 DatabaseJobQueue.listingsFound := DatabaseJobQueue.listingsFound r;
                 DatabaseJobQueue.duration := DatabaseJobQueue.duration r;
                 DatabaseJobQueue.error := DatabaseJobQueue.error r;
                 DatabaseJobQueue.createdAt := DatabaseJobQueue.createdAt r;
                 DatabaseJobQueue.startedAt := DatabaseJobQueue.startedAt r;
                 DatabaseJobQueue.completedAt := DatabaseJobQueue.completedAt r;
                 DatabaseJobQueue.updatedAt := t1 |}) (DatabaseJobQueue.table q);
          DatabaseJobQueue.processing := DatabaseJobQueue.processing q;
          DatabaseJobQueue.maxConcurrentJobs := DatabaseJobQueue.maxConcurrentJobs q;
          DatabaseJobQueue.currentJobs := DatabaseJobQueue.currentJobs q ∖ {[ i ]};
          DatabaseJobQueue.emitted :=
            DatabaseJobQueue.emitted q ++ [DatabaseJobQueue.jobCancelled i] |}, true)).
  { subst cancelled. unfold DatabaseJobQueue.cancelJob. rewrite Hjob.
    destruct (DatabaseJobQueue.status job); try reflexivity; congruence. }
  assert (Hrow : DatabaseJobQueue.findUnique i (DatabaseJobQueue.table (fst cancelled))
                 <> None
                 /\ statusOf (fst cancelled) i = Some DatabaseJobQueue.CANCELLED).
  { rewrite Hcancel. unfold statusOf. cbn [fst DatabaseJobQueue.table].
    rewrite findUnique_update_same by reflexivity. rewrite Hjob. simpl.
    split; [discriminate | reflexivity]. }
  destruct Hrow as [Hsome Hstatus].
  assert (Hfinished : statusOf finished i
     = Some (if DatabaseJobQueue.success result
             then DatabaseJobQueue.COMPLETED else DatabaseJobQueue.FAILED)).
  { subst finished. unfold statusOf, DatabaseJobQueue.completeJob.
    destruct (DatabaseJobQueue.findUnique i (DatabaseJobQueue.table (fst cancelled)))
      as [row|] eqn:Hrow; [|contradiction].
    rewrite processQueue_keeps_settled_row.
    - cbn [DatabaseJobQueue.table]. rewrite findUnique_update_same by reflexivity.
      rewrite Hrow. reflexivity.
    - intros r Hin Hid. cbn [DatabaseJobQueue.table] in Hin.
      apply update_In in Hin. destruct Hin as (r0 & _ & [[_ ->]|[Hne ->]]).
      + simpl. destruct (DatabaseJobQueue.success result); discriminate.
      + contradiction. }
  split; [rewrite Hcancel; reflexivity|]. split; [exact Hstatus|].
  split; [rewrite Hcancel; cbn [fst DatabaseJobQueue.currentJobs]; set_solver|].
  split.
  { rewrite Hcancel. cbn [fst]. apply dispatched_emit. discriminate. }
  split; [exact Hfinished|].
  unfold DatabaseJobQueue.cancelJob. unfold statusOf in Hfinished.
  destruct (DatabaseJobQueue.findUnique i (DatabaseJobQueue.table finished)) as [row|];
    [|reflexivity].
  simpl in Hfinished. injection Hfinished as ->.
  destruct (DatabaseJobQueue.success result); reflexivity.
Qed.

Lemma finished_job_overwrites_its_cancellation_witness :
  let cancelled := DatabaseJobQueue.cancelJob stalledQueue "job-1" 2000 in
  let finished := DatabaseJobQueue.completeJob (fst cancelled) "job-1" succeeded 3000 in
  snd cancelled = true
  /\ statusOf (fst cancelled) "job-1" = Some DatabaseJobQueue.CANCELLED
  /\ "job-1" ∉ DatabaseJobQueue.currentJobs (fst cancelled)
  /\ DatabaseJobQueue.dispatched (fst cancelled) = DatabaseJobQueue.dispatched stalledQueue
  /\ statusOf finished "job-1" = Some DatabaseJobQueue.COMPLETED
  /\ snd (DatabaseJobQueue.cancelJob finished "job-1" 4000) = false.
Proof.
  apply (finished_job_overwrites_its_cancellation stalledQueue "job-1" stalledRow
           succeeded 2000 3000 4000).
  - vm_compute. reflexivity.
  - vm_compute. discriminate.
  - vm_compute. discriminate.
Defined.
